(** * slingxdcc: the download orchestrator and the connection session

    A shallow embedding of [node/lib/SlingManager.js] and
    [node/lib/SlingIrc.js].  The module-level singletons of the JavaScript
    code ([networks], [finished], the configuration stores behind [sc], the
    document store behind [db]) become the fields of one explicit [State];
    every method and every event handler becomes a computation in a small
    state-and-exception monad, so that a JavaScript [throw] in the middle of
    a handler leaves exactly the mutations done before it.

    The program is single-threaded and event-driven.  One turn of its event
    loop (a method call, the delivery of one event, the answer of the
    document store to one lookup) is one [action]; the states between two
    turns are the [reachable] ones, and the properties of the queues are
    proved as invariants of these.

    Plain JavaScript objects used as dictionaries ([nw.xdcc], [packData])
    are finite maps with string keys; bot nicks and field names are assumed
    not to shadow a property inherited from [Object.prototype].  Arrays are
    lists.  Strings are byte strings, so the case mapping below is the ASCII
    one. *)

From Stdlib Require Import ZArith Ascii String List Bool Lia.
From stdpp Require Import base option list strings gmap fin_maps.

Local Open Scope string_scope.
Local Open Scope list_scope.

(** ** JavaScript values that cross the interfaces *)

(** A JavaScript number as far as this code produces one: an integer or
    [NaN].  The sizes handled here are products of a parsed integer and
    powers of 1024, which a double represents exactly as long as the parsed
    integer itself is below 2^53. *)
Inductive number : Type :=
| Num (z : Z)
| NaN.

(** The values of untyped arguments and record fields. *)
Inductive jsval : Type :=
| JUndefined
| JNull
| JBool (b : bool)
| JNumber (n : number)
| JStr (s : string).

(** [_.isString] *)
Definition isString (v : jsval) : bool :=
  match v with JStr _ => true | _ => false end.

(** [x * y] on numbers *)
Definition mul (x : number) (y : Z) : number :=
  match x with
  | Num z => Num (z * y)%Z
  | NaN => NaN
  end.

(** ** String primitives of the host language *)

Module JsString.

Local Open Scope Z_scope.

(** The lower-case form of an upper-case ASCII letter. *)
Definition lower_ascii (c : ascii) : ascii :=
  let n := N_of_ascii c in
  if ((65 <=? n) && (n <=? 90))%N then ascii_of_N (n + 32) else c.

(** [String.prototype.toLowerCase] *)
Fixpoint toLowerCase (s : string) : string :=
  match s with
  | EmptyString => EmptyString
  | String c s' => String (lower_ascii c) (toLowerCase s')
  end.

(** White space skipped by [parseInt]: TAB, LF, VT, FF, CR and SP. *)
Definition is_space (c : ascii) : bool :=
  let n := N_of_ascii c in
  (((9 <=? n) && (n <=? 13)) || (n =? 32))%N.

(** [s] without its leading white space. *)
Fixpoint skip_space (s : string) : string :=
  match s with
  | String c s' => if is_space c then skip_space s' else s
  | EmptyString => EmptyString
  end.

(** The value of [c] as a digit in [radix], if it is one. *)
Definition digit (radix : Z) (c : ascii) : option Z :=
  let n := Z.of_N (N_of_ascii c) in
  let d :=
    if (48 <=? n) && (n <=? 57) then Some (n - 48)
    else if (97 <=? n) && (n <=? 122) then Some (n - 87)
    else if (65 <=? n) && (n <=? 90) then Some (n - 55)
    else None in
  match d with
  | Some v => if v <? radix then Some v else None
  | None => None
  end.

(** Longest prefix of digits, accumulated left to right; the flag tells
    whether at least one digit was read. *)
Fixpoint digits (radix : Z) (s : string) (acc : Z) (seen : bool) : Z * bool :=
  match s with
  | EmptyString => (acc, seen)
  | String c s' =>
      match digit radix c with
      | Some v => digits radix s' (acc * radix + v) true
      | None => (acc, seen)
      end
  end.

(** [parseInt(s)] with no radix argument: leading white space, an
    optional sign, an optional [0x]/[0X] prefix selecting radix 16, then
    the longest run of digits; [NaN] when there is none. *)
Definition parseInt (s : string) : number :=
  let s0 := skip_space s in
  let '(sign, s1) :=
    match s0 with
    | String "-" r => (-1, r)
    | String "+" r => (1, r)
    | _ => (1, s0)
    end in
  let '(radix, s2) :=
    match s1 with
    | String "0" (String "x" r) => (16, r)
    | String "0" (String "X" r) => (16, r)
    | _ => (10, s1)
    end in
  match digits radix s2 0 false with
  | (v, true) => Num (sign * v)
  | (_, false) => NaN
  end.

End JsString.

(** ** Channels and the announcement parser ([SlingIrc.js], [handle.packParse]) *)

(** Modelled from the spec: [SlingChannel] is not part of the sources at
    hand.  A channel has a name, an optional join password, an announcement
    pattern with the ordered field names of its capture groups, a topic, a
    membership status and the observed flag; these are the fields the
    session code reads and writes. *)
Record SlingChannel : Type := mkChannel {
  chan_name : string;
  chan_password : option string;
  chan_regex : string;
  chan_groupOrder : list string;
  chan_topic : string;
  chan_status : string;
  chan_observed : bool
}.

(** What is stored in the session's [packCb] slot, or passed as
    [opts.onPackinfo]. *)
Inductive callback : Type :=
| CbUndefined
| CbFunction
| CbOther.

(** [_.isFunction] *)
Definition isFunction (c : callback) : bool :=
  match c with CbFunction => true | _ => false end.

Module Parser.

(** The structured record under construction, [packData]. *)
Abbreviation PackData := (gmap string jsval).

(** [packinfo[i]] on the array returned by [String.prototype.match]: a
    group that took no part in the match, and an index past the end, both
    read as [undefined]. *)
Definition capture (packinfo : list (option string)) (i : nat) : jsval :=
  match packinfo !! i with
  | Some (Some s) => JStr s
  | _ => JUndefined
  end.

(** The loop [for (i = 0; i < groupOrder.length; i++)
    packData[groupOrder[i]] = packinfo[i + 1]], started at index [i]. *)
Fixpoint mapGroups (groupOrder : list string) (packinfo : list (option string))
    (i : nat) (packData : PackData) : PackData :=
  match groupOrder with
  | [] => packData
  | g :: rest =>
      mapGroups rest packinfo (S i) (<[g := capture packinfo (S i)]> packData)
  end.

(** The [switch] over the lower-cased unit.  Its cases are entered at the
    matching label and fall through to the [break] after the kilobyte
    case; [entry] is the number of case bodies run. *)
Definition entry (unit : string) : option nat :=
  if String.eqb unit "t" then Some 4
  else if String.eqb unit "g" then Some 3
  else if String.eqb unit "m" then Some 2
  else if String.eqb unit "k" then Some 1
  else None.

(** [bodies] case bodies in a row, each [packData.size *= 1024]. *)
Fixpoint fallThrough (bodies : nat) (size : number) : number :=
  match bodies with
  | O => size
  | S n => fallThrough n (mul size 1024%Z)
  end.

(** The block guarded by
    [_.isString(packData.sizeUnit) && _.isString(packData.size)]. *)
Definition scaleSize (packData : PackData) : PackData :=
  match packData !! "sizeUnit", packData !! "size" with
  | Some (JStr unit), Some (JStr size) =>
      let size := JsString.parseInt size in
      match entry (JsString.toLowerCase unit) with
      | Some bodies =>
          (* sizeMatch = true *)
          delete "sizeUnit" (<["size" := JNumber (fallThrough bodies size)]> packData)
      | None => <["size" := JNumber size]> packData
      end
  | _, _ => packData
  end.

Section PackParse.

(** [text.match(regex)]: the regular-expression engine of the host. *)
Variable regexMatch : string -> string -> option (list (option string)).

(** [handle.packParse], bound to a session whose callback slot holds
    [packCb].  The result is the call made to the callback, if any. *)
Definition packParse (packCb : callback) (channel : SlingChannel)
    (nick text : string) : option (PackData * SlingChannel * string) :=
  match regexMatch text (chan_regex channel) with
  | None => None
  | Some packinfo =>
      let packData := mapGroups (chan_groupOrder channel) packinfo 0%nat ∅ in
      let packData := scaleSize packData in
      if isFunction packCb then Some (packData, channel, nick) else None
  end.

End PackParse.

End Parser.

(** ** The connection session ([SlingIrc.js]) *)

(** The settings object handed to the protocol client. *)
Abbreviation IrcOpts := (gmap string jsval).

(** Modelled from the spec: the protocol client ([irc.Client]) is an
    external collaborator.  It is created from a server name, a nickname
    and a settings object, which it exposes as [opt], and it accepts a
    disconnect command. *)
Record Client : Type := mkClient {
  client_server : string;
  client_nick : string;
  client_opt : IrcOpts;
  client_disconnected : bool
}.

(** The [opts] argument of the constructor.  [None] in an array- or
    object-valued field stands for any value that fails [_.isArray],
    respectively [_.isObject]. *)
Record Opts : Type := mkOpts {
  opts_nick : jsval;
  opts_channels : option (list SlingChannel);
  opts_ircOpts : option IrcOpts;
  opts_commands : option (list string);
  opts_onPackinfo : callback
}.

(** The private members of a session (the entry of [_privates]). *)
Record SlingIrc : Type := mkIrc {
  irc_client : Client;
  irc_nick : string;
  irc_hostname : string;
  irc_errors : list string;
  irc_motd : string;
  irc_notices : list string;
  irc_commands : list string;
  irc_status : string;
  irc_chans : list (string * SlingChannel);
  irc_packCb : callback
}.

(** The plain object produced by [toJSON] and read by [fromJSON]; a field
    holds [JUndefined] or [None] when the object has no such property. *)
Record JsonOpts : Type := mkJsonOpts {
  jo_nick : jsval;
  jo_commands : option (list string);
  jo_onPackinfo : callback;
  jo_ircOpts : option IrcOpts;
  jo_channels : option (list SlingChannel)
}.

(** The snapshot itself. *)
Record Json : Type := mkJson {
  json_hostname : jsval;
  json_nick : jsval;
  json_opts : option JsonOpts;
  json_errors : list string;
  json_motd : string;
  json_notices : list string;
  json_status : jsval
}.

Module Session.

(** [Map.prototype.set] on a map kept in insertion order: an existing key
    keeps its place. *)
Fixpoint map_set {V : Type} (k : string) (v : V) (m : list (string * V))
    : list (string * V) :=
  match m with
  | [] => [(k, v)]
  | (k', v') :: m' =>
      if String.eqb k' k then (k, v) :: m' else (k', v') :: map_set k v m'
  end.

(** One property of [_.defaults]: assigned when the destination resolves
    to [undefined]. *)
Definition assignDefault (k : string) (v : jsval) (o : IrcOpts) : IrcOpts :=
  match o !! k with
  | None | Some JUndefined => <[k := v]> o
  | Some _ => o
  end.

(** The settings object after [_.defaults(options, {...})],
    [options.stripColors = true] and [delete options.channels]. *)
Definition clientOptions (options : IrcOpts) (nick : string) : IrcOpts :=
  let options := assignDefault "realName" (JStr nick) options in
  let options := assignDefault "userName" (JStr nick) options in
  let options := assignDefault "autoRejoin" (JBool true) options in
  let options := assignDefault "retryCount" (JNumber (Num 10%Z)) options in
  let options := assignDefault "debug" (JBool false) options in
  let options := assignDefault "retryDelay" (JNumber (Num 60000%Z)) options in
  delete "channels" (<["stripColors" := JBool true]> options).

(** [new SlingIrc(hostname, opts)].  [generated] is the nickname the
    shared name generator hands out if this call asks for one.  The left
    summand is the message of the error thrown. *)
Definition new (generated : string) (hostname : jsval) (opts : Opts)
    : string + SlingIrc :=
  let nick := match opts_nick opts with JStr n => n | _ => generated end in
  let channels := default [] (opts_channels opts) in
  let options := default ∅ (opts_ircOpts opts) in
  let options := clientOptions options nick in
  let commands := default [] (opts_commands opts) in
  match hostname with
  | JStr hostname =>
      match opts_onPackinfo opts with
      | CbOther => inl "onPackinfo must be a function"
      | onPackinfo =>
          let chans :=
            foldl (fun chans channel => map_set (chan_name channel) channel chans)
                  [] channels in
          inr {| irc_client := mkClient hostname nick options false;
                 irc_nick := nick;
                 irc_hostname := hostname;
                 irc_errors := [];
                 irc_motd := "";
                 irc_notices := [];
                 irc_commands := commands;
                 irc_status := "connecting";
                 irc_chans := chans;
                 irc_packCb := onPackinfo |}
      end
  | _ => inl "hostname must be a string"
  end.

(** [toJSON()] *)
Definition toJSON (p : SlingIrc) : Json :=
  {| json_hostname := JStr (irc_hostname p);
     json_nick := JUndefined;
     json_opts := Some {| jo_nick := JStr (irc_nick p);
                          jo_commands := Some (irc_commands p);
                          jo_onPackinfo := CbUndefined;
                          jo_ircOpts := Some (client_opt (irc_client p));
                          jo_channels := Some (map snd (irc_chans p)) |};
     json_errors := irc_errors p;
     json_motd := irc_motd p;
     json_notices := irc_notices p;
     json_status := JStr (irc_status p) |}.

Section FromJSON.

(** Modelled from the spec: [SlingChannel.fromJSON], which rebuilds one
    channel from its entry in the snapshot, is not in the sources. *)
Variable channelFromJSON : SlingChannel -> SlingChannel.

(** The options object [fromJSON] assembles before it calls the
    constructor.  The channels are put in front one by one
    ([unshift]), which reverses them. *)
Definition fromJSON_opts (json : Json) : Opts :=
  let nick := if isString (json_nick json) then json_nick json else JUndefined in
  match json_opts json with
  | Some o =>
      {| opts_nick := nick;
         opts_commands := jo_commands o;
         opts_onPackinfo :=
           if isFunction (jo_onPackinfo o) then jo_onPackinfo o else CbUndefined;
         opts_ircOpts := jo_ircOpts o;
         opts_channels :=
           match jo_channels o with
           | Some jChans =>
               Some (foldl (fun channels jChan => channelFromJSON jChan :: channels)
                           [] jChans)
           | None => None
           end |}
  | None =>
      {| opts_nick := nick; opts_commands := None; opts_onPackinfo := CbUndefined;
         opts_ircOpts := None; opts_channels := None |}
  end.

(** [SlingIrc.fromJSON(json)]; [None] is an argument that is no object. *)
Definition fromJSON (generated : string) (json : option Json) : string + SlingIrc :=
  match json with
  | None => inl "parameter is not type object"
  | Some json =>
      if isString (json_hostname json)
      then new generated (json_hostname json) (fromJSON_opts json)
      else inl "parameter json.hostname ist not a string"
  end.

End FromJSON.

End Session.

(** ** The download orchestrator ([SlingManager.js]): data *)

(** Signals accepted by a transfer handle. *)
Inductive signal : Type :=
| Start
| Cancel
| Kill.

#[global] Instance signal_eq_dec : EqDecision signal.
Proof. solve_decision. Defined.

(** Modelled from the spec: the transfer engine ([Axdcc]) is an external
    collaborator.  A handle is created in the [created] phase, reports a
    status and accumulates notices, and accepts the signals [start],
    [cancel] and [kill].  A signal is sent and forgotten: the engine answers
    with its own events in later turns of the event loop, never inside the
    call that sends the signal.  [ax_received] records the signals sent to
    the handle and [ax_id] names it in the trace of emitted signals. *)
Record Axdcc : Type := mkAxdcc {
  ax_id : nat;
  ax_status : string;
  ax_notices : list string;
  ax_received : list signal
}.

(** A download request: the pack record found in the document store, with
    the handle attached while it is queued and the notices attached when it
    finishes.  [pack_oid] is the identity of the JavaScript object, which is
    what the [finished] set compares. *)
Record Pack : Type := mkPack {
  pack_oid : nat;
  pack_id : string;
  pack_network : string;
  pack_bot : string;
  pack_name : string;
  pack_xdcc : option Axdcc;
  pack_notices : option (list string)
}.

(** [{irc, logger, xdcc}]: one entry of [networks].  The logger is known by
    the network it logs for. *)
Record Network : Type := mkNetwork {
  nw_irc : SlingIrc;
  nw_logger : string;
  nw_xdcc : gmap string (list Pack)
}.

(** Modelled from the spec: the configuration store ([SlingConfig], a
    key-value store persisted to disk) is not in the sources.  [get], [set]
    and [clear] work on the copy in memory and an explicit [save] writes it
    out. *)
Record Store (V : Type) : Type := mkStore {
  mem : gmap string V;
  disk : gmap string V
}.
Arguments mkStore {V}.
Arguments mem {V}.
Arguments disk {V}.

Module Config.
Section Ops.
Context {V : Type}.
Definition get (k : string) (c : Store V) : option V := mem c !! k.
Definition set (k : string) (v : V) (c : Store V) : Store V :=
  mkStore (<[k := v]> (mem c)) (disk c).
Definition clear (k : string) (c : Store V) : Store V :=
  mkStore (delete k (mem c)) (disk c).
Definition save (c : Store V) : Store V := mkStore (mem c) (mem c).
End Ops.
End Config.

(** An entry [{pack, name}] of a persisted pending-list. *)
Record DlEntry : Type := mkDlEntry {
  dl_pack : string;
  dl_name : string
}.

(** The persisted configuration [{hostname, opts}] of a network. *)
Record NwConfig : Type := mkNwConfig {
  cfg_hostname : jsval;
  cfg_opts : Opts
}.

(** Modelled from the spec: the document store ([SlingDB]) is not in the
    sources.  A lookup by id answers through a callback [(err, pack)], in a
    later turn of the event loop, with an error, with [null], or with a
    fresh copy of the stored pack-offer. *)
Record Doc : Type := mkDoc {
  doc_id : string;
  doc_network : string;
  doc_bot : string;
  doc_name : string
}.

(** The arguments [(err, pack)] of the lookup callback. *)
Inductive dbResult : Type :=
| DbError
| DbItem (pack : option Doc).

(** A value in an optional argument position that may hold the callback
    instead ([flush], [dontPersist]). *)
Inductive optarg : Type :=
| ArgUndefined
| ArgBool (b : bool)
| ArgFunction.

(** A call of [addDownload] whose document-store lookup has not answered
    yet.  The rest of the waterfall runs in a later turn of the event loop
    (the waterfall helper defers the hand-over even when a task calls back
    at once). *)
Record Task : Type := mkTask {
  task_id : string;
  task_dontPersist : bool;
  task_cb : callback
}.

(** The module state: the registry [networks], the set [finished], the
    two configuration stores, the setting [xdcc:checkFilename], the document
    store, the lookups that have not answered yet, the trace of the signals
    sent to transfer handles, the next unused object identity and the
    networks whose pack history was flushed. *)
Record State : Type := mkState {
  networks : gmap string Network;
  finished : list Pack;
  sc_nw : Store NwConfig;
  sc_dl : Store (list DlEntry);
  checkFilename : bool;
  db : string -> dbResult;
  pending : list Task;
  emitted : list (nat * signal);
  fresh : nat;
  flushed : list string
}.

(** Updates of one field of the state. *)
Definition set_networks (f : gmap string Network -> gmap string Network)
    (s : State) : State :=
  mkState (f (networks s)) (finished s) (sc_nw s) (sc_dl s) (checkFilename s) (db s)
          (pending s) (emitted s) (fresh s) (flushed s).

Definition set_finished (f : list Pack -> list Pack) (s : State) : State :=
  mkState (networks s) (f (finished s)) (sc_nw s) (sc_dl s) (checkFilename s) (db s)
          (pending s) (emitted s) (fresh s) (flushed s).

Definition set_sc_nw (f : Store NwConfig -> Store NwConfig) (s : State) : State :=
  mkState (networks s) (finished s) (f (sc_nw s)) (sc_dl s) (checkFilename s) (db s)
          (pending s) (emitted s) (fresh s) (flushed s).

Definition set_sc_dl (f : Store (list DlEntry) -> Store (list DlEntry))
    (s : State) : State :=
  mkState (networks s) (finished s) (sc_nw s) (f (sc_dl s)) (checkFilename s) (db s)
          (pending s) (emitted s) (fresh s) (flushed s).

Definition set_pending (f : list Task -> list Task) (s : State) : State :=
  mkState (networks s) (finished s) (sc_nw s) (sc_dl s) (checkFilename s) (db s)
          (f (pending s)) (emitted s) (fresh s) (flushed s).

Definition set_emitted (f : list (nat * signal) -> list (nat * signal))
    (s : State) : State :=
  mkState (networks s) (finished s) (sc_nw s) (sc_dl s) (checkFilename s) (db s)
          (pending s) (f (emitted s)) (fresh s) (flushed s).

Definition set_fresh (f : nat -> nat) (s : State) : State :=
  mkState (networks s) (finished s) (sc_nw s) (sc_dl s) (checkFilename s) (db s)
          (pending s) (emitted s) (f (fresh s)) (flushed s).

Definition set_flushed (f : list string -> list string) (s : State) : State :=
  mkState (networks s) (finished s) (sc_nw s) (sc_dl s) (checkFilename s) (db s)
          (pending s) (emitted s) (fresh s) (f (flushed s)).

(** ** The monad of handlers: state, and exceptions that keep the state *)

(** How a computation ends: it returns a value, or it throws; both leave a
    state. *)
Inductive Res (A : Type) : Type :=
| Ok (a : A) (s : State)
| Throw (e : string) (s : State).
Arguments Ok {A}.
Arguments Throw {A}.

Definition M (A : Type) : Type := State -> Res A.

#[global] Instance M_ret : MRet M := fun A a s => Ok a s.
#[global] Instance M_bind : MBind M := fun A B f m s =>
  match m s with
  | Ok a s' => f a s'
  | Throw e s' => Throw e s'
  end.

Definition get : M State := fun s => Ok s s.
Definition modify (f : State -> State) : M unit := fun s => Ok tt (f s).
Definition throw {A : Type} (e : string) : M A := fun s => Throw e s.

(** The state a computation leaves behind, however it ends. *)
Definition state_of {A : Type} (r : Res A) : State :=
  match r with
  | Ok _ s => s
  | Throw _ s => s
  end.

(** Reading a property of [undefined] raises a [TypeError]. *)
Definition TypeError : string := "TypeError".

Definition deref {A : Type} (o : option A) : M A :=
  match o with
  | Some a => mret a
  | None => throw TypeError
  end.

(** ** The download orchestrator: queues, signals and the pending-lists *)

(** Updates of one field of a network. *)
Definition set_xdcc (f : gmap string (list Pack) -> gmap string (list Pack))
    (nw : Network) : Network :=
  mkNetwork (nw_irc nw) (nw_logger nw) (f (nw_xdcc nw)).

Definition set_irc (f : SlingIrc -> SlingIrc) (nw : Network) : Network :=
  mkNetwork (f (nw_irc nw)) (nw_logger nw) (nw_xdcc nw).

(** [networks.get(network).xdcc[bot]] *)
Definition queue (network bot : string) (s : State) : option (list Pack) :=
  match networks s !! network with
  | Some nw => nw_xdcc nw !! bot
  | None => None
  end.

(** The array stored at [nw.xdcc[bot]] after an update in place
    ([Some q]), or the property deleted ([None]). *)
Definition put_queue (network bot : string) (q : option (list Pack)) (s : State) : State :=
  set_networks (alter (set_xdcc (partial_alter (fun _ => q) bot)) network) s.

(** The handle after it has been sent [sig]. *)
Definition receive (sig : signal) (x : Axdcc) : Axdcc :=
  mkAxdcc (ax_id x) (ax_status x) (ax_notices x) (ax_received x ++ [sig]).

(** [p.xdcc = x], with [None] for [delete p.xdcc], and [p.notices = n]. *)
Definition with_xdcc (x : option Axdcc) (p : Pack) : Pack :=
  mkPack (pack_oid p) (pack_id p) (pack_network p) (pack_bot p) (pack_name p)
         x (pack_notices p).

Definition with_notices (n : option (list string)) (p : Pack) : Pack :=
  mkPack (pack_oid p) (pack_id p) (pack_network p) (pack_bot p) (pack_name p)
         (pack_xdcc p) n.

(** [x.emit(sig)] on a handle that is no longer in a queue: only the trace
    of emitted signals sees it. *)
Definition emit (x : Axdcc) (sig : signal) : M unit :=
  modify (set_emitted (fun l => l ++ [(ax_id x, sig)])).

(** [nw.xdcc[bot][i].xdcc.emit(sig)]: the handle of the [i]-th queued
    request receives the signal.  The handle as it is afterwards is
    returned. *)
Definition emitAt (network bot : string) (i : nat) (sig : signal) : M Axdcc :=
  s ← get;
  xdcc ← deref (queue network bot s);
  p ← deref (xdcc !! i);
  x ← deref (pack_xdcc p);
  modify (put_queue network bot
            (Some (<[i := with_xdcc (Some (receive sig x)) p]> xdcc)));;
  emit x sig;;
  mret (receive sig x).

(** The key [`${network}:${bot}`] of a pending-list. *)
Definition dlKey (network bot : string) : string := network +:+ ":" +:+ bot.

(** [settingsArr = sc.dl.get(key) || []; settingsArr.shift();
    sc.dl.set(key, settingsArr); sc.dl.save()] *)
Definition persistShift (network bot : string) : M unit :=
  modify (set_sc_dl (fun dl =>
    let settingsArr := default [] (Config.get (dlKey network bot) dl) in
    Config.save (Config.set (dlKey network bot) (tail settingsArr) dl))).

(** [settingsArr = sc.dl.get(key) || []; settingsArr.push(e);
    sc.dl.set(key, settingsArr); sc.dl.save()] *)
Definition persistPush (network bot : string) (e : DlEntry) : M unit :=
  modify (set_sc_dl (fun dl =>
    let settingsArr := default [] (Config.get (dlKey network bot) dl) in
    Config.save (Config.set (dlKey network bot) (settingsArr ++ [e]) dl))).

(** The advancement step shared, line for line, by the three terminal
    handlers: [if (xdcc.length >= 1) xdcc[0].xdcc.emit("start"); else
    delete nw.xdcc[bot]], with [xdcc] the array after the [shift]. *)
Definition advance (network bot : string) (xdcc : list Pack) : M unit :=
  match xdcc with
  | _ :: _ => emitAt network bot 0 Start;; mret tt
  | [] => modify (put_queue network bot None)
  end.

(** [finished.add(request)]: a [Set] compares objects by identity; an
    object that is already a member stays where it is, seen with its
    current fields. *)
Definition Set_add (request : Pack) (set : list Pack) : list Pack :=
  if existsb (fun p => Nat.eqb (pack_oid p) (pack_oid request)) set
  then map (fun p => if Nat.eqb (pack_oid p) (pack_oid request) then request else p) set
  else set ++ [request].

(** ** The event handlers of the transfer engine *)

(** [handle.xdccConnect(dbpack, pack)]; [fileName] is [pack.fileName]. *)
Definition xdccConnect (dbpack : Pack) (fileName : string) : M unit :=
  s ← get;
  nw ← deref (networks s !! pack_network dbpack);
  if checkFilename s && negb (String.eqb fileName (pack_name dbpack))
  then emitAt (pack_network dbpack) (pack_bot dbpack) 0 Cancel;; mret tt
  else mret tt.

(** [handle.xdccProgress(dbpack, pack)]; [status] is [pack.status]. *)
Definition xdccProgress (dbpack : Pack) (status : string) : M unit :=
  s ← get;
  nw ← deref (networks s !! pack_network dbpack);
  if String.eqb status "canceled"
  then
    xdcc ← deref (nw_xdcc nw !! pack_bot dbpack);
    modify (put_queue (pack_network dbpack) (pack_bot dbpack) (Some (tail xdcc)));;
    advance (pack_network dbpack) (pack_bot dbpack) (tail xdcc);;
    persistShift (pack_network dbpack) (pack_bot dbpack)
  else mret tt.

(** [handle.xdccMessage] only writes to the log. *)
Definition xdccMessage (dbpack : Pack) (message : string) : M unit := mret tt.

(** [handle.xdccComplete(dbpack, pack)] *)
Definition xdccComplete (dbpack : Pack) : M unit :=
  s ← get;
  nw ← deref (networks s !! pack_network dbpack);
  xdcc ← deref (nw_xdcc nw !! pack_bot dbpack);
  modify (put_queue (pack_network dbpack) (pack_bot dbpack) (Some (tail xdcc)));;
  request ← deref (head xdcc);
  x ← deref (pack_xdcc request);
  modify (set_finished
            (Set_add (with_xdcc None (with_notices (Some (ax_notices x)) request))));;
  advance (pack_network dbpack) (pack_bot dbpack) (tail xdcc);;
  persistShift (pack_network dbpack) (pack_bot dbpack).

(** [this.addDownload(id, dontPersist, cb)] up to the lookup in the
    document store: the arguments are normalised and the rest of the
    waterfall waits for the answer. *)
Definition addDownload (id : string) (dontPersist : optarg) (cb : callback) : M unit :=
  let cb :=
    match dontPersist, cb with
    | ArgFunction, CbUndefined => CbFunction
    | _, _ => cb
    end in
  let dontPersist := match dontPersist with ArgBool b => b | _ => false end in
  modify (set_pending (fun l => l ++ [mkTask id dontPersist cb])).

(** [handle.xdccError(dbpack, pack, error)] *)
Definition xdccError (dbpack : Pack) : M unit :=
  s ← get;
  nw ← deref (networks s !! pack_network dbpack);
  xdcc ← deref (nw_xdcc nw !! pack_bot dbpack);
  modify (put_queue (pack_network dbpack) (pack_bot dbpack) (Some (tail xdcc)));;
  request ← deref (head xdcc);
  x ← deref (pack_xdcc request);
  emit x Kill;;
  addDownload (pack_id request) ArgUndefined CbUndefined;;
  advance (pack_network dbpack) (pack_bot dbpack) (tail xdcc);;
  persistShift (pack_network dbpack) (pack_bot dbpack).

(** ** The methods of the orchestrator *)

(** The call made to an optional callback [(err, result)]. *)
Inductive cbCall : Type :=
| NoCall
| CallError (err : jsval)
| CallResult (pack : Pack).

Definition call (cb : callback) (c : cbCall) : cbCall :=
  if isFunction cb then c else NoCall.

(** The final callback of the waterfall, reached with an error: a missing
    callback has been replaced by a no-op, anything else is called. *)
Definition finish (cb : callback) (err : jsval) : M cbCall :=
  match cb with
  | CbFunction => mret (CallError err)
  | CbUndefined => mret NoCall
  | CbOther => throw TypeError
  end.

(** [cb(args)] for a callback that is called unconditionally: calling what
    is no function raises a [TypeError]. *)
Definition hand {A : Type} (cb : callback) (args : A) : M A :=
  if isFunction cb then mret args else throw TypeError.

(** [_.findIndex(xdcc, p => p.id == id) != -1] *)
Definition queued (id : string) (xdcc : list Pack) : bool :=
  existsb (fun p => String.eqb (pack_id p) id) xdcc.

(** [_.findIndex(xdcc, p => p.id == id)], [None] for [-1] *)
Fixpoint findIndex (id : string) (xdcc : list Pack) : option nat :=
  match xdcc with
  | [] => None
  | p :: rest =>
      if String.eqb (pack_id p) id then Some 0
      else match findIndex id rest with
           | Some i => Some (S i)
           | None => None
           end
  end.

(** [_.remove(xdcc, p => p.id == id)]: what is left in the array *)
Definition remove (id : string) (xdcc : list Pack) : list Pack :=
  List.filter (fun p => negb (String.eqb (pack_id p) id)) xdcc.

(** The rest of [addDownload]: the waterfall once the document store has
    answered the lookup of [task_id t].  The pack delivered is a new
    object with a new transfer handle; both are named by [fresh]. *)
Definition addDownload_continue (t : Task) : M cbCall :=
  s ← get;
  match db s (task_id t) with
  | DbError => finish (task_cb t) (JBool true)
  | DbItem None => finish (task_cb t) (JStr "Pack not found")
  | DbItem (Some pack) =>
      match networks s !! doc_network pack with
      | None => finish (task_cb t) (JStr "Pack not found")
      | Some nw =>
          let xdcc := default [] (nw_xdcc nw !! doc_bot pack) in
          modify (put_queue (doc_network pack) (doc_bot pack) (Some xdcc));;
          if queued (doc_id pack) xdcc
          then finish (task_cb t) (JBool true)
          else
            let x := mkAxdcc (fresh s) "created" [] [] in
            let p := mkPack (fresh s) (doc_id pack) (doc_network pack) (doc_bot pack)
                            (doc_name pack) (Some x) None in
            modify (set_fresh S);;
            modify (put_queue (doc_network pack) (doc_bot pack) (Some (xdcc ++ [p])));;
            x ← (if Nat.eqb (length (xdcc ++ [p])) 1
                 then emitAt (doc_network pack) (doc_bot pack) (length xdcc) Start
                 else mret x);
            (if task_dontPersist t then mret tt
             else persistPush (doc_network pack) (doc_bot pack)
                              (mkDlEntry (doc_id pack) (doc_name pack)));;
            mret (call (task_cb t) (CallResult (with_xdcc (Some x) p)))
      end
  end.

(** One turn of the event loop in which the oldest outstanding lookup
    answers. *)
Definition dbCallback : M cbCall :=
  s ← get;
  match pending s with
  | [] => mret NoCall
  | t :: rest => modify (set_pending (fun _ => rest));; addDownload_continue t
  end.

(** [cancelDownload(network, bot, id, cb)]; the result is the argument
    list handed to [cb]: an error message, or [null] and the handle. *)
Definition cancelDownload (network bot id : string) (cb : callback)
    : M (string + Axdcc) :=
  s ← get;
  match networks s !! network with
  | Some nw =>
      match nw_xdcc nw !! bot with
      | None | Some [] => hand cb (inl "No download pending from bot")
      | Some xdccs =>
          match findIndex id xdccs with
          | None => hand cb (inl "Pack not found")
          | Some i =>
              p ← deref (xdccs !! i);
              cnXdcc ← deref (pack_xdcc p);
              cnXdcc ← (if negb (String.eqb (ax_status cnXdcc) "created")
                        then emitAt network bot i Cancel
                        else emitAt network bot i Kill);
              s ← get;
              modify (put_queue network bot
                        (option_map (remove id) (queue network bot s)));;
              hand cb (inr cnXdcc)
          end
      end
  | None => hand cb (inl "Network not found")
  end.

(** The nickname a new session gets. *)
Definition nickname (generated : string) (opts : Opts) : string :=
  match opts_nick opts with JStr n => n | _ => generated end.

(** [addNetwork(network, hostname, opts)].  [opts = None] is a call without
    an options object.  [_.clone] is shallow, so the settings object
    [opts.ircOpts] is shared with the clone and the constructor's defaults
    end up in the caller's object, which is the one persisted. *)
Definition addNetwork (generated : string) (network hostname : jsval)
    (opts : option Opts) : M SlingIrc :=
  s ← get;
  match network with
  | JStr network =>
      if bool_decide (is_Some (networks s !! network))
      then throw "network name not unique"
      else
        opts ← deref opts;
        let options := mkOpts (opts_nick opts) (opts_channels opts) (opts_ircOpts opts)
                              (opts_commands opts) CbFunction in
        match Session.new generated hostname options with
        | inl e => throw e
        | inr irc =>
            let opts := mkOpts (opts_nick opts) (opts_channels opts)
                          (option_map (fun o => Session.clientOptions o (nickname generated opts))
                                      (opts_ircOpts opts))
                          (opts_commands opts) (opts_onPackinfo opts) in
            modify (set_networks (insert network (mkNetwork irc network ∅)));;
            modify (set_sc_nw (fun nw =>
              Config.save (Config.set network (mkNwConfig hostname opts) nw)));;
            mret irc
        end
  | _ => throw "network must a string"
  end.

(** [getNetwork(network)] *)
Definition getNetwork (network : string) : M Network :=
  s ← get;
  match networks s !! network with
  | Some nw => mret nw
  | None => throw "unknown network"
  end.

(** [irc.client.disconnect(...)] *)
Definition disconnect (irc : SlingIrc) : SlingIrc :=
  let c := irc_client irc in
  mkIrc (mkClient (client_server c) (client_nick c) (client_opt c) true)
        (irc_nick irc) (irc_hostname irc) (irc_errors irc) (irc_motd irc)
        (irc_notices irc) (irc_commands irc) (irc_status irc) (irc_chans irc)
        (irc_packCb irc).

(** [removeNetwork(network, flush, cb)] up to the start of the two parallel
    tasks: the guards, the argument shuffle, the disconnect command and
    the flush of the pack history if asked for. *)
Definition removeNetwork (network : string) (flush : optarg) (cb : callback) : M unit :=
  s ← get;
  match networks s !! network with
  | None => throw "unknown network"
  | Some nw =>
      if Nat.ltb 0 (size (nw_xdcc nw))
      then throw "downloads pending"
      else
        let flush :=
          match flush, cb with
          | ArgFunction, CbUndefined => false
          | ArgFunction, _ => true
          | ArgBool b, _ => b
          | ArgUndefined, _ => false
          end in
        modify (set_networks (alter (set_irc disconnect) network));;
        if flush then modify (set_flushed (fun l => l ++ [network])) else mret tt
  end.

(** The final callback of the two parallel tasks: [if (!err) {
    networks.delete(network); sc.nw.clear(network); sc.nw.save() }
    cb(err, result)], with [cb] the callback after the argument shuffle. *)
Definition removeNetwork_done (network : string) (err : bool) (cb : callback)
    : M unit :=
  (if err then mret tt
   else
     modify (set_networks (delete network));;
     modify (set_sc_nw (fun nw => Config.save (Config.clear network nw))));;
  hand cb tt.

(** ** The environment: transfer engine, sessions, stores *)

(** A handle is active once it has received the start signal. *)
Definition started (x : Axdcc) : bool := bool_decide (Start ∈ ax_received x).

(** A request is active while it carries a started handle. *)
Definition active (p : Pack) : bool :=
  match pack_xdcc p with
  | Some x => started x
  | None => false
  end.

(** Modelled from the spec: the transfer engine leaves the initial
    [created] phase of a handle, and gathers notices for it, only once the
    handle has been started. *)
Definition report (status : string) (notices : list string) (x : Axdcc) : Axdcc :=
  if started x then mkAxdcc (ax_id x) status notices (ax_received x) else x.

(** The engine reports on the handle of the [i]-th request of a queue. *)
Definition engineReport (network bot : string) (i : nat) (status : string)
    (notices : list string) (s : State) : State :=
  match queue network bot s with
  | Some q =>
      match q !! i with
      | Some p =>
          put_queue network bot
            (Some (<[i := with_xdcc (report status notices <$> pack_xdcc p) p]> q)) s
      | None => s
      end
  | None => s
  end.

(** Everything that can happen between two observation points: a call of
    a public method, the delivery of one event to its handler, or a change
    made by a collaborator.  An event of the transfer engine may arrive for
    any pack, queued or not.  [SessionEvent] stands for the handlers of the
    protocol client, which touch the session only, and [ChannelChange] for
    [addChannel] and [removeChannel], which touch the session and the
    persisted network configuration. *)
Inductive action : Type :=
| AddNetwork (generated : string) (network hostname : jsval) (opts : option Opts)
| RemoveNetwork (network : string) (flush : optarg) (cb : callback)
| RemoveNetworkDone (network : string) (err : bool) (cb : callback)
| AddDownload (id : string) (dontPersist : optarg) (cb : callback)
| DbCallback
| CancelDownload (network bot id : string) (cb : callback)
| XdccConnect (dbpack : Pack) (fileName : string)
| XdccProgress (dbpack : Pack) (status : string)
| XdccMessage (dbpack : Pack) (message : string)
| XdccComplete (dbpack : Pack)
| XdccError (dbpack : Pack)
| EngineReport (network bot : string) (i : nat) (status : string) (notices : list string)
| SessionEvent (network : string) (f : SlingIrc -> SlingIrc)
| ChannelChange (network : string) (f : SlingIrc -> SlingIrc)
    (g : Store NwConfig -> Store NwConfig)
| DbChange (db' : string -> dbResult)
| SettingsChange (checkFilename' : bool).

(** The state after an action, whether its handler returned or threw. *)
Definition run (a : action) (s : State) : State :=
  match a with
  | AddNetwork generated network hostname opts =>
      state_of (addNetwork generated network hostname opts s)
  | RemoveNetwork network flush cb => state_of (removeNetwork network flush cb s)
  | RemoveNetworkDone network err cb =>
      state_of (removeNetwork_done network err cb s)
  | AddDownload id dontPersist cb => state_of (addDownload id dontPersist cb s)
  | DbCallback => state_of (dbCallback s)
  | CancelDownload network bot id cb =>
      state_of (cancelDownload network bot id cb s)
  | XdccConnect dbpack fileName => state_of (xdccConnect dbpack fileName s)
  | XdccProgress dbpack status => state_of (xdccProgress dbpack status s)
  | XdccMessage dbpack message => state_of (xdccMessage dbpack message s)
  | XdccComplete dbpack => state_of (xdccComplete dbpack s)
  | XdccError dbpack => state_of (xdccError dbpack s)
  | EngineReport network bot i status notices =>
      engineReport network bot i status notices s
  | SessionEvent network f => set_networks (alter (set_irc f) network) s
  | ChannelChange network f g =>
      set_sc_nw g (set_networks (alter (set_irc f) network) s)
  | DbChange db' =>
      mkState (networks s) (finished s) (sc_nw s) (sc_dl s) (checkFilename s) db'
              (pending s) (emitted s) (fresh s) (flushed s)
  | SettingsChange b =>
      mkState (networks s) (finished s) (sc_nw s) (sc_dl s) b (db s)
              (pending s) (emitted s) (fresh s) (flushed s)
  end.

(** The module right after it is loaded and booted: networks may be
    registered, no request is queued or finished yet (the downloads that
    boot re-submits are still waiting for the document store). *)
Definition initial (s : State) : Prop :=
  finished s = [] /\
  forall network nw, networks s !! network = Some nw -> nw_xdcc nw = ∅.

(** The states in which the orchestrator can be observed. *)
Inductive reachable : State -> Prop :=
| reachable_initial s : initial s -> reachable s
| reachable_step a s : reachable s -> reachable (run a s).

(** ** Well-formed queues *)

(** In a queue the ids are pairwise distinct, every request carries a
    handle, no request behind the head has been started, and a handle that
    has not been started is still in the [created] phase. *)
Record queue_ok (q : list Pack) : Prop := mkQueueOk {
  qk_ids : NoDup (map pack_id q);
  qk_handles : Forall (fun p => is_Some (pack_xdcc p)) q;
  qk_idle : Forall (fun p => active p = false) (tail q);
  qk_created :
    Forall (fun p => forall x, pack_xdcc p = Some x ->
                     started x = false -> ax_status x = "created") q
}.

(** The invariant: the finished set holds every object once and every
    queue is well formed. *)
Definition Inv (s : State) : Prop :=
  NoDup (map pack_oid (finished s)) /\
  forall network bot q, queue network bot s = Some q -> queue_ok q.

(** ** Auxiliary notions for the statements *)

(** A computation keeps an invariant if it does so however it ends. *)
Definition pres {A : Type} (I : State -> Prop) (m : M A) : Prop :=
  forall s, I s -> I (state_of (m s)).

(** [q] is the object [p]. *)
Definition same_object (p q : Pack) : bool := Nat.eqb (pack_oid q) (pack_oid p).

(** The pending-list of a (network, bot) pair as the configuration store
    holds it in memory: [sc.dl.get(key) || []]. *)
Definition pendingList (network bot : string) (s : State) : list DlEntry :=
  default [] (Config.get (dlKey network bot) (sc_dl s)).

(** Every pack object delivered by the document store is new: the objects
    in the queues and in the finished set are pairwise distinct. *)
Record Ident (s : State) : Prop := mkIdent {
  id_finished : Forall (fun p => pack_oid p < fresh s) (finished s);
  id_queued : forall n b q, queue n b s = Some q ->
    Forall (fun p => pack_oid p < fresh s /\
                     pack_oid p ∉ map pack_oid (finished s)) q;
  id_nodup : forall n b q, queue n b s = Some q -> NoDup (map pack_oid q);
  id_disjoint : forall n b q n' b' q',
    queue n b s = Some q -> queue n' b' s = Some q' -> (n, b) ≠ (n', b') ->
    forall p p', p ∈ q -> p' ∈ q' -> pack_oid p ≠ pack_oid p'
}.

(** A state whose queues are queues of [s], with the same finished set. *)
Definition shrinks (s s' : State) : Prop :=
  finished s' = finished s /\ fresh s <= fresh s' /\
  forall n b q, queue n b s' = Some q -> queue n b s = Some q.

(** The entry [{pack: pack.id, name: pack.name}] persisted for a request. *)
Definition entry (p : Pack) : DlEntry := mkDlEntry (pack_id p) (pack_name p).

(** The pending-list of a (network, bot) pair lists the queued requests of
    that pair, in order, and is saved. *)
Definition mirrors (network bot : string) (s : State) : Prop :=
  pendingList network bot s = map entry (default [] (queue network bot s)) /\
  disk (sc_dl s) !! dlKey network bot = Some (pendingList network bot s).

(** The signal [cancelDownload] picks for a handle. *)
Definition cancelSignal (x : Axdcc) : signal :=
  if negb (String.eqb (ax_status x) "created") then Cancel else Kill.

(** The options object as the constructor leaves it: the settings object
    it shares with the caller has received the defaults. *)
Definition persisted_opts (generated : string) (opts : Opts) : Opts :=
  mkOpts (opts_nick opts) (opts_channels opts)
         (option_map (fun o => Session.clientOptions o (nickname generated opts))
                     (opts_ircOpts opts))
         (opts_commands opts) (opts_onPackinfo opts).


(** The channels of a session are filed under their names. *)
Definition chans_wf (p : SlingIrc) : Prop :=
  NoDup (map fst (irc_chans p)) /\
  Forall (fun kc => fst kc = chan_name (snd kc)) (irc_chans p).

(** ** Concrete runs *)

Module Scenario.

(** A document store that files two pack-offers of bot [bot] on network
    [net] under their ids. *)
Definition store (id : string) : dbResult :=
  if String.eqb id "a" then DbItem (Some (mkDoc "a" "net" "bot" "a.bin"))
  else if String.eqb id "b" then DbItem (Some (mkDoc "b" "net" "bot" "b.bin"))
  else DbItem None.


(** Options that only name the nickname. *)
Definition options : Opts := mkOpts (JStr "me") None None None CbUndefined.

(** The module before anything is registered, over a document store. *)
Definition empty (db : string -> dbResult) : State :=
  mkState ∅ [] (mkStore ∅ ∅) (mkStore ∅ ∅) false db [] [] 0 [].

(** A sequence of actions, one after the other. *)
Definition perform (s : State) (l : list action) : State :=
  foldl (fun s a => run a s) s l.

(** Network [net] is registered. *)
Definition register : action :=
  AddNetwork "nomi" (JStr "net") (JStr "irc.example.org") (Some options).

(** Network [net] with the queue [a, b] of bot [bot]; [a] is started. *)
Definition loaded : State :=
  perform (empty store)
    [register; AddDownload "a" ArgUndefined CbUndefined;
     AddDownload "b" ArgUndefined CbUndefined; DbCallback; DbCallback].

(** Network [net] with the queue [a] of bot [bot]. *)
Definition single : State :=
  perform (empty store)
    [register; AddDownload "a" ArgUndefined CbUndefined; DbCallback].


(** The requests as they sit in the queues above. *)
Definition pack_a : Pack :=
  mkPack 0 "a" "net" "bot" "a.bin" (Some (mkAxdcc 0 "created" [] [Start])) None.

Definition pack_b : Pack :=
  mkPack 1 "b" "net" "bot" "b.bin" (Some (mkAxdcc 1 "created" [] [])) None.


(** A channel whose announcements carry a pack number, a size with its
    unit and a file name. *)
Definition channel : SlingChannel :=
  mkChannel "#packs" None "#(\d+) +(\d+)([KMGT]) +(\S+)"
            ["id"; "size"; "sizeUnit"; "fileName"] "" "joined" true.

(** The match of the pattern against the line [#7 100K file.bin]. *)
Definition announced (text regex : string) : option (list (option string)) :=
  Some [Some "#7 100K file.bin"; Some "7"; Some "100"; Some "K"; Some "file.bin"].

(** A connected session with the nickname [alice]. *)
Definition alice : SlingIrc :=
  mkIrc (mkClient "irc.example.org" "alice" ∅ false) "alice" "irc.example.org"
        [] "" [] ["/msg nickserv identify secret"] "connected"
        [("#packs", channel)] CbFunction.

End Scenario.

(** ** The orchestrator: restoring the saved state and the snapshot *)

(** A [for] loop over the elements of an array or the properties of an
    object, in the order of enumeration. *)
Fixpoint forEach {A : Type} (l : list A) (body : A -> M unit) : M unit :=
  match l with
  | [] => mret tt
  | a :: l' => body a;; forEach l' body
  end.

(** The id [`${key}:${bot}:${dl.pack}`] under which [boot] asks for a
    persisted download. *)
Definition bootId (key bot : string) (dl : DlEntry) : string :=
  key +:+ ":" +:+ bot +:+ ":" +:+ dl_pack dl.

(** The object [boot] hands to [SlingIrc.fromJSON]: the persisted
    configuration [{hostname, opts}] of a network, after [boot] has put
    the function that files pack offers into [nw.opts.onPackinfo].  It has
    no property [nick] of its own, nor any of the other properties of a
    session snapshot. *)
Definition bootJson (nw : NwConfig) : Json :=
  {| json_hostname := cfg_hostname nw;
     json_nick := JUndefined;
     json_opts := Some {| jo_nick := opts_nick (cfg_opts nw);
                          jo_commands := opts_commands (cfg_opts nw);
                          jo_onPackinfo := CbFunction;
                          jo_ircOpts := opts_ircOpts (cfg_opts nw);
                          jo_channels := opts_channels (cfg_opts nw) |};
     json_errors := [];
     json_motd := "";
     json_notices := [];
     json_status := JUndefined |}.

Section Boot.

(** [SlingChannel.fromJSON], and the nickname the shared name generator
    hands out while the session of network [key] is rebuilt. *)
Variable channelFromJSON : SlingChannel -> SlingChannel.
Variable generate : string -> string.

(** [jDownloads[key]], if it is an object: its properties in the order of
    enumeration, each with its value if that is an array. *)
Variable jDownloads : string -> option (list (string * option (list DlEntry))).

(** The inner loops of [boot]: every entry of every non-empty array is
    submitted again, with persistence suppressed. *)
Definition bootDownloads (key : string) : M unit :=
  match jDownloads key with
  | Some bots =>
      forEach bots (fun entry =>
        match snd entry with
        | Some (dl :: dls) =>
            forEach (dl :: dls) (fun dl =>
              addDownload (bootId key (fst entry) dl) (ArgBool true) CbUndefined)
        | _ => mret tt
        end)
  | None => mret tt
  end.

(** The body of the outer loop of [boot], for the property [key] of
    [jNetwork] with the value [nw]. *)
Definition bootNetwork (entry : string * NwConfig) : M unit :=
  let key := fst entry in
  match Session.fromJSON channelFromJSON (generate key) (Some (bootJson (snd entry))) with
  | inl e => throw e
  | inr irc =>
      modify (set_networks (insert key (mkNetwork irc key ∅)));;
      bootDownloads key
  end.

(** [boot()]; [jNetwork] lists the properties of the object [sc.nw.get()
    || {}] in the order of enumeration. *)
Definition boot (jNetwork : list (string * NwConfig)) : M unit :=
  forEach jNetwork bootNetwork.

End Boot.

(** The tasks [boot] leaves for the document store: one for every entry of
    every persisted pending-list of the network. *)
Definition bootTasks (key : string)
    (bots : option (list (string * option (list DlEntry)))) : list Task :=
  flat_map (fun entry =>
              map (fun dl => mkTask (bootId key (fst entry) dl) true CbUndefined)
                  (default [] (snd entry)))
           (default [] bots).

(** A state that differs from [s] in the registry and in the outstanding
    lookups at most. *)
Definition bootFrame (s s' : State) : Prop :=
  finished s' = finished s /\ sc_nw s' = sc_nw s /\ sc_dl s' = sc_dl s /\
  checkFilename s' = checkFilename s /\ db s' = db s /\ emitted s' = emitted s /\
  fresh s' = fresh s /\ flushed s' = flushed s.

(** [String([key, nw])], the name of the property an array [[key, nw]]
    stands for: the elements joined by a comma, a plain object reading
    [[object Object]]. *)
Definition pairToString (entry : string * Network) : string :=
  fst entry +:+ ",[object Object]".

(** [_.zipObject(props, values)] of lodash 4, the version the package
    asks for: the property [props[index]] gets the value [values[index]],
    which is [undefined] ([None]) past the end of [values]. *)
Fixpoint baseZipObject {V : Type} (props : list string) (values : list V)
    (index : nat) (result : gmap string (option V)) : gmap string (option V) :=
  match props with
  | [] => result
  | key :: props' =>
      baseZipObject props' values (S index) (<[key := values !! index]> result)
  end.

Definition zipObject {V : Type} (props : list string) (values : list V)
    : gmap string (option V) :=
  baseZipObject props values 0 ∅.

(** The plain object produced by [toJSON()] of the orchestrator. *)
Record Snapshot : Type := mkSnapshot {
  snap_networks : gmap string (option Network);
  snap_finished : list Pack
}.

(** [toJSON()]: [_.zipObject] is handed the array of the [[key, value]]
    pairs of [networks] as its only argument. *)
Definition toJSON (s : State) : Snapshot :=
  {| snap_networks := zipObject (map pairToString (map_to_list (networks s))) [];
     snap_finished := finished s |}.

(** ** The session: what [_.defaults] supplies *)

(** The value the constructor supplies for a setting the caller has left
    out or left [undefined]. *)
Definition defaultOption (nick : string) (k : string) : option jsval :=
  if String.eqb k "realName" then Some (JStr nick)
  else if String.eqb k "userName" then Some (JStr nick)
  else if String.eqb k "autoRejoin" then Some (JBool true)
  else if String.eqb k "retryCount" then Some (JNumber (Num 10%Z))
  else if String.eqb k "debug" then Some (JBool false)
  else if String.eqb k "retryDelay" then Some (JNumber (Num 60000%Z))
  else None.

(** ** The session at work ([SlingIrc.js]): methods and event handlers *)

(** The operations of an ES6 [Map] with string keys, on the list of its
    entries in insertion order ([set] is [Session.map_set]). *)
Module JsMap.

Definition get {V : Type} (k : string) (m : list (string * V)) : option V :=
  match List.find (fun kv => String.eqb (fst kv) k) m with
  | Some kv => Some (snd kv)
  | None => None
  end.

Definition delete {V : Type} (k : string) (m : list (string * V)) : list (string * V) :=
  List.filter (fun kv => negb (String.eqb (fst kv) k)) m.

(** An assignment to a field of the object filed under [k]. *)
Definition update {V : Type} (k : string) (f : V -> V) (m : list (string * V))
    : list (string * V) :=
  map (fun kv => if String.eqb (fst kv) k then (fst kv, f (snd kv)) else kv) m.

End JsMap.

(** Modelled from the spec: the protocol client is an external
    collaborator.  The session sends it raw commands, asks it to join and
    to part channels, and registers and removes listeners for its events;
    these calls are recorded in the order in which they are made.  A
    listener is recorded with the channel object it is bound to. *)
Inductive clientCall : Type :=
| ClientSend (command : string)
| ClientJoin (c : string)
| ClientPart (channel : string)
| ClientOn (event : string) (channel : SlingChannel)
| ClientRemoveAllListeners (event : string).

(** A session with the calls it has made to its client; with the runs of
    [async.series] started by [addChannel] that wait for the callback of a
    part: the name of the channel that is parted, and the channel that is
    joined after it; and with the runs of [async.eachSeries] started by
    the handler of the registered event that wait for their timer: the
    commands that are still to be sent. *)
Record Wire : Type := mkWire {
  wire_privates : SlingIrc;
  wire_calls : list clientCall;
  wire_parting : list (string * SlingChannel);
  wire_timers : list (list string)
}.

(** Updates of one field. *)
Definition set_privates (f : SlingIrc -> SlingIrc) (w : Wire) : Wire :=
  mkWire (f (wire_privates w)) (wire_calls w) (wire_parting w) (wire_timers w).

Definition set_chans (f : list (string * SlingChannel) -> list (string * SlingChannel))
    (w : Wire) : Wire :=
  set_privates (fun p =>
    mkIrc (irc_client p) (irc_nick p) (irc_hostname p) (irc_errors p) (irc_motd p)
          (irc_notices p) (irc_commands p) (irc_status p) (f (irc_chans p))
          (irc_packCb p)) w.

Definition call_client (c : clientCall) (w : Wire) : Wire :=
  mkWire (wire_privates w) (wire_calls w ++ [c]) (wire_parting w) (wire_timers w).

Definition set_parting (f : list (string * SlingChannel) -> list (string * SlingChannel))
    (w : Wire) : Wire :=
  mkWire (wire_privates w) (wire_calls w) (f (wire_parting w)) (wire_timers w).

Definition set_timers (f : list (list string) -> list (list string)) (w : Wire) : Wire :=
  mkWire (wire_privates w) (wire_calls w) (wire_parting w) (f (wire_timers w)).

Definition with_status (status : string) (c : SlingChannel) : SlingChannel :=
  mkChannel (chan_name c) (chan_password c) (chan_regex c) (chan_groupOrder c)
            (chan_topic c) status (chan_observed c).

(** The channels of a session. *)
Definition chans (w : Wire) : list (string * SlingChannel) :=
  irc_chans (wire_privates w).

(** The methods of the class. *)
Module Irc.

(** The argument [c] of [client.join]: the name of the channel, followed by
    a blank and the password if there is one. *)
Definition joinTarget (channel : SlingChannel) : string :=
  chan_name channel +:+
  match chan_password channel with
  | None => ""
  | Some password => " " +:+ password
  end.

(** [join(channel, cb)] *)
Definition join (channel : SlingChannel) (w : Wire) : Wire :=
  let w := set_chans (Session.map_set (chan_name channel) channel) w in
  call_client (ClientJoin (joinTarget channel)) w.

(** [part(channel, cb)] *)
Definition part (channel : SlingChannel) (w : Wire) : Wire :=
  call_client (ClientPart (chan_name channel)) w.

(** [observe(channel)] *)
Definition observe (channel : SlingChannel) (w : Wire) : Wire :=
  call_client (ClientOn ("message" +:+ chan_name channel) channel) w.

(** [addChannel(channel, cb)]: a new channel is joined at once; for a name
    that is taken, the series parts the old channel and waits. *)
Definition addChannel (channel : SlingChannel) (w : Wire) : Wire :=
  match JsMap.get (chan_name channel) (chans w) with
  | None => join channel (set_chans (Session.map_set (chan_name channel) channel) w)
  | Some oldchan =>
      set_parting (fun l => l ++ [(chan_name oldchan, channel)]) (part oldchan w)
  end.

(** The client calls the callback it was handed with the part of the
    channel [name]: the oldest series that waits for it goes on with its
    second task, the join. *)
Fixpoint resume (name : string) (waiting : list (string * SlingChannel))
    : option (SlingChannel * list (string * SlingChannel)) :=
  match waiting with
  | [] => None
  | (n, channel) :: rest =>
      if String.eqb n name then Some (channel, rest)
      else match resume name rest with
           | Some (c, rest') => Some (c, (n, channel) :: rest')
           | None => None
           end
  end.

Definition partCallback (name : string) (w : Wire) : Wire :=
  match resume name (wire_parting w) with
  | Some (channel, rest) => join channel (set_parting (fun _ => rest) w)
  | None => w
  end.

(** [removeChannel(channel, cb)]; the left summand is the message of the
    error thrown. *)
Definition removeChannel (channel : SlingChannel) (w : Wire) : string + Wire :=
  match JsMap.get (chan_name channel) (chans w) with
  | None => inl "channel don't exists"
  | Some chan => inr (part chan w)
  end.

End Irc.

(** The handlers of the events of the protocol client.  Where one of them
    raises a [TypeError], it raises it before it has changed anything; the
    left summand is the error. *)
Module Handle.

(** [nick == privates.nick] *)
Definition own (nick : string) (w : Wire) : bool :=
  String.eqb nick (irc_nick (wire_privates w)).

(** [handle.join(channel, nick)] *)
Definition join (channel nick : string) (w : Wire) : string + Wire :=
  if own nick w then
    let channel := JsString.toLowerCase channel in
    match JsMap.get channel (chans w) with
    | None => inl TypeError
    | Some chan =>
        let w := set_chans (JsMap.update channel (with_status "joined")) w in
        let chan := with_status "joined" chan in
        inr (if chan_observed chan then Irc.observe chan w else w)
    end
  else inr w.

(** [handle.part(channel, nick)] *)
Definition part (channel nick : string) (w : Wire) : string + Wire :=
  if own nick w then
    let channel := JsString.toLowerCase channel in
    match JsMap.get channel (chans w) with
    | None => inl TypeError
    | Some chan =>
        let w := set_chans (JsMap.update channel (with_status "leaved")) w in
        let w := call_client (ClientRemoveAllListeners ("message" +:+ chan_name chan)) w in
        inr (set_chans (JsMap.delete (chan_name chan)) w)
    end
  else inr w.

(** [handle.kick(channel, nick, by, reason, message)] *)
Definition kick (channel nick : string) (w : Wire) : string + Wire :=
  if own nick w then
    match JsMap.get channel (chans w) with
    | None => inl TypeError
    | Some chan =>
        let w := set_chans (JsMap.update channel (with_status "kicked")) w in
        inr (call_client (ClientRemoveAllListeners ("message" +:+ chan_name chan)) w)
    end
  else inr w.

(** [async.eachSeries(commands, ...)] with an iterator that sends the
    command and calls back from a timer: the first command is sent at
    once, every timer that fires sends the next one. *)
Definition eachSeries (commands : list string) (w : Wire) : Wire :=
  match commands with
  | [] => w
  | command :: rest =>
      set_timers (fun l => l ++ [rest]) (call_client (ClientSend command) w)
  end.

(** The timer of the [i]-th run of [eachSeries] fires. *)
Definition timer (i : nat) (w : Wire) : Wire :=
  match wire_timers w !! i with
  | Some (command :: rest) =>
      set_timers (fun l => <[i := rest]> l) (call_client (ClientSend command) w)
  | _ => w
  end.

(** [chans.forEach(v => this.join(v))], from the [i]-th entry on.  A
    [Map] is walked in the order of insertion and entries added on the way
    are visited too.  [join] adds an entry for at most every entry that was
    there at the start, and none for an entry it has added, so twice the
    number of entries at the start bounds the number of visits. *)
Fixpoint forEachJoin (visits : nat) (i : nat) (w : Wire) : Wire :=
  match visits with
  | O => w
  | S visits =>
      match chans w !! i with
      | Some entry => forEachJoin visits (S i) (Irc.join (snd entry) w)
      | None => w
      end
  end.

(** [handle.registered(message)] *)
Definition registered (w : Wire) : Wire :=
  let client := irc_client (wire_privates w) in
  let w := set_privates (fun p =>
             mkIrc (irc_client p) (client_nick client) (irc_hostname p) (irc_errors p)
                   (irc_motd p) (irc_notices p) (irc_commands p) "connected"
                   (irc_chans p) (irc_packCb p)) w in
  let w := eachSeries (irc_commands (wire_privates w)) w in
  forEachJoin (2 * length (chans w)) 0 w.

End Handle.

(** Modelled from the spec: the listeners the client holds for an event
    after a sequence of calls.  A listener is added at the end, also when
    it is there already; [removeAllListeners] removes those of its
    event. *)
Fixpoint listeners (event : string) (calls : list clientCall) (held : list SlingChannel)
    : list SlingChannel :=
  match calls with
  | [] => held
  | ClientOn e channel :: rest =>
      listeners event rest (if String.eqb e event then held ++ [channel] else held)
  | ClientRemoveAllListeners e :: rest =>
      listeners event rest (if String.eqb e event then [] else held)
  | _ :: rest => listeners event rest held
  end.

(** The channels the announcement parser is bound to for the messages of
    the channel [name]. *)
Definition observers (name : string) (w : Wire) : list SlingChannel :=
  listeners ("message" +:+ name) (wire_calls w) [].

Section Message.

Variable regexMatch : string -> string -> option (list (option string)).

(** The client emits the message event of the channel [name]: every
    listener parses the line; the result lists the calls of the callback
    of the session. *)
Definition message (name nick text : string) (w : Wire)
    : list (Parser.PackData * SlingChannel * string) :=
  omap (fun channel =>
          Parser.packParse regexMatch (irc_packCb (wire_privates w)) channel nick text)
       (observers name w).

End Message.

(** ** More concrete runs *)

Module Sample.

(** Network [net] is registered and nothing is queued. *)
Definition idle : State :=
  Scenario.perform (Scenario.empty Scenario.store) [Scenario.register].

(** The queue [a, b] of [Scenario.loaded], with file names checked. *)
Definition checked : State :=
  Scenario.perform Scenario.loaded [SettingsChange true].

(** A persisted configuration of two networks, the second with commands. *)
Definition config : list (string * NwConfig) :=
  [("net", mkNwConfig (JStr "irc.example.org") Scenario.options);
   ("org", mkNwConfig (JStr "irc.example.net")
                      (mkOpts JUndefined None None (Some ["/msg nickserv identify x"])
                              CbUndefined))].

(** A persisted configuration without a hostname. *)
Definition broken : NwConfig := mkNwConfig JUndefined Scenario.options.

(** The persisted pending-lists: two entries for bot [bot] on [net]. *)
Definition downloads (key : string)
    : option (list (string * option (list DlEntry))) :=
  if String.eqb key "net"
  then Some [("bot", Some [mkDlEntry "a" "a.bin"; mkDlEntry "b" "b.bin"])]
  else None.

(** A name generator. *)
Definition generate (key : string) : string := "guest-" +:+ key.

(** A [SlingChannel.fromJSON] that rebuilds the channel as it was. *)
Definition channelFromJSON (c : SlingChannel) : SlingChannel := c.

(** A session as the constructor builds it, with one channel. *)
Definition built : SlingIrc :=
  match Session.new "nomi" (JStr "irc.example.org")
          (mkOpts (JStr "alice") (Some [Scenario.channel]) None None CbFunction) with
  | inr p => p
  | inl _ => Scenario.alice
  end.

(** The session [alice] before it has made any call to its client. *)
Definition wire : Wire := mkWire Scenario.alice [] [] [].



(** A channel to be filed in the place of [Scenario.channel]. *)
Definition replacement : SlingChannel :=
  mkChannel "#packs" None "#(\d+) +(\S+)" ["id"; "fileName"] "" "" false.

End Sample.

(** * Properties *)

(** ** The host primitives on examples *)

Example parseInt_100 : JsString.parseInt "100" = Num 100%Z.
Proof. reflexivity. Qed.

Example parseInt_fraction : JsString.parseInt "1.5" = Num 1%Z.
Proof. reflexivity. Qed.

Example parseInt_hex : JsString.parseInt " 0x1f" = Num 31%Z.
Proof. reflexivity. Qed.

Example parseInt_none : JsString.parseInt "MB" = NaN.
Proof. reflexivity. Qed.

(** ** Queues under [put_queue] *)

Lemma networks_put_queue n b q s n' :
  networks (put_queue n b q s) !! n' =
  if decide (n = n')
  then set_xdcc (partial_alter (fun _ => q) b) <$> networks s !! n
  else networks s !! n'.
Proof. unfold put_queue. simpl. apply lookup_alter. Qed.

Lemma queue_put_queue n b q s n' b' :
  queue n' b' (put_queue n b q s) =
  if decide (n = n' /\ b = b')
  then match networks s !! n with Some _ => q | None => None end
  else queue n' b' s.
Proof.
  unfold queue. rewrite networks_put_queue.
  destruct (decide (n = n')) as [<-|Hn].
  - destruct (networks s !! n) as [nw|]; simpl.
    + rewrite lookup_partial_alter.
      destruct (decide (b = b')) as [<-|Hb].
      * rewrite decide_True by done. done.
      * rewrite decide_False by tauto. done.
    + by repeat case_decide.
  - rewrite decide_False by tauto. done.
Qed.

Lemma queue_put_queue_ne n b q s n' b' :
  (n, b) ≠ (n', b') -> queue n' b' (put_queue n b q s) = queue n' b' s.
Proof.
  intros Hne. rewrite queue_put_queue, decide_False; [done|].
  intros [-> ->]. done.
Qed.

Lemma is_Some_put_queue n b q s n' :
  is_Some (networks (put_queue n b q s) !! n') <-> is_Some (networks s !! n').
Proof.
  rewrite networks_put_queue. case_decide; [subst|done].
  by rewrite fmap_is_Some.
Qed.

Lemma queue_put_queue_eq n b q s nw :
  networks s !! n = Some nw -> queue n b (put_queue n b q s) = q.
Proof.
  intros H. rewrite queue_put_queue, decide_True by done. by rewrite H.
Qed.

Lemma queue_Some n b s q :
  queue n b s = Some q <->
  exists nw, networks s !! n = Some nw /\ nw_xdcc nw !! b = Some q.
Proof.
  unfold queue. destruct (networks s !! n) as [nw|]; split.
  - eauto.
  - by intros (? & [= <-] & ?).
  - done.
  - by intros (? & ? & ?).
Qed.

Lemma queue_network s n b q : queue n b s = Some q -> is_Some (networks s !! n).
Proof. intros (nw & -> & _)%queue_Some. eauto. Qed.

Lemma queue_frame s s' n b : networks s' = networks s -> queue n b s' = queue n b s.
Proof. intros H. unfold queue. by rewrite H. Qed.

Lemma queue_default s n b nw :
  networks s !! n = Some nw ->
  default [] (nw_xdcc nw !! b) = default [] (queue n b s).
Proof. intros H. unfold queue. by rewrite H. Qed.

Lemma queue_set_irc f n s n' b :
  queue n' b (set_networks (alter (set_irc f) n) s) = queue n' b s.
Proof.
  unfold queue. simpl. rewrite lookup_alter.
  case_decide; [subst|done]. by destruct (networks s !! n').
Qed.

(** Queues do not depend on the other fields of the state. *)
Ltac queue_frame :=
  repeat match goal with
    | |- context [queue ?n ?b (set_emitted ?f ?s)] =>
        change (queue n b (set_emitted f s)) with (queue n b s)
    | |- context [queue ?n ?b (set_sc_dl ?f ?s)] =>
        change (queue n b (set_sc_dl f s)) with (queue n b s)
    | |- context [queue ?n ?b (set_finished ?f ?s)] =>
        change (queue n b (set_finished f s)) with (queue n b s)
    | |- context [queue ?n ?b (set_pending ?f ?s)] =>
        change (queue n b (set_pending f s)) with (queue n b s)
    | |- context [queue ?n ?b (set_fresh ?f ?s)] =>
        change (queue n b (set_fresh f s)) with (queue n b s)
    end.

(** ** Well-formed queues are kept by the array operations *)

Lemma queue_ok_nil : queue_ok [].
Proof. split; simpl; constructor. Qed.

Lemma queue_ok_tail q : queue_ok q -> queue_ok (tail q).
Proof.
  intros [Hids Hh Hidle Hc]. destruct q as [|p q]; simpl in *; [by split|].
  split.
  - by inversion Hids.
  - by inversion Hh.
  - destruct q; simpl; [constructor | by inversion Hidle].
  - by inversion Hc.
Qed.

Lemma tail_filter_idle (f : Pack -> bool) (P : Pack -> Prop) q :
  Forall P (tail q) -> Forall P (tail (List.filter f q)).
Proof.
  destruct q as [|p q]; simpl; [done|]. intros H.
  assert (Forall P (List.filter f q)) as Hf.
  { apply Forall_forall. intros x Hx. apply list_elem_of_In, filter_In in Hx.
    destruct Hx as [Hx _]. rewrite Forall_forall in H. apply H.
    by apply list_elem_of_In. }
  destruct (f p); simpl; [done|].
  destruct (List.filter f q); simpl; [constructor | by inversion Hf].
Qed.

Lemma Forall_filter_list (f : Pack -> bool) (P : Pack -> Prop) q :
  Forall P q -> Forall P (List.filter f q).
Proof.
  rewrite !Forall_forall. intros H x Hx.
  apply list_elem_of_In, filter_In in Hx. apply H, list_elem_of_In, Hx.
Qed.

Lemma NoDup_map_filter {B} (g : Pack -> B) (f : Pack -> bool) q :
  NoDup (map g q) -> NoDup (map g (List.filter f q)).
Proof.
  induction q as [|p q IH]; simpl; [done|].
  intros H. inversion H as [|? ? Hnot Hnd]; subst.
  destruct (f p); simpl; [|by apply IH].
  constructor; [|by apply IH].
  intros Hin. apply Hnot.
  apply list_elem_of_fmap in Hin as (y & -> & Hy).
  apply list_elem_of_fmap. exists y. split; [done|].
  apply list_elem_of_In. apply list_elem_of_In, filter_In in Hy. tauto.
Qed.

Lemma queue_ok_remove id q : queue_ok q -> queue_ok (remove id q).
Proof.
  intros [Hids Hh Hidle Hc]. unfold remove. split.
  - by apply NoDup_map_filter.
  - by apply Forall_filter_list.
  - by apply tail_filter_idle.
  - by apply Forall_filter_list.
Qed.

Lemma queued_false id q : queued id q = false <-> id ∉ map pack_id q.
Proof.
  unfold queued. induction q as [|p q IH]; simpl.
  - split; [intros _; apply not_elem_of_nil | done].
  - rewrite not_elem_of_cons, orb_false_iff, IH.
    destruct (String.eqb_spec (pack_id p) id); split; intros [? ?]; split;
      try done; congruence.
Qed.


Lemma queue_ok_push q p x :
  queue_ok q -> queued (pack_id p) q = false ->
  pack_xdcc p = Some x -> ax_received x = [] -> ax_status x = "created" ->
  queue_ok (q ++ [p]).
Proof.
  intros [Hids Hh Hidle Hc] Hq Hx Hr Hs.
  assert (active p = false) as Hp.
  { unfold active, started. rewrite Hx, Hr. apply bool_decide_eq_false.
    apply not_elem_of_nil. }
  split.
  - rewrite map_app. simpl. apply NoDup_app. split; [done|]. split.
    + intros y Hy Hy'. apply list_elem_of_singleton in Hy'. subst.
      by apply queued_false in Hq.
    + apply NoDup_singleton.
  - apply Forall_app. split; [done|]. constructor; [by rewrite Hx | constructor].
  - destruct q as [|p0 q]; simpl in *; [constructor|].
    apply Forall_app. split; [done|]. by constructor.
  - apply Forall_app. split; [done|]. constructor; [|constructor].
    intros x' Hx'. rewrite Hx in Hx'. by injection Hx' as <-.
Qed.

Lemma tail_insert (p' : Pack) q i :
  tail (<[i := p']> q) =
  match i with O => tail q | S j => <[j := p']> (tail q) end.
Proof. destruct q as [|p q], i as [|i]; simpl; try done. Qed.

(** Replacing the [i]-th request by one with the same id and a handle
    that is idle unless it is the head. *)
Lemma queue_ok_insert q i p p' :
  queue_ok q -> q !! i = Some p ->
  pack_id p' = pack_id p ->
  is_Some (pack_xdcc p') ->
  (i ≠ 0 -> active p' = false) ->
  (forall x, pack_xdcc p' = Some x -> started x = false -> ax_status x = "created") ->
  queue_ok (<[i := p']> q).
Proof.
  intros [Hids Hh Hidle Hc] Hi Hid Hsome Hact Hcr. split.
  - change (map pack_id (<[i:=p']> q)) with (pack_id <$> <[i:=p']> q).
    rewrite list_fmap_insert, Hid, list_insert_id; [done|].
    by rewrite list_lookup_fmap, Hi.
  - by apply Forall_insert.
  - rewrite tail_insert. destruct i as [|j]; [done|].
    apply Forall_insert; [done|]. by apply Hact.
  - by apply Forall_insert.
Qed.

Lemma elem_of_tail {A} (x : A) l : x ∈ tail l -> x ∈ l.
Proof. destruct l; simpl; [done|]. intros H; apply elem_of_cons; by right. Qed.

Lemma NoDup_tail {A} (l : list A) : NoDup l -> NoDup (tail l).
Proof. destruct l; simpl; [done|]. by inversion 1. Qed.

Lemma filter_idle q : Forall (fun p => active p = false) q -> List.filter active q = [].
Proof. induction 1 as [|p q Hp _ IH]; simpl; [done|]. by rewrite Hp. Qed.

Lemma findIndex_None id q : id ∉ map pack_id q -> findIndex id q = None.
Proof.
  induction q as [|p q IH]; simpl; [done|].
  rewrite not_elem_of_cons. intros [Hp Hq].
  destruct (String.eqb_spec (pack_id p) id); [congruence|]. by rewrite IH.
Qed.

Lemma findIndex_lookup id q i p :
  NoDup (map pack_id q) -> q !! i = Some p -> pack_id p = id ->
  findIndex id q = Some i.
Proof.
  revert i. induction q as [|p0 q IH]; intros i Hnd Hi Hid; [done|].
  simpl in Hnd. inversion Hnd as [|? ? Hnot Hnd']; subst. simpl.
  destruct i as [|j]; simpl in Hi.
  - injection Hi as ->. by rewrite String.eqb_refl.
  - destruct (String.eqb_spec (pack_id p0) (pack_id p)) as [Heq|_].
    + exfalso. apply Hnot. rewrite Heq. apply list_elem_of_fmap.
      exists p. split; [done|]. apply list_elem_of_lookup. eauto.
    + by rewrite (IH j).
Qed.

Lemma remove_absent id q : id ∉ map pack_id q -> remove id q = q.
Proof.
  induction q as [|p q IH]; simpl; [done|].
  rewrite not_elem_of_cons. intros [Hp Hq]. unfold remove in *. simpl.
  destruct (String.eqb_spec (pack_id p) id); [congruence|]. simpl. by rewrite IH.
Qed.

Lemma remove_insert_delete q i p p' :
  NoDup (map pack_id q) -> q !! i = Some p -> pack_id p' = pack_id p ->
  remove (pack_id p) (<[i := p']> q) = delete i q.
Proof.
  revert i. induction q as [|p0 q IH]; intros i Hnd Hi Hid; [done|].
  simpl in Hnd. inversion Hnd as [|? ? Hnot Hnd']; subst.
  destruct i as [|j]; simpl in Hi.
  - injection Hi as ->. unfold remove. simpl. rewrite Hid, String.eqb_refl. simpl.
    by apply remove_absent.
  - unfold remove. simpl.
    destruct (String.eqb_spec (pack_id p0) (pack_id p)) as [Heq|_]; simpl.
    + exfalso. apply Hnot. rewrite Heq. apply list_elem_of_fmap.
      exists p. split; [done|]. apply list_elem_of_lookup. eauto.
    + f_equal. by apply IH.
Qed.

(** ** The finished set *)

Lemma Set_add_oids r l :
  map pack_oid (Set_add r l) =
  if existsb (fun p => Nat.eqb (pack_oid p) (pack_oid r)) l
  then map pack_oid l else map pack_oid l ++ [pack_oid r].
Proof.
  unfold Set_add. destruct (existsb _ l); [|by rewrite map_app].
  rewrite map_map. apply map_ext. intros p.
  destruct (Nat.eqb_spec (pack_oid p) (pack_oid r)); congruence.
Qed.

Lemma existsb_oid_false r l :
  existsb (fun p => Nat.eqb (pack_oid p) (pack_oid r)) l = false ->
  pack_oid r ∉ map pack_oid l.
Proof.
  induction l as [|p l IH]; simpl; [intros _; apply not_elem_of_nil|].
  rewrite orb_false_iff, not_elem_of_cons. intros [Hp Hl]. split; [|by apply IH].
  apply Nat.eqb_neq in Hp. congruence.
Qed.

Lemma existsb_oid_true r l :
  existsb (fun p => Nat.eqb (pack_oid p) (pack_oid r)) l = true ->
  pack_oid r ∈ map pack_oid l.
Proof.
  induction l as [|p l IH]; simpl; [done|].
  rewrite orb_true_iff, elem_of_cons. intros [Hp|Hl]; [left | right; by apply IH].
  apply Nat.eqb_eq in Hp. congruence.
Qed.

Lemma Set_add_NoDup r l :
  NoDup (map pack_oid l) -> NoDup (map pack_oid (Set_add r l)).
Proof.
  intros H. rewrite Set_add_oids.
  destruct (existsb _ l) eqn:He; [done|].
  apply NoDup_app. split; [done|]. split; [|apply NoDup_singleton].
  intros y Hy Hy'. apply list_elem_of_singleton in Hy'. subst.
  by apply existsb_oid_false in He.
Qed.

Lemma filter_oid_replace r l :
  NoDup (map pack_oid l) ->
  List.filter (fun p => Nat.eqb (pack_oid p) (pack_oid r))
    (map (fun p => if Nat.eqb (pack_oid p) (pack_oid r) then r else p) l) =
  if existsb (fun p => Nat.eqb (pack_oid p) (pack_oid r)) l then [r] else [].
Proof.
  induction l as [|p l IH]; simpl; [done|].
  intros Hnd. inversion Hnd as [|? ? Hnot Hnd']; subst.
  specialize (IH Hnd').
  destruct (Nat.eqb (pack_oid p) (pack_oid r)) eqn:Hp; simpl.
  - rewrite Nat.eqb_refl, IH. apply Nat.eqb_eq in Hp.
    destruct (existsb _ l) eqn:He; [|done].
    apply existsb_oid_true in He. rewrite <- Hp in He. done.
  - by rewrite Hp.
Qed.

Lemma filter_oid_nil r l :
  existsb (fun p => Nat.eqb (pack_oid p) (pack_oid r)) l = false ->
  List.filter (fun p => Nat.eqb (pack_oid p) (pack_oid r)) l = [].
Proof.
  induction l as [|p l IH]; simpl; [done|].
  rewrite orb_false_iff. intros [-> Hl]. by apply IH.
Qed.

Lemma filter_oid_Set_add r l :
  NoDup (map pack_oid l) ->
  List.filter (fun p => Nat.eqb (pack_oid p) (pack_oid r)) (Set_add r l) = [r].
Proof.
  intros Hnd. unfold Set_add.
  destruct (existsb _ l) eqn:He.
  - by rewrite filter_oid_replace, He.
  - rewrite List.filter_app. simpl. rewrite Nat.eqb_refl.
    by rewrite (filter_oid_nil _ _ He).
Qed.

(** ** Keeping an invariant through a computation *)

Section Pres.

Variable I : State -> Prop.

Lemma pres_ret {A} (a : A) : pres I (mret a).
Proof. by intros s. Qed.

Lemma pres_throw {A} e : pres I (throw (A := A) e).
Proof. by intros s. Qed.

Lemma pres_deref {A} (o : option A) : pres I (deref o).
Proof. by destruct o; intros s. Qed.

Lemma pres_modify f : (forall s, I s -> I (f s)) -> pres I (modify f).
Proof. intros H s. apply H. Qed.

Lemma pres_bind {A B} (m : M A) (f : A -> M B) :
  pres I m -> (forall a, pres I (f a)) -> pres I (m ≫= f).
Proof.
  intros Hm Hf s HI. specialize (Hm s HI).
  unfold mbind, M_bind. destruct (m s) as [a s'|e s']; simpl in *; [|done].
  by apply Hf.
Qed.

Lemma pres_finish cb err : pres I (finish cb err).
Proof. by destruct cb; intros s. Qed.

Lemma pres_hand {A} cb (args : A) : pres I (hand cb args).
Proof. by destruct cb; intros s. Qed.

Lemma pres_get {A} (f : State -> M A) :
  (forall s, I s -> I (state_of (f s s))) -> pres I (get ≫= f).
Proof. intros H s HI. by apply H. Qed.

End Pres.

(** ** Every action keeps the queues well formed *)

Lemma Inv_frame s s' :
  networks s' = networks s -> finished s' = finished s -> Inv s -> Inv s'.
Proof.
  intros Hn Hf [H1 H2]. split; [by rewrite Hf|].
  intros n b q. unfold queue. rewrite Hn. apply H2.
Qed.

Lemma Inv_put_queue n b q s :
  Inv s -> (forall l, q = Some l -> queue_ok l) -> Inv (put_queue n b q s).
Proof.
  intros [H1 H2] Hq. split; [done|].
  intros n' b' l. rewrite queue_put_queue. case_decide.
  - destruct (networks s !! n); [apply Hq | done].
  - apply H2.
Qed.

Lemma Inv_finished_add r s : Inv s -> Inv (set_finished (Set_add r) s).
Proof. intros [H1 H2]. split; [by apply Set_add_NoDup | done]. Qed.

Lemma Inv_queue s n b q : Inv s -> queue n b s = Some q -> queue_ok q.
Proof. intros [_ H]. apply H. Qed.

Lemma Inv_lookup s n nw b q :
  Inv s -> networks s !! n = Some nw -> nw_xdcc nw !! b = Some q -> queue_ok q.
Proof. intros HI Hn Hb. eapply Inv_queue; [done|]. apply queue_Some. eauto. Qed.

Lemma Inv_head_handle s n b p q :
  Inv s -> queue n b s = Some (p :: q) -> is_Some (pack_xdcc p).
Proof.
  intros HI Hq. destruct (Inv_queue _ _ _ _ HI Hq) as [_ Hh _ _].
  by inversion Hh.
Qed.

Lemma Inv_head_absent s n b p q :
  Inv s -> queue n b s = Some (p :: q) -> pack_id p ∉ map pack_id q.
Proof.
  intros HI Hq. destruct (Inv_queue _ _ _ _ HI Hq) as [Hid _ _ _].
  simpl in Hid. by inversion Hid.
Qed.

Lemma pres_emit x sig : pres Inv (emit x sig).
Proof. apply pres_modify. intros s. by apply Inv_frame. Qed.

Lemma started_receive sig x :
  sig ≠ Start -> started (receive sig x) = started x.
Proof.
  intros H. unfold started, receive. simpl.
  apply bool_decide_ext. rewrite elem_of_app, list_elem_of_singleton.
  intuition congruence.
Qed.

Lemma pres_emitAt n b i sig : (sig = Start -> i = 0) -> pres Inv (emitAt n b i sig).
Proof.
  intros Hsig. unfold emitAt. apply pres_get. intros s HI.
  unfold mbind, M_bind.
  destruct (queue n b s) as [q|] eqn:Hq; simpl; [|done].
  destruct (q !! i) as [p|] eqn:Hi; simpl; [|done].
  destruct (pack_xdcc p) as [x|] eqn:Hx; simpl; [|done].
  eapply Inv_frame; [reflexivity..|].
  apply Inv_put_queue; [done|]. intros l [= <-].
  destruct HI as [_ HI]. specialize (HI _ _ _ Hq).
  eapply queue_ok_insert; eauto.
  - intros Hi0. unfold active. simpl.
    destruct (decide (sig = Start)) as [->|Hne]; [by destruct Hi0; auto|].
    rewrite started_receive by done.
    destruct HI as [_ _ Hidle _]. destruct i as [|j]; [done|].
    destruct q as [|p0 q]; [done|]. simpl in *.
    rewrite Forall_lookup in Hidle. specialize (Hidle _ _ Hi).
    unfold active in Hidle. by rewrite Hx in Hidle.
  - simpl. intros x' [= <-] Hst. simpl.
    destruct HI as [_ _ _ Hc]. rewrite Forall_lookup in Hc.
    apply (Hc _ _ Hi x Hx).
    destruct (decide (sig = Start)) as [->|Hne].
    + exfalso. unfold started, receive in Hst. simpl in Hst.
      apply bool_decide_eq_false in Hst. apply Hst.
      apply elem_of_app. right. by apply list_elem_of_singleton.
    + by rewrite started_receive in Hst.
Qed.

Lemma pres_persistShift n b : pres Inv (persistShift n b).
Proof. apply pres_modify. intros s. by apply Inv_frame. Qed.

Lemma pres_persistPush n b e : pres Inv (persistPush n b e).
Proof. apply pres_modify. intros s. by apply Inv_frame. Qed.

Lemma pres_advance n b xdcc : pres Inv (advance n b xdcc).
Proof.
  destruct xdcc as [|p l]; simpl.
  - apply pres_modify. intros s HI. by apply Inv_put_queue.
  - apply pres_bind; [by apply pres_emitAt | intros; apply pres_ret].
Qed.

Lemma pres_addDownload id dontPersist cb : pres Inv (addDownload id dontPersist cb).
Proof. apply pres_modify. intros s. by apply Inv_frame. Qed.

Ltac pres_step :=
  first
    [ apply pres_ret | apply pres_throw | apply pres_deref | apply pres_emit
    | apply pres_persistShift | apply pres_persistPush | apply pres_advance
    | apply pres_addDownload
    | apply pres_emitAt; congruence
    | apply pres_bind; [|intros ?] ].

Lemma pres_xdccConnect dbpack fileName : pres Inv (xdccConnect dbpack fileName).
Proof.
  unfold xdccConnect. apply pres_get. intros s HI.
  apply pres_bind; [apply pres_deref | intros nw | done].
  destruct (_ && _); repeat pres_step.
Qed.

Lemma pres_shift n b xdcc s nw :
  Inv s -> networks s !! n = Some nw -> nw_xdcc nw !! b = Some xdcc ->
  Inv (put_queue n b (Some (tail xdcc)) s).
Proof.
  intros HI Hn Hb. apply Inv_put_queue; [done|]. intros l [= <-].
  apply queue_ok_tail. eapply Inv_lookup; eauto.
Qed.

Lemma pres_xdccProgress dbpack status : pres Inv (xdccProgress dbpack status).
Proof.
  unfold xdccProgress. apply pres_get. intros s HI.
  unfold mbind at 1, M_bind at 1.
  destruct (networks s !! pack_network dbpack) as [nw|] eqn:Hn; simpl; [|done].
  destruct (String.eqb status "canceled"); [|done].
  unfold mbind at 1, M_bind at 1.
  destruct (nw_xdcc nw !! pack_bot dbpack) as [xdcc|] eqn:Hb; simpl; [|done].
  unfold mbind at 1, M_bind at 1. simpl.
  assert (pres Inv (advance (pack_network dbpack) (pack_bot dbpack) (tail xdcc);;
                persistShift (pack_network dbpack) (pack_bot dbpack))) as Hrest
    by repeat pres_step.
  apply Hrest. eapply pres_shift; eauto.
Qed.

Lemma pres_xdccComplete dbpack : pres Inv (xdccComplete dbpack).
Proof.
  unfold xdccComplete. apply pres_get. intros s HI.
  unfold mbind at 1, M_bind at 1.
  destruct (networks s !! pack_network dbpack) as [nw|] eqn:Hn; simpl; [|done].
  unfold mbind at 1, M_bind at 1.
  destruct (nw_xdcc nw !! pack_bot dbpack) as [xdcc|] eqn:Hb; simpl; [|done].
  unfold mbind at 1, M_bind at 1. simpl.
  match goal with |- Inv (state_of (?m _)) => assert (pres Inv m) as Hrest end.
  { repeat pres_step. apply pres_modify. intros ?. apply Inv_finished_add. }
  apply Hrest. eapply pres_shift; eauto.
Qed.

Lemma pres_xdccError dbpack : pres Inv (xdccError dbpack).
Proof.
  unfold xdccError. apply pres_get. intros s HI.
  unfold mbind at 1, M_bind at 1.
  destruct (networks s !! pack_network dbpack) as [nw|] eqn:Hn; simpl; [|done].
  unfold mbind at 1, M_bind at 1.
  destruct (nw_xdcc nw !! pack_bot dbpack) as [xdcc|] eqn:Hb; simpl; [|done].
  unfold mbind at 1, M_bind at 1. simpl.
  match goal with |- Inv (state_of (?m _)) => assert (pres Inv m) as Hrest end.
  { repeat pres_step. }
  apply Hrest. eapply pres_shift; eauto.
Qed.

Lemma pres_addDownload_continue t : pres Inv (addDownload_continue t).
Proof.
  unfold addDownload_continue. apply pres_get. intros s HI.
  destruct (db s (task_id t)) as [|[pack|]];
    [by apply pres_finish| |by apply pres_finish].
  destruct (networks s !! doc_network pack) as [nw|] eqn:Hn;
    [|by apply pres_finish].
  set (xdcc := default [] (nw_xdcc nw !! doc_bot pack)).
  assert (queue_ok xdcc) as Hok.
  { unfold xdcc. destruct (nw_xdcc nw !! doc_bot pack) eqn:Hb; simpl.
    - eapply Inv_lookup; eauto.
    - apply queue_ok_nil. }
  unfold mbind at 1, M_bind at 1. simpl.
  destruct (queued (doc_id pack) xdcc) eqn:Hq.
  { apply pres_finish. apply Inv_put_queue; [done|]. by intros l [= <-]. }
  unfold mbind at 1, M_bind at 1. simpl.
  unfold mbind at 1, M_bind at 1. simpl.
  match goal with |- Inv (state_of (?m ?s')) => assert (pres Inv m) as Hrest; [|apply Hrest] end.
  - apply pres_bind.
    + destruct (Nat.eqb_spec (length (xdcc ++ [mkPack (fresh s) (doc_id pack)
          (doc_network pack) (doc_bot pack) (doc_name pack)
          (Some (mkAxdcc (fresh s) "created" [] [])) None])) 1) as [Hl|_];
        [|apply pres_ret].
      apply pres_emitAt. intros _. rewrite length_app in Hl. simpl in Hl. lia.
    + intros x. apply pres_bind; [|intros ?; apply pres_ret].
      destruct (task_dontPersist t); [apply pres_ret | apply pres_persistPush].
  - apply Inv_put_queue.
    + eapply Inv_frame; [reflexivity..|].
      apply Inv_put_queue; [done|]. by intros l [= <-].
    + intros l [= <-]. eapply queue_ok_push; eauto.
Qed.

Lemma pres_dbCallback : pres Inv dbCallback.
Proof.
  unfold dbCallback. apply pres_get. intros s HI.
  destruct (pending s) as [|t rest]; [done|].
  match goal with |- Inv (state_of (?m _)) => assert (pres Inv m) as Hrest; [|by apply Hrest] end.
  apply pres_bind; [|intros ?; apply pres_addDownload_continue].
  apply pres_modify. intros s'. by apply Inv_frame.
Qed.

Lemma pres_cancelDownload network bot id cb :
  pres Inv (cancelDownload network bot id cb).
Proof.
  unfold cancelDownload. apply pres_get. intros s HI.
  destruct (networks s !! network) as [nw|]; [|by apply pres_hand].
  destruct (nw_xdcc nw !! bot) as [[|p0 xdccs]|];
    [by apply pres_hand| |by apply pres_hand].
  destruct (findIndex id (p0 :: xdccs)) as [i|]; [|by apply pres_hand].
  match goal with |- Inv (state_of (?m _)) => assert (pres Inv m) as Hrest; [|by apply Hrest] end.
  apply pres_bind; [apply pres_deref | intros p].
  apply pres_bind; [apply pres_deref | intros x].
  apply pres_bind.
  { destruct (negb _); apply pres_emitAt; congruence. }
  intros x'. apply pres_get. intros s' HI'.
  unfold mbind, M_bind. simpl. apply pres_hand.
  apply Inv_put_queue; [done|]. intros l Hl.
  destruct (queue network bot s') as [q|] eqn:Hq; simpl in Hl; [|done].
  injection Hl as <-. apply queue_ok_remove. eapply Inv_queue; eauto.
Qed.

Lemma Inv_set_irc f n s : Inv s -> Inv (set_networks (alter (set_irc f) n) s).
Proof.
  intros [H1 H2]. split; [done|]. intros n' b q. rewrite queue_set_irc. apply H2.
Qed.

Lemma Inv_insert_network n irc l s :
  Inv s -> Inv (set_networks (insert n (mkNetwork irc l ∅)) s).
Proof.
  intros [H1 H2]. split; [done|]. intros n' b q. unfold queue. simpl.
  rewrite lookup_insert. case_decide.
  - simpl. by rewrite lookup_empty.
  - apply H2.
Qed.

Lemma Inv_delete_network n s : Inv s -> Inv (set_networks (delete n) s).
Proof.
  intros [H1 H2]. split; [done|]. intros n' b q. unfold queue. simpl.
  rewrite lookup_delete. case_decide; [done | apply H2].
Qed.

Lemma pres_addNetwork generated network hostname opts :
  pres Inv (addNetwork generated network hostname opts).
Proof.
  unfold addNetwork. apply pres_get. intros s HI.
  destruct network; try done.
  destruct (bool_decide _); [done|].
  destruct opts as [opts|]; [|done].
  unfold mbind at 1, M_bind at 1. simpl.
  destruct (Session.new _ _ _) as [e|irc]; [done|].
  unfold mbind, M_bind. simpl.
  eapply Inv_frame; [reflexivity..|]. by apply Inv_insert_network.
Qed.

Lemma pres_removeNetwork network flush cb : pres Inv (removeNetwork network flush cb).
Proof.
  unfold removeNetwork. apply pres_get. intros s HI.
  destruct (networks s !! network) as [nw|]; [|done].
  destruct (Nat.ltb _ _); [done|].
  unfold mbind, M_bind. simpl.
  match goal with |- context [if ?b then _ else _] => destruct b end; simpl.
  - eapply Inv_frame; [reflexivity..|]. by apply Inv_set_irc.
  - by apply Inv_set_irc.
Qed.

Lemma pres_removeNetwork_done network err cb :
  pres Inv (removeNetwork_done network err cb).
Proof.
  unfold removeNetwork_done. apply pres_bind; [|intros ?; apply pres_hand].
  destruct err; [apply pres_ret|].
  intros s HI. unfold mbind, M_bind. simpl.
  eapply Inv_frame; [reflexivity..|]. by apply Inv_delete_network.
Qed.

Lemma Inv_engineReport n b i status notices s :
  Inv s -> Inv (engineReport n b i status notices s).
Proof.
  intros HI. unfold engineReport.
  destruct (queue n b s) as [q|] eqn:Hq; [|done].
  destruct (q !! i) as [p|] eqn:Hi; [|done].
  apply Inv_put_queue; [done|]. intros l [= <-].
  pose proof (Inv_queue _ _ _ _ HI Hq) as Hok.
  assert (is_Some (pack_xdcc p)) as [x Hx].
  { destruct Hok as [_ Hh _ _]. rewrite Forall_lookup in Hh. eauto. }
  assert (started (report status notices x) = started x) as Hst.
  { unfold report. by destruct (started x) eqn:E. }
  eapply queue_ok_insert; eauto; simpl; rewrite Hx; simpl.
  - eauto.
  - intros Hi0. unfold active. simpl. rewrite Hst.
    destruct Hok as [_ _ Hidle _]. destruct i as [|j]; [done|].
    destruct q as [|p0 q]; [done|]. simpl in *.
    rewrite Forall_lookup in Hidle. specialize (Hidle _ _ Hi).
    unfold active in Hidle. by rewrite Hx in Hidle.
  - intros x' [= <-]. rewrite Hst. intros Hf.
    unfold report. rewrite Hf.
    destruct Hok as [_ _ _ Hc]. rewrite Forall_lookup in Hc. eauto.
Qed.

Lemma initial_Inv s : initial s -> Inv s.
Proof.
  intros [Hf Hq]. split; [rewrite Hf; constructor|].
  intros n b q [nw [Hn Hb]]%queue_Some.
  rewrite (Hq _ _ Hn), lookup_empty in Hb. done.
Qed.

Lemma run_Inv a s : Inv s -> Inv (run a s).
Proof.
  intros HI. destruct a; simpl.
  - by apply pres_addNetwork.
  - by apply pres_removeNetwork.
  - by apply pres_removeNetwork_done.
  - by apply pres_addDownload.
  - by apply pres_dbCallback.
  - by apply pres_cancelDownload.
  - by apply pres_xdccConnect.
  - by apply pres_xdccProgress.
  - done.
  - by apply pres_xdccComplete.
  - by apply pres_xdccError.
  - by apply Inv_engineReport.
  - by apply Inv_set_irc.
  - apply (Inv_frame (set_networks (alter (set_irc f) network) s)); [done..|].
    by apply Inv_set_irc.
  - by eapply Inv_frame.
  - by eapply Inv_frame.
Qed.

Lemma reachable_Inv s : reachable s -> Inv s.
Proof.
  induction 1 as [s H|a s _ IH]; [by apply initial_Inv | by apply run_Inv].
Qed.

(** ** Every action keeps the objects distinct *)

Lemma Ident_shrinks s s' : shrinks s s' -> Ident s -> Ident s'.
Proof.
  intros (Hf & Hle & Hq) [H1 H2 H3 H4]. split.
  - rewrite Hf. eapply Forall_impl; [done|]. simpl. lia.
  - intros n b q Hn. rewrite Hf. eapply Forall_impl; [by eapply H2, Hq|].
    simpl. intros p [? ?]. split; [lia | done].
  - intros n b q Hn. eapply H3, Hq, Hn.
  - intros n b q n' b' q' Hn Hn'. eapply H4; eauto.
Qed.

Lemma shrinks_frame s s' :
  networks s' = networks s -> finished s' = finished s -> fresh s <= fresh s' ->
  shrinks s s'.
Proof.
  intros Hn Hf Hle. repeat split; try done.
  intros n b q. unfold queue. by rewrite Hn.
Qed.

Lemma shrinks_put_queue_None n b s : shrinks s (put_queue n b None s).
Proof.
  repeat split; try done. intros n' b' q. rewrite queue_put_queue.
  case_decide; [by destruct (networks s !! n) | done].
Qed.

Lemma shrinks_set_irc f n s : shrinks s (set_networks (alter (set_irc f) n) s).
Proof. repeat split; try done. intros n' b q. by rewrite queue_set_irc. Qed.

Lemma shrinks_insert_network n irc l s :
  shrinks s (set_networks (insert n (mkNetwork irc l ∅)) s).
Proof.
  repeat split; try done. intros n' b q. unfold queue. simpl.
  rewrite lookup_insert. case_decide; [|done]. simpl. by rewrite lookup_empty.
Qed.

Lemma shrinks_delete_network n s : shrinks s (set_networks (delete n) s).
Proof.
  repeat split; try done. intros n' b q. unfold queue. simpl.
  rewrite lookup_delete. by case_decide.
Qed.

(** Replacing the queue at [(n, b)] by requests that were already in it. *)
Lemma Ident_put_queue_sub n b l s :
  Ident s -> NoDup (map pack_oid l) ->
  (forall p, p ∈ l -> exists q p0,
     queue n b s = Some q /\ p0 ∈ q /\ pack_oid p0 = pack_oid p) ->
  Ident (put_queue n b (Some l) s).
Proof.
  intros [H1 H2 H3 H4] Hnd Hsub. split.
  - done.
  - intros n' b' q. rewrite queue_put_queue. case_decide as Hc.
    + destruct (networks s !! n); [|done]. intros [= <-].
      apply Forall_forall. intros p Hp.
      destruct (Hsub p Hp) as (q0 & p0 & Hq0 & Hp0 & <-).
      specialize (H2 _ _ _ Hq0). rewrite Forall_forall in H2. by apply H2.
    + apply H2.
  - intros n' b' q. rewrite queue_put_queue. case_decide as Hc.
    + destruct (networks s !! n); [|done]. by intros [= <-].
    + apply H3.
  - intros n1 b1 q1 n2 b2 q2. rewrite !queue_put_queue.
    destruct (decide (n = n1 /\ b = b1)) as [[<- <-]|Hc1];
      destruct (decide (n = n2 /\ b = b2)) as [[<- <-]|Hc2].
    + done.
    + destruct (networks s !! n); [|done]. intros [= <-] Hq2 Hne p p' Hp Hp'.
      destruct (Hsub p Hp) as (q0 & p0 & Hq0 & Hp0 & <-).
      eapply (H4 n b q0 n2 b2 q2); eauto.
    + destruct (networks s !! n); [|done]. intros Hq1 [= <-] Hne p p' Hp Hp'.
      destruct (Hsub p' Hp') as (q0 & p0 & Hq0 & Hp0 & <-).
      eapply (H4 n1 b1 q1 n b q0); eauto.
    + apply H4.
Qed.

Lemma Ident_shift n b q s :
  Ident s -> queue n b s = Some q -> Ident (put_queue n b (Some (tail q)) s).
Proof.
  intros HI Hq. apply Ident_put_queue_sub; [done| |].
  - assert (map pack_oid (tail q) = tail (map pack_oid q)) as -> by by destruct q.
    apply NoDup_tail. eapply id_nodup; eauto.
  - intros p Hp. exists q, p. split; [done|]. split; [by apply elem_of_tail | done].
Qed.

Lemma Ident_remove n b id q s :
  Ident s -> queue n b s = Some q -> Ident (put_queue n b (Some (remove id q)) s).
Proof.
  intros HI Hq. apply Ident_put_queue_sub; [done| |].
  - apply NoDup_map_filter. eapply id_nodup; eauto.
  - intros p Hp. exists q, p. split; [done|]. split; [|done].
    apply list_elem_of_In. apply list_elem_of_In, filter_In in Hp. tauto.
Qed.

Lemma Ident_insert n b i p p' q s :
  Ident s -> queue n b s = Some q -> q !! i = Some p ->
  pack_oid p' = pack_oid p ->
  Ident (put_queue n b (Some (<[i := p']> q)) s).
Proof.
  intros HI Hq Hi Ho. apply Ident_put_queue_sub; [done| |].
  - change (map pack_oid (<[i:=p']> q)) with (pack_oid <$> <[i:=p']> q).
    rewrite list_fmap_insert, Ho, list_insert_id.
    + eapply id_nodup; eauto.
    + by rewrite list_lookup_fmap, Hi.
  - intros x Hx. apply list_elem_of_lookup in Hx as [j Hj].
    destruct (decide (i = j)) as [<-|Hne].
    + rewrite list_lookup_insert_eq in Hj by (by eapply lookup_lt_Some).
      injection Hj as <-. exists q, p. split; [done|]. split; [|done].
      apply list_elem_of_lookup. eauto.
    + rewrite list_lookup_insert_ne in Hj by done.
      exists q, x. split; [done|]. split; [|done].
      apply list_elem_of_lookup. eauto.
Qed.

(** A new object joins the queue at [(n, b)]. *)
Lemma Ident_enqueue n b q p s :
  Ident s -> queue n b s = Some q -> pack_oid p = fresh s ->
  Ident (put_queue n b (Some (q ++ [p])) (set_fresh S s)).
Proof.
  intros [H1 H2 H3 H4] Hq Ho.
  destruct (queue_Some n b s q) as [(nw & Hnw & _) _]; [done|].
  assert (forall n' b' q' p', queue n' b' s = Some q' -> p' ∈ q' ->
            pack_oid p' ≠ pack_oid p) as Hnew.
  { intros n' b' q' p' Hq' Hp'. specialize (H2 _ _ _ Hq').
    rewrite Forall_forall in H2. destruct (H2 _ Hp'). lia. }
  split; simpl.
  - eapply Forall_impl; [done|]. simpl. lia.
  - intros n' b' q'. rewrite queue_put_queue. simpl. case_decide as Hc.
    + rewrite Hnw. intros [= <-]. apply Forall_app. split.
      * eapply Forall_impl; [by eapply H2|]. simpl. intros ? [? ?]. split; [lia|done].
      * constructor; [|constructor]. split; [lia|].
        intros Hin. apply list_elem_of_fmap in Hin as (y & Hy & Hin).
        rewrite Forall_forall in H1. specialize (H1 _ Hin). lia.
    + intros Hq'. eapply Forall_impl; [by eapply H2|].
      simpl. intros ? [? ?]. split; [lia|done].
  - intros n' b' q'. rewrite queue_put_queue. simpl. case_decide as Hc.
    + rewrite Hnw. intros [= <-]. rewrite map_app. simpl.
      apply NoDup_app. split; [by eapply H3|]. split; [|apply NoDup_singleton].
      intros y Hy Hy'. apply list_elem_of_singleton in Hy'. subst y.
      apply list_elem_of_fmap in Hy as (p' & Hp' & Hin).
      by eapply Hnew.
    + apply H3.
  - intros n1 b1 q1 n2 b2 q2. rewrite !queue_put_queue. simpl.
    destruct (decide (n = n1 /\ b = b1)) as [[<- <-]|Hc1];
      destruct (decide (n = n2 /\ b = b2)) as [[<- <-]|Hc2].
    + done.
    + rewrite Hnw. intros [= <-] Hq2 Hne x x' Hx Hx'.
      apply elem_of_app in Hx as [Hx|Hx].
      * eapply (H4 n b q n2 b2 q2); eauto.
      * apply list_elem_of_singleton in Hx. subst x.
        intros Heq. by eapply (Hnew n2 b2 q2 x').
    + rewrite Hnw. intros Hq1 [= <-] Hne x x' Hx Hx'.
      apply elem_of_app in Hx' as [Hx'|Hx'].
      * eapply (H4 n1 b1 q1 n b q); eauto.
      * apply list_elem_of_singleton in Hx'. subst x'.
        by eapply (Hnew n1 b1 q1 x).
    + apply H4.
Qed.

(** The head of the queue at [(n, b)] leaves it for the finished set. *)
Lemma Ident_finish n b r r' rest s :
  Ident s -> queue n b s = Some (r :: rest) -> pack_oid r' = pack_oid r ->
  Ident (set_finished (Set_add r') (put_queue n b (Some rest) s)) /\
  Set_add r' (finished s) = finished s ++ [r'].
Proof.
  intros HI Hq Ho.
  pose proof (Ident_shift _ _ _ _ HI Hq) as [H1 H2 H3 H4]. simpl in *.
  destruct HI as [G1 G2 G3 G4].
  assert (pack_oid r < fresh s /\ pack_oid r ∉ map pack_oid (finished s)) as [Hlt Hnot].
  { specialize (G2 _ _ _ Hq). by inversion G2. }
  assert (Set_add r' (finished s) = finished s ++ [r']) as Hadd.
  { unfold Set_add. destruct (existsb _ (finished s)) eqn:He; [|done].
    apply existsb_oid_true in He. by rewrite Ho in He. }
  split; [|done].
  assert (forall n' b' q' p', queue n' b' (put_queue n b (Some rest) s) = Some q' ->
            p' ∈ q' -> pack_oid p' ≠ pack_oid r) as Hother.
  { intros n' b' q' p'. rewrite queue_put_queue. case_decide as Hc.
    - destruct (networks s !! n); [|done]. intros [= <-] Hp'.
      specialize (G3 _ _ _ Hq). simpl in G3. inversion G3 as [|? ? Hn _]; subst.
      intros Heq. apply Hn. rewrite <- Heq. apply list_elem_of_fmap. eauto.
    - intros Hq' Hp' Heq. eapply (G4 n' b' q' n b (r :: rest)); eauto.
      + intros [= -> ->]. tauto.
      + by left. }
  split; simpl.
  - rewrite Hadd. apply Forall_app. split; [done|].
    constructor; [|constructor]. by rewrite Ho.
  - intros n' b' q' Hq'. rewrite Hadd, map_app. simpl.
    apply Forall_forall. intros p Hp. specialize (H2 _ _ _ Hq').
    rewrite Forall_forall in H2. destruct (H2 _ Hp) as [? Hnp]. split; [done|].
    rewrite not_elem_of_app. split; [done|].
    rewrite list_elem_of_singleton, Ho. by eapply Hother.
  - apply H3.
  - apply H4.
Qed.

Lemma initial_Ident s : initial s -> Ident s.
Proof.
  intros [Hf Hq].
  assert (forall n b q, queue n b s = Some q -> False) as Hno.
  { intros n b q [nw [Hn Hb]]%queue_Some.
    rewrite (Hq _ _ Hn), lookup_empty in Hb. done. }
  split.
  - rewrite Hf. constructor.
  - intros n b q H. by destruct (Hno _ _ _ H).
  - intros n b q H. by destruct (Hno _ _ _ H).
  - intros n b q n' b' q' H. by destruct (Hno _ _ _ H).
Qed.

Lemma Ident_frame s s' :
  networks s' = networks s -> finished s' = finished s -> fresh s' = fresh s ->
  Ident s -> Ident s'.
Proof.
  intros Hn Hf Hfr. apply Ident_shrinks, shrinks_frame; [done..|lia].
Qed.

Lemma presI_emit x sig : pres Ident (emit x sig).
Proof. apply pres_modify. intros s. by apply Ident_frame. Qed.

Lemma presI_emitAt n b i sig : pres Ident (emitAt n b i sig).
Proof.
  unfold emitAt. apply pres_get. intros s HI.
  unfold mbind, M_bind.
  destruct (queue n b s) as [q|] eqn:Hq; simpl; [|done].
  destruct (q !! i) as [p|] eqn:Hi; simpl; [|done].
  destruct (pack_xdcc p) as [x|] eqn:Hx; simpl; [|done].
  apply (Ident_frame
           (put_queue n b (Some (<[i := with_xdcc (Some (receive sig x)) p]> q)) s));
    [done..|].
  by eapply Ident_insert.
Qed.

Lemma presI_persistShift n b : pres Ident (persistShift n b).
Proof. apply pres_modify. intros s. by apply Ident_frame. Qed.

Lemma presI_persistPush n b e : pres Ident (persistPush n b e).
Proof. apply pres_modify. intros s. by apply Ident_frame. Qed.

Lemma presI_advance n b xdcc : pres Ident (advance n b xdcc).
Proof.
  destruct xdcc as [|p l]; simpl.
  - apply pres_modify. intros s. apply Ident_shrinks, shrinks_put_queue_None.
  - apply pres_bind; [apply presI_emitAt | intros; apply pres_ret].
Qed.

Lemma presI_addDownload id dontPersist cb : pres Ident (addDownload id dontPersist cb).
Proof. apply pres_modify. intros s. by apply Ident_frame. Qed.

Ltac presI_step :=
  first
    [ apply pres_ret | apply pres_throw | apply pres_deref | apply presI_emit
    | apply presI_persistShift | apply presI_persistPush | apply presI_advance
    | apply presI_addDownload | apply presI_emitAt
    | apply pres_bind; [|intros ?] ].

Lemma presI_xdccConnect dbpack fileName : pres Ident (xdccConnect dbpack fileName).
Proof.
  unfold xdccConnect. apply pres_get. intros s HI.
  apply pres_bind; [apply pres_deref | intros nw | done].
  destruct (_ && _); repeat presI_step.
Qed.

Lemma Ident_shift_lookup n b xdcc s nw :
  Ident s -> networks s !! n = Some nw -> nw_xdcc nw !! b = Some xdcc ->
  Ident (put_queue n b (Some (tail xdcc)) s).
Proof. intros HI Hn Hb. apply Ident_shift; [done|]. apply queue_Some. eauto. Qed.

Lemma presI_xdccProgress dbpack status : pres Ident (xdccProgress dbpack status).
Proof.
  unfold xdccProgress. apply pres_get. intros s HI.
  unfold mbind at 1, M_bind at 1.
  destruct (networks s !! pack_network dbpack) as [nw|] eqn:Hn; simpl; [|done].
  destruct (String.eqb status "canceled"); [|done].
  unfold mbind at 1, M_bind at 1.
  destruct (nw_xdcc nw !! pack_bot dbpack) as [xdcc|] eqn:Hb; simpl; [|done].
  unfold mbind at 1, M_bind at 1. simpl.
  match goal with |- Ident (state_of (?m _)) => assert (pres Ident m) as Hrest end.
  { repeat presI_step. }
  apply Hrest. eapply Ident_shift_lookup; eauto.
Qed.

Lemma presI_xdccComplete dbpack : pres Ident (xdccComplete dbpack).
Proof.
  unfold xdccComplete. apply pres_get. intros s HI.
  unfold mbind at 1, M_bind at 1.
  destruct (networks s !! pack_network dbpack) as [nw|] eqn:Hn; simpl; [|done].
  unfold mbind at 1, M_bind at 1.
  destruct (nw_xdcc nw !! pack_bot dbpack) as [xdcc|] eqn:Hb; simpl; [|done].
  unfold mbind at 1, M_bind at 1. simpl.
  pose proof (Ident_shift_lookup _ _ _ _ _ HI Hn Hb) as HI1.
  unfold mbind at 1, M_bind at 1.
  destruct xdcc as [|request rest]; simpl; [done|].
  unfold mbind at 1, M_bind at 1.
  destruct (pack_xdcc request) as [x|]; simpl; [|done].
  unfold mbind at 1, M_bind at 1. simpl.
  match goal with |- Ident (state_of (?m _)) => assert (pres Ident m) as Hrest end.
  { repeat presI_step. }
  apply Hrest.
  assert (queue (pack_network dbpack) (pack_bot dbpack) s = Some (request :: rest))
    as Hq by (apply queue_Some; eauto).
  by destruct (Ident_finish _ _ request
                 (with_xdcc None (with_notices (Some (ax_notices x)) request))
                 _ _ HI Hq eq_refl) as [H _].
Qed.

Lemma presI_xdccError dbpack : pres Ident (xdccError dbpack).
Proof.
  unfold xdccError. apply pres_get. intros s HI.
  unfold mbind at 1, M_bind at 1.
  destruct (networks s !! pack_network dbpack) as [nw|] eqn:Hn; simpl; [|done].
  unfold mbind at 1, M_bind at 1.
  destruct (nw_xdcc nw !! pack_bot dbpack) as [xdcc|] eqn:Hb; simpl; [|done].
  unfold mbind at 1, M_bind at 1. simpl.
  match goal with |- Ident (state_of (?m _)) => assert (pres Ident m) as Hrest end.
  { repeat presI_step. }
  apply Hrest. eapply Ident_shift_lookup; eauto.
Qed.

Lemma Ident_default_queue n b s nw :
  Ident s -> networks s !! n = Some nw ->
  Ident (put_queue n b (Some (default [] (nw_xdcc nw !! b))) s).
Proof.
  intros HI Hn. destruct (nw_xdcc nw !! b) as [q|] eqn:Hb; simpl.
  - assert (queue n b s = Some q) as Hq by (apply queue_Some; eauto).
    apply Ident_put_queue_sub; [done | by eapply id_nodup | eauto].
  - apply Ident_put_queue_sub; [done | constructor |].
    intros p Hp. by apply elem_of_nil in Hp.
Qed.

Lemma presI_addDownload_continue t : pres Ident (addDownload_continue t).
Proof.
  unfold addDownload_continue. apply pres_get. intros s HI.
  destruct (db s (task_id t)) as [|[pack|]];
    [by apply pres_finish| |by apply pres_finish].
  destruct (networks s !! doc_network pack) as [nw|] eqn:Hn;
    [|by apply pres_finish].
  set (xdcc := default [] (nw_xdcc nw !! doc_bot pack)).
  pose proof (Ident_default_queue _ (doc_bot pack) _ _ HI Hn) as HI1.
  fold xdcc in HI1.
  unfold mbind at 1, M_bind at 1. simpl.
  destruct (queued (doc_id pack) xdcc) eqn:Hq; [by apply pres_finish|].
  unfold mbind at 1, M_bind at 1. simpl.
  unfold mbind at 1, M_bind at 1. simpl.
  match goal with |- Ident (state_of (?m ?s')) =>
    assert (pres Ident m) as Hrest; [|apply Hrest] end.
  - apply pres_bind.
    + destruct (Nat.eqb _ 1); [apply presI_emitAt | apply pres_ret].
    + intros x. apply pres_bind; [|intros ?; apply pres_ret].
      destruct (task_dontPersist t); [apply pres_ret | apply presI_persistPush].
  - apply (Ident_enqueue _ _ xdcc _ _ HI1); [|done].
    by erewrite queue_put_queue_eq.
Qed.

Lemma presI_dbCallback : pres Ident dbCallback.
Proof.
  unfold dbCallback. apply pres_get. intros s HI.
  destruct (pending s) as [|t rest]; [done|].
  match goal with |- Ident (state_of (?m _)) =>
    assert (pres Ident m) as Hrest; [|by apply Hrest] end.
  apply pres_bind; [|intros ?; apply presI_addDownload_continue].
  apply pres_modify. intros s'. by apply Ident_frame.
Qed.

Lemma presI_cancelDownload network bot id cb :
  pres Ident (cancelDownload network bot id cb).
Proof.
  unfold cancelDownload. apply pres_get. intros s HI.
  destruct (networks s !! network) as [nw|]; [|by apply pres_hand].
  destruct (nw_xdcc nw !! bot) as [[|p0 xdccs]|];
    [by apply pres_hand| |by apply pres_hand].
  destruct (findIndex id (p0 :: xdccs)) as [i|]; [|by apply pres_hand].
  match goal with |- Ident (state_of (?m _)) =>
    assert (pres Ident m) as Hrest; [|by apply Hrest] end.
  apply pres_bind; [apply pres_deref | intros p].
  apply pres_bind; [apply pres_deref | intros x].
  apply pres_bind.
  { destruct (negb _); apply presI_emitAt. }
  intros x'. apply pres_get. intros s' HI'.
  unfold mbind, M_bind. simpl. apply pres_hand.
  destruct (queue network bot s') as [q|] eqn:Hq; simpl.
  - by apply Ident_remove.
  - eapply Ident_shrinks; [apply shrinks_put_queue_None | done].
Qed.

Lemma presI_addNetwork generated network hostname opts :
  pres Ident (addNetwork generated network hostname opts).
Proof.
  unfold addNetwork. apply pres_get. intros s HI.
  destruct network; try done.
  destruct (bool_decide _); [done|].
  destruct opts as [opts|]; [|done].
  unfold mbind at 1, M_bind at 1. simpl.
  destruct (Session.new _ _ _) as [e|irc]; [done|].
  unfold mbind, M_bind. simpl.
  eapply Ident_frame; [reflexivity..|].
  eapply Ident_shrinks; [apply shrinks_insert_network | done].
Qed.

Lemma presI_removeNetwork network flush cb : pres Ident (removeNetwork network flush cb).
Proof.
  unfold removeNetwork. apply pres_get. intros s HI.
  destruct (networks s !! network) as [nw|]; [|done].
  destruct (Nat.ltb _ _); [done|].
  unfold mbind, M_bind. simpl.
  match goal with |- context [if ?b then _ else _] => destruct b end; simpl.
  - eapply Ident_frame; [reflexivity..|].
    eapply Ident_shrinks; [apply shrinks_set_irc | done].
  - eapply Ident_shrinks; [apply shrinks_set_irc | done].
Qed.

Lemma presI_removeNetwork_done network err cb :
  pres Ident (removeNetwork_done network err cb).
Proof.
  unfold removeNetwork_done. apply pres_bind; [|intros ?; apply pres_hand].
  destruct err; [apply pres_ret|].
  intros s HI. unfold mbind, M_bind. simpl.
  eapply Ident_frame; [reflexivity..|].
  eapply Ident_shrinks; [apply shrinks_delete_network | done].
Qed.

Lemma Ident_engineReport n b i status notices s :
  Ident s -> Ident (engineReport n b i status notices s).
Proof.
  intros HI. unfold engineReport.
  destruct (queue n b s) as [q|] eqn:Hq; [|done].
  destruct (q !! i) as [p|] eqn:Hi; [|done].
  by eapply Ident_insert.
Qed.

Lemma run_Ident a s : Ident s -> Ident (run a s).
Proof.
  intros HI. destruct a; simpl.
  - by apply presI_addNetwork.
  - by apply presI_removeNetwork.
  - by apply presI_removeNetwork_done.
  - by apply presI_addDownload.
  - by apply presI_dbCallback.
  - by apply presI_cancelDownload.
  - by apply presI_xdccConnect.
  - by apply presI_xdccProgress.
  - done.
  - by apply presI_xdccComplete.
  - by apply presI_xdccError.
  - by apply Ident_engineReport.
  - eapply Ident_shrinks; [apply shrinks_set_irc | done].
  - apply (Ident_frame (set_networks (alter (set_irc f) network) s)); [done..|].
    eapply Ident_shrinks; [apply shrinks_set_irc | done].
  - by apply (Ident_frame s).
  - by apply (Ident_frame s).
Qed.

Lemma reachable_Ident s : reachable s -> Ident s.
Proof.
  induction 1 as [s H|a s _ IH]; [by apply initial_Ident | by apply run_Ident].
Qed.

(** ** At most one active request, and only at the head *)

(** C1: in every state the orchestrator can be observed in, between two
    handler invocations, each (network, bot) queue holds at most one request
    that has received a start signal, and such a request is the head of its
    queue. *)
Theorem one_active_at_head (s : State) (network bot : string) (q : list Pack) :
  reachable s ->
  queue network bot s = Some q ->
  length (List.filter active q) <= 1 /\
  forall i p, q !! i = Some p -> active p = true -> i = 0.
Proof.
  intros Hr Hq. apply reachable_Inv in Hr.
  destruct (Inv_queue _ _ _ _ Hr Hq) as [_ _ Hidle _]. split.
  - destruct q as [|p0 q]; simpl in *; [lia|].
    rewrite (filter_idle _ Hidle). destruct (active p0); simpl; lia.
  - intros [|j] p Hi Hp; [done|]. destruct q as [|p0 q]; [done|]. simpl in *.
    rewrite Forall_lookup in Hidle. specialize (Hidle _ _ Hi). congruence.
Qed.

(** ** Running the handlers *)

Lemma emitAt_run n b i sig s q p x :
  queue n b s = Some q -> q !! i = Some p -> pack_xdcc p = Some x ->
  emitAt n b i sig s =
  Ok (receive sig x)
     (set_emitted (fun l => l ++ [(ax_id x, sig)])
        (put_queue n b (Some (<[i := with_xdcc (Some (receive sig x)) p]> q)) s)).
Proof.
  intros Hq Hi Hx. unfold emitAt, mbind, M_bind, get. simpl.
  rewrite Hq. simpl. rewrite Hi. simpl. rewrite Hx. reflexivity.
Qed.

Lemma persistShift_run n b s :
  persistShift n b s =
  Ok tt (set_sc_dl (fun dl =>
           Config.save (Config.set (dlKey n b)
             (tail (default [] (Config.get (dlKey n b) dl))) dl)) s).
Proof. reflexivity. Qed.

(** The state after the [shift], and then the shared advancement step. *)
Lemma advance_run n b p rest s :
  Inv s -> queue n b s = Some (p :: rest) ->
  forall s1,
    networks s1 = networks (put_queue n b (Some rest) s) ->
    exists s2,
      advance n b rest s1 = Ok tt s2 /\
      finished s2 = finished s1 /\ sc_dl s2 = sc_dl s1 /\ pending s2 = pending s1 /\
      (match rest with
       | [] => queue n b s2 = None /\ emitted s2 = emitted s1
       | next :: rest' =>
           exists y, pack_xdcc next = Some y /\
             queue n b s2 = Some (with_xdcc (Some (receive Start y)) next :: rest') /\
             emitted s2 = emitted s1 ++ [(ax_id y, Start)]
       end) /\
      db s2 = db s1 /\ fresh s2 = fresh s1 /\
      (forall n', is_Some (networks s2 !! n') <-> is_Some (networks s1 !! n')) /\
      (forall n' b', (n, b) ≠ (n', b') -> queue n' b' s2 = queue n' b' s1).
Proof.
  intros HI Hq s1 Hs1.
  destruct (queue_network _ _ _ _ Hq) as [nw Hnw].
  assert (queue n b s1 = Some rest) as Hq1.
  { rewrite (queue_frame _ _ _ _ Hs1). by erewrite queue_put_queue_eq. }
  destruct (queue_network _ _ _ _ Hq1) as [nw1 Hnw1].
  destruct rest as [|next rest'].
  - eexists. split; [reflexivity|]. simpl. do 3 (split; [done|]).
    split; [split; [by erewrite queue_put_queue_eq | done]|].
    do 2 (split; [done|]). split.
    + intros n'. apply is_Some_put_queue.
    + intros n' b' Hne. by apply queue_put_queue_ne.
  - assert (is_Some (pack_xdcc next)) as [y Hy].
    { destruct (Inv_queue _ _ _ _ HI Hq) as [_ Hh _ _].
      inversion Hh as [|? ? _ Hh']. by inversion Hh'. }
    simpl. unfold mbind, M_bind.
    erewrite emitAt_run by eauto. simpl.
    eexists. split; [reflexivity|]. simpl. do 3 (split; [done|]). split.
    { exists y. split; [done|]. split; [|done].
      match goal with
      | |- queue _ _ (set_emitted ?f ?s0) = _ =>
          rewrite (queue_frame s0 (set_emitted f s0)) by reflexivity
      end.
      by erewrite queue_put_queue_eq. }
    do 2 (split; [done|]). split.
    + intros n'. apply is_Some_put_queue.
    + intros n' b' Hne.
      match goal with
      | |- queue _ _ (set_emitted ?f ?s0) = _ =>
          rewrite (queue_frame s0 (set_emitted f s0)) by reflexivity
      end.
      by apply queue_put_queue_ne.
Qed.

(** The waterfall of [addDownload] when the document store answers with a
    pack-offer of a registered network that is not queued yet. *)
Lemma addDownload_continue_run t s doc q :
  db s (task_id t) = DbItem (Some doc) ->
  is_Some (networks s !! doc_network doc) ->
  q = default [] (queue (doc_network doc) (doc_bot doc) s) ->
  queued (doc_id doc) q = false ->
  exists p s',
    addDownload_continue t s = Ok (call (task_cb t) (CallResult p)) s' /\
    pack_id p = doc_id doc /\ pack_network p = doc_network doc /\
    pack_bot p = doc_bot doc /\ pack_name p = doc_name doc /\
    pack_oid p = fresh s /\
    active p = bool_decide (q = []) /\
    queue (doc_network doc) (doc_bot doc) s' = Some (q ++ [p]) /\
    finished s' = finished s /\
    emitted s' =
      emitted s ++ (if bool_decide (q = []) then [(fresh s, Start)] else []) /\
    sc_dl s' =
      (if task_dontPersist t then sc_dl s
       else Config.save
              (Config.set (dlKey (doc_network doc) (doc_bot doc))
                 (pendingList (doc_network doc) (doc_bot doc) s
                    ++ [mkDlEntry (doc_id doc) (doc_name doc)])
                 (sc_dl s))).
Proof.
  intros Hdb [nw Hnw] -> Hq.
  set (n := doc_network doc) in *. set (b := doc_bot doc) in *.
  set (q := default [] (queue n b s)) in *.
  set (x0 := mkAxdcc (fresh s) "created" [] []).
  set (p0 := mkPack (fresh s) (doc_id doc) n b (doc_name doc) (Some x0) None).
  set (s1 := put_queue n b (Some (q ++ [p0])) (set_fresh S (put_queue n b (Some q) s))).
  assert (queue n b s1 = Some (q ++ [p0])) as Hq1.
  { assert (is_Some (networks (set_fresh S (put_queue n b (Some q) s)) !! n))
      as [nw' Hnw'].
    { change (is_Some (networks (put_queue n b (Some q) s) !! n)).
      apply is_Some_put_queue. eauto. }
    unfold s1. by erewrite queue_put_queue_eq. }
  destruct t as [tid dp tcb]. simpl in *.
  unfold addDownload_continue, mbind, M_bind, get. simpl.
  rewrite Hdb. fold n b. rewrite Hnw. simpl.
  rewrite (queue_default _ _ _ _ Hnw). fold q. rewrite Hq. simpl.
  fold x0 p0 s1.
  destruct q as [|p1 l] eqn:Eq.
  - simpl. erewrite (emitAt_run n b 0 Start s1 [p0] p0 x0) by done. simpl.
    exists (with_xdcc (Some (receive Start x0)) p0).
    assert (is_Some (networks s1 !! n)) as [nw1 Hnw1] by by eapply queue_network.
    destruct dp; simpl; eexists; (split; [reflexivity|]);
      do 6 (split; [done|]); (split; [|done]);
      queue_frame; by erewrite queue_put_queue_eq.
  - assert (Nat.eqb (length ((p1 :: l) ++ [p0])) 1 = false) as ->.
    { apply Nat.eqb_neq. simpl. rewrite length_app. simpl. lia. }
    simpl. exists p0.
    destruct dp; simpl; eexists; (split; [reflexivity|]);
      do 6 (split; [done|]); (split; [exact Hq1|]);
      (split; [done|]); (split; [|done]); simpl; by rewrite app_nil_r.
Qed.

(** ** The complete event *)

(** C2: a complete event delivered for the head request of a (network, bot)
    queue moves that request into the finished set, where it then occurs
    exactly once, carrying the notices its transfer handle had at that
    moment and no handle any more; the request is gone from the queue; the
    queue was popped once: its new head, if there is one, is sent the start
    signal, otherwise the per-bot entry is deleted; and the head of the
    persisted pending-list is removed and the list saved. *)
Theorem complete_moves_head_to_finished (s : State) (dbpack request : Pack)
    (rest : list Pack) :
  let network := pack_network dbpack in
  let bot := pack_bot dbpack in
  reachable s ->
  queue network bot s = Some (request :: rest) ->
  exists x fin s',
    pack_xdcc request = Some x /\
    xdccComplete dbpack s = Ok tt s' /\
    finished s' = finished s ++ [fin] /\
    List.filter (same_object request) (finished s') = [fin] /\
    pack_id fin = pack_id request /\
    pack_notices fin = Some (ax_notices x) /\
    pack_xdcc fin = None /\
    (forall q, queue network bot s' = Some q ->
       (pack_id request ∉ map pack_id q) /\ (pack_oid request ∉ map pack_oid q)) /\
    (match rest with
     | [] => queue network bot s' = None /\ emitted s' = emitted s
     | next :: rest' =>
         exists y, pack_xdcc next = Some y /\
           queue network bot s' =
             Some (with_xdcc (Some (receive Start y)) next :: rest') /\
           emitted s' = emitted s ++ [(ax_id y, Start)]
     end) /\
    Config.get (dlKey network bot) (sc_dl s') = Some (tail (pendingList network bot s)) /\
    disk (sc_dl s') = mem (sc_dl s').
Proof.
  intros network bot Hr Hq.
  pose proof (reachable_Inv _ Hr) as HI. pose proof (reachable_Ident _ Hr) as HId.
  destruct (Inv_head_handle _ _ _ _ _ HI Hq) as [x Hx].
  set (fin := with_xdcc None (with_notices (Some (ax_notices x)) request)).
  assert (pack_oid fin = pack_oid request) as Hoid by reflexivity.
  destruct (Ident_finish _ _ request fin _ _ HId Hq Hoid) as [_ Hadd].
  set (s1 := set_finished (Set_add fin) (put_queue network bot (Some rest) s)).
  destruct (advance_run _ _ _ _ _ HI Hq s1 eq_refl) as (s2 & Hadv & Hf2 & Hdl2 & _ & Hrest & _).
  exists x, fin. eexists.
  split; [done|]. split.
  { apply queue_Some in Hq as (nw & Hnw & Hb).
    unfold xdccComplete, mbind, M_bind, get. simpl.
    fold network bot. rewrite Hnw. simpl. rewrite Hb. simpl. rewrite Hx. simpl.
    fold fin. fold s1. rewrite Hadv. apply persistShift_run. }
  simpl. rewrite Hf2, Hdl2. simpl. rewrite Hadd.
  split; [done|]. split.
  { rewrite <- Hadd.
    change (same_object request) with (fun p => Nat.eqb (pack_oid p) (pack_oid fin)).
    apply filter_oid_Set_add. by destruct HI. }
  do 3 (split; [done|]). split.
  { intros q Hq'.
    assert (exists l, request :: rest = request :: l /\
              (pack_id <$> q) = (pack_id <$> l) /\ (pack_oid <$> q) = (pack_oid <$> l))
      as (l & [= <-] & Hids & Hoids).
    { change (queue network bot s2 = Some q) in Hq'.
      destruct rest as [|next rest'].
      - destruct Hrest as [Hnone _]. congruence.
      - destruct Hrest as (y & Hy & Hq2 & _).
        rewrite Hq2 in Hq'. injection Hq' as <-. eauto. }
    change (map pack_id q) with (pack_id <$> q).
    change (map pack_oid q) with (pack_oid <$> q).
    rewrite Hids, Hoids. split.
    - by eapply Inv_head_absent.
    - pose proof (id_nodup _ HId _ _ _ Hq) as Hnd. simpl in Hnd. by inversion Hnd. }
  split.
  { destruct rest as [|next rest']; [done|].
    destruct Hrest as (y & Hy & Hq2 & He). exists y. done. }
  unfold Config.get. simpl. rewrite lookup_insert_eq. done.
Qed.

(** ** The error event *)


(** ** Cancelling a download *)

Lemma cancelDownload_run s network bot id q i p :
  Inv s -> queue network bot s = Some q -> q !! i = Some p -> pack_id p = id ->
  exists x s',
    pack_xdcc p = Some x /\
    cancelDownload network bot id CbFunction s =
      Ok (inr (receive (cancelSignal x) x)) s' /\
    queue network bot s' = Some (delete i q) /\
    emitted s' = emitted s ++ [(ax_id x, cancelSignal x)] /\
    finished s' = finished s /\ sc_dl s' = sc_dl s /\ sc_nw s' = sc_nw s /\
    pending s' = pending s /\
    (forall n', is_Some (networks s' !! n') <-> is_Some (networks s !! n')) /\
    (forall n' b', (network, bot) ≠ (n', b') -> queue n' b' s' = queue n' b' s).
Proof.
  intros HI Hq Hi Hid.
  pose proof (Inv_queue _ _ _ _ HI Hq) as [Hids Hh _ _].
  assert (is_Some (pack_xdcc p)) as [x Hx].
  { rewrite Forall_lookup in Hh. eauto. }
  pose proof Hq as (nw & Hnw & Hb)%queue_Some.
  set (sig := cancelSignal x).
  set (q1 := <[i := with_xdcc (Some (receive sig x)) p]> q).
  set (s1 := set_emitted (fun l => l ++ [(ax_id x, sig)])
               (put_queue network bot (Some q1) s)).
  assert (queue network bot s1 = Some q1) as Hq1.
  { unfold s1. queue_frame. by erewrite queue_put_queue_eq. }
  exists x, (put_queue network bot (Some (delete i q)) s1).
  split; [done|]. split.
  { unfold cancelDownload, mbind, M_bind, get. simpl.
    rewrite Hnw, Hb.
    assert (findIndex id q = Some i) as Hfind by by eapply findIndex_lookup.
    destruct q as [|p0 q0]; [done|]. rewrite Hfind. simpl.
    rewrite Hi. simpl. rewrite Hx. simpl.
    assert (emitAt network bot i sig s = Ok (receive sig x) s1) as Hemit
      by by apply emitAt_run.
    unfold sig, cancelSignal in *.
    destruct (negb (String.eqb (ax_status x) "created")); rewrite Hemit; simpl;
      rewrite Hq1; simpl; unfold q1; rewrite <- Hid;
      by erewrite remove_insert_delete. }
  destruct (queue_network _ _ _ _ Hq1) as [nw1 Hnw1].
  split; [by erewrite queue_put_queue_eq|].
  do 5 (split; [done|]). split.
  - intros n'. rewrite is_Some_put_queue. unfold s1. simpl.
    apply is_Some_put_queue.
  - intros n' b' Hne. rewrite queue_put_queue_ne by done. unfold s1. queue_frame.
    by apply queue_put_queue_ne.
Qed.

Lemma cancelSignal_head s network bot q i p x :
  Inv s -> queue network bot s = Some q -> q !! i = Some p -> pack_xdcc p = Some x ->
  cancelSignal x =
  if bool_decide (i = 0 /\ active p = true /\ ax_status x ≠ "created")
  then Cancel else Kill.
Proof.
  intros HI Hq Hi Hx. destruct (Inv_queue _ _ _ _ HI Hq) as [_ _ Hidle Hc].
  unfold cancelSignal.
  destruct (String.eqb_spec (ax_status x) "created") as [Hs|Hs]; simpl.
  - rewrite bool_decide_eq_false_2; [done|]. tauto.
  - rewrite bool_decide_eq_true_2; [done|].
    assert (active p = true) as Hact.
    { rewrite Forall_lookup in Hc. specialize (Hc _ _ Hi x Hx).
      unfold active. rewrite Hx. destruct (started x); [done|]. by destruct Hs; auto. }
    split; [|done]. destruct i as [|j]; [done|].
    destruct q as [|p0 q]; [done|]. simpl in *.
    rewrite Forall_lookup in Hidle. specialize (Hidle _ _ Hi). congruence.
Qed.

(** C7: [cancelDownload(network, bot, id)], called with a callback, reports
    an error to it, and changes nothing, when the network is unknown, when
    the bot has no queue, and when no request with that id is in the bot's
    queue.  Otherwise it takes
    exactly that request out of the queue, sends its transfer handle the
    cancel signal if the request is the active head of the queue and past
    the [created] phase and the kill signal in every other case, and hands
    the handle to the callback.  It sends no other signal, in particular no
    start signal, and leaves every other request, queue and the finished
    set as they are. *)
Theorem cancelDownload_removes_and_signals (s : State) (network bot id : string) :
  reachable s ->
  (networks s !! network = None ->
   cancelDownload network bot id CbFunction s = Ok (inl "Network not found") s) /\
  (is_Some (networks s !! network) -> queue network bot s = None ->
   cancelDownload network bot id CbFunction s =
     Ok (inl "No download pending from bot") s) /\
  (forall q, queue network bot s = Some q -> id ∉ map pack_id q ->
   cancelDownload network bot id CbFunction s =
     Ok (inl (match q with
              | [] => "No download pending from bot"
              | _ :: _ => "Pack not found"
              end)) s) /\
  (forall q i p,
     queue network bot s = Some q -> q !! i = Some p -> pack_id p = id ->
     exists x s',
       pack_xdcc p = Some x /\
       let sig :=
         if bool_decide (i = 0 /\ active p = true /\ ax_status x ≠ "created")
         then Cancel else Kill in
       cancelDownload network bot id CbFunction s = Ok (inr (receive sig x)) s' /\
       queue network bot s' = Some (delete i q) /\
       emitted s' = emitted s ++ [(ax_id x, sig)] /\
       (forall n' b', (network, bot) ≠ (n', b') -> queue n' b' s' = queue n' b' s) /\
       finished s' = finished s).
Proof.
  intros Hr. pose proof (reachable_Inv _ Hr) as HI.
  split; [|split; [|split]].
  - intros Hn. unfold cancelDownload, mbind, M_bind, get. simpl. by rewrite Hn.
  - intros [nw Hn] Hq. unfold cancelDownload, mbind, M_bind, get. simpl.
    rewrite Hn. unfold queue in Hq. rewrite Hn in Hq. by rewrite Hq.
  - intros q (nw & Hn & Hb)%queue_Some Hid.
    unfold cancelDownload, mbind, M_bind, get. simpl.
    rewrite Hn, Hb. destruct q as [|p0 q0]; [done|].
    by rewrite (findIndex_None _ _ Hid).
  - intros q i p Hq Hi Hid.
    destruct (cancelDownload_run _ _ _ _ _ _ _ HI Hq Hi Hid)
      as (x & s' & Hx & Hrun & Hq' & He & Hf & _ & _ & _ & _ & Hothers).
    exists x, s'. split; [done|]. simpl.
    rewrite <- (cancelSignal_head _ _ _ _ _ _ _ HI Hq Hi Hx). done.
Qed.

Lemma removeNetwork_pending s network nw bot q flush cb :
  networks s !! network = Some nw -> nw_xdcc nw !! bot = Some q ->
  removeNetwork network flush cb s = Throw "downloads pending" s.
Proof.
  intros Hn Hb. unfold removeNetwork, mbind, M_bind, get. simpl. rewrite Hn.
  assert (size (nw_xdcc nw) ≠ 0) as Hsize.
  { apply (map_size_ne_0_lookup_2 _ bot). eauto. }
  destruct (Nat.ltb_spec 0 (size (nw_xdcc nw))); [done | lia].
Qed.

(** C10: when [cancelDownload] removes the last request of a bot's queue,
    the entry of that bot stays in the network's queue map, holding an
    empty array, and [removeNetwork] for that network afterwards is still
    refused with "downloads pending", although nothing is queued or
    active. *)
Theorem cancel_last_blocks_removeNetwork (s : State) (network bot id : string)
    (p : Pack) :
  reachable s ->
  queue network bot s = Some [p] ->
  pack_id p = id ->
  exists x s',
    cancelDownload network bot id CbFunction s = Ok (inr x) s' /\
    queue network bot s' = Some [] /\
    forall flush cb,
      removeNetwork network flush cb s' = Throw "downloads pending" s'.
Proof.
  intros Hr Hq Hid. pose proof (reachable_Inv _ Hr) as HI.
  destruct (cancelDownload_run _ _ _ _ [p] 0 p HI Hq eq_refl Hid)
    as (x & s' & Hx & Hrun & Hq' & _).
  exists (receive (cancelSignal x) x), s'.
  split; [done|]. split; [done|].
  intros flush cb. apply queue_Some in Hq' as (nw' & Hn' & Hb').
  by eapply removeNetwork_pending.
Qed.

(** ** Removing a network *)

Lemma removeNetwork_accepted s network nw flush cb :
  networks s !! network = Some nw -> nw_xdcc nw = ∅ ->
  exists s',
    removeNetwork network flush cb s = Ok tt s' /\
    networks s' !! network = Some (set_irc disconnect nw) /\
    sc_nw s' = sc_nw s.
Proof.
  intros Hn He. unfold removeNetwork, mbind, M_bind, get. simpl.
  rewrite Hn, He, map_size_empty. simpl.
  match goal with |- context [if ?b then _ else _] => destruct b end; simpl;
    eexists; (split; [reflexivity|]); simpl;
    by rewrite lookup_alter_eq, Hn.
Qed.

(** C5: [removeNetwork(name, flush)] throws when the name is not
    registered and when some queue of that network is non-empty, and it
    throws before it has changed anything: the state after the refusal is
    the state before it, so the network is still registered with its
    queues, its session has not been told to disconnect, no pack history is
    flushed and its persisted configuration is kept. *)
Theorem removeNetwork_refused (s : State) (network : string) (flush : optarg)
    (cb : callback) :
  (networks s !! network = None ->
   removeNetwork network flush cb s = Throw "unknown network" s) /\
  (forall bot p q,
     queue network bot s = Some (p :: q) ->
     removeNetwork network flush cb s = Throw "downloads pending" s /\
     let s' := state_of (removeNetwork network flush cb s) in
     networks s' = networks s /\ sc_nw s' = sc_nw s /\ flushed s' = flushed s).
Proof.
  split.
  - intros Hn. unfold removeNetwork, mbind, M_bind, get. simpl. by rewrite Hn.
  - intros bot p q (nw & Hn & Hb)%queue_Some.
    by rewrite (removeNetwork_pending _ _ _ _ _ flush cb Hn Hb).
Qed.

(** ** Registering a network *)

(** C6, as the code has it: [addNetwork(name, hostname, options)] throws
    when the name is not a string and when a network with that name is
    registered, and in both cases leaves the registry, the registered
    networks and the persisted configuration as they were.  Otherwise, for
    a hostname that is a string and an options object, it registers a new
    session under that name, with no queue, and persists and saves its
    hostname and options.  The empty string is a name like any other. *)
Theorem addNetwork_registers (s : State) (generated : string)
    (network hostname : jsval) (opts : option Opts) :
  (isString network = false ->
   addNetwork generated network hostname opts s = Throw "network must a string" s) /\
  (forall name,
     network = JStr name -> is_Some (networks s !! name) ->
     addNetwork generated network hostname opts s = Throw "network name not unique" s) /\
  (forall name host o,
     network = JStr name -> networks s !! name = None ->
     hostname = JStr host -> opts = Some o ->
     exists irc s',
       addNetwork generated network hostname opts s = Ok irc s' /\
       networks s' = <[name := mkNetwork irc name ∅]> (networks s) /\
       irc_hostname irc = host /\
       irc_nick irc = nickname generated o /\
       irc_status irc = "connecting" /\
       Config.get name (sc_nw s') =
         Some (mkNwConfig hostname (persisted_opts generated o)) /\
       disk (sc_nw s') = mem (sc_nw s')).
Proof.
  split; [|split].
  - intros Hs. destruct network; try done.
  - intros name -> Hn. unfold addNetwork, mbind, M_bind, get. simpl.
    by rewrite bool_decide_eq_true_2.
  - intros name host o -> Hn -> ->.
    unfold addNetwork, mbind, M_bind, get. simpl.
    rewrite bool_decide_eq_false_2 by (rewrite Hn; by intros [? ?]).
    simpl. do 2 eexists. split; [reflexivity|]. simpl.
    do 4 (split; [done|]). unfold Config.get. simpl.
    by rewrite lookup_insert_eq.
Qed.

(** ** The pending-list follows the queue where the code persists *)

Lemma pop_run n b p rest s s1 :
  Inv s -> queue n b s = Some (p :: rest) ->
  networks s1 = networks (put_queue n b (Some rest) s) ->
  exists s2,
    (advance n b rest;; persistShift n b) s1 = Ok tt s2 /\
    map entry (default [] (queue n b s2)) = map entry rest /\
    sc_dl s2 =
      Config.save (Config.set (dlKey n b) (tail (pendingList n b s1)) (sc_dl s1)).
Proof.
  intros HI Hq Hs1.
  destruct (advance_run _ _ _ _ _ HI Hq s1 Hs1)
    as (s2 & Hadv & _ & Hdl & _ & Hrest & _).
  eexists. split; [|split].
  - unfold mbind, M_bind. rewrite Hadv. apply persistShift_run.
  - queue_frame. destruct rest as [|next rest'].
    + by destruct Hrest as [-> _].
    + by destruct Hrest as (y & _ & -> & _).
  - simpl. by rewrite Hdl.
Qed.

Lemma pop_keeps_mirror n b p rest s s1 s2 :
  mirrors n b s -> queue n b s = Some (p :: rest) -> sc_dl s1 = sc_dl s ->
  map entry (default [] (queue n b s2)) = map entry rest ->
  sc_dl s2 =
    Config.save (Config.set (dlKey n b) (tail (pendingList n b s1)) (sc_dl s1)) ->
  mirrors n b s2.
Proof.
  intros [Hm _] Hq Hdl1 Hq2 Hdl2.
  assert (pendingList n b s2 = tail (pendingList n b s)) as Hp.
  { unfold pendingList at 1, Config.get. rewrite Hdl2. simpl.
    rewrite lookup_insert_eq. simpl. unfold pendingList. by rewrite Hdl1. }
  split.
  - rewrite Hp, Hm, Hq, Hq2. done.
  - rewrite Hp. rewrite Hdl2. simpl. rewrite lookup_insert_eq.
    unfold pendingList. by rewrite Hdl1.
Qed.

Lemma xdccComplete_keeps_mirror s dbpack request rest :
  let network := pack_network dbpack in
  let bot := pack_bot dbpack in
  Inv s -> queue network bot s = Some (request :: rest) ->
  mirrors network bot s ->
  mirrors network bot (state_of (xdccComplete dbpack s)).
Proof.
  intros network bot HI Hq Hm.
  destruct (Inv_head_handle _ _ _ _ _ HI Hq) as [x Hx].
  set (s1 := set_finished
               (Set_add (with_xdcc None (with_notices (Some (ax_notices x)) request)))
               (put_queue network bot (Some rest) s)).
  destruct (pop_run _ _ _ _ _ s1 HI Hq eq_refl) as (s2 & Hrun & Hq2 & Hdl2).
  assert (xdccComplete dbpack s = Ok tt s2) as ->.
  { pose proof Hq as (nw & Hnw & Hb)%queue_Some.
    unfold xdccComplete, mbind at 1 2 3 4 5 6 7, M_bind at 1 2 3 4 5 6 7, get. simpl.
    fold network bot. rewrite Hnw. simpl. rewrite Hb. simpl. rewrite Hx. simpl.
    exact Hrun. }
  by eapply (pop_keeps_mirror _ _ _ _ s s1).
Qed.

Lemma xdccError_keeps_mirror s dbpack request rest :
  let network := pack_network dbpack in
  let bot := pack_bot dbpack in
  Inv s -> queue network bot s = Some (request :: rest) ->
  mirrors network bot s ->
  mirrors network bot (state_of (xdccError dbpack s)).
Proof.
  intros network bot HI Hq Hm.
  destruct (Inv_head_handle _ _ _ _ _ HI Hq) as [x Hx].
  set (s1 := set_pending (fun l => l ++ [mkTask (pack_id request) false CbUndefined])
               (set_emitted (fun l => l ++ [(ax_id x, Kill)])
                  (put_queue network bot (Some rest) s))).
  destruct (pop_run _ _ _ _ _ s1 HI Hq eq_refl) as (s2 & Hrun & Hq2 & Hdl2).
  assert (xdccError dbpack s = Ok tt s2) as ->.
  { pose proof Hq as (nw & Hnw & Hb)%queue_Some.
    unfold xdccError, mbind at 1 2 3 4 5 6 7 8, M_bind at 1 2 3 4 5 6 7 8, get. simpl.
    fold network bot. rewrite Hnw. simpl. rewrite Hb. simpl. rewrite Hx. simpl.
    exact Hrun. }
  by eapply (pop_keeps_mirror _ _ _ _ s s1).
Qed.

Lemma xdccProgress_keeps_mirror s dbpack request rest :
  let network := pack_network dbpack in
  let bot := pack_bot dbpack in
  Inv s -> queue network bot s = Some (request :: rest) ->
  mirrors network bot s ->
  mirrors network bot (state_of (xdccProgress dbpack "canceled" s)).
Proof.
  intros network bot HI Hq Hm.
  set (s1 := put_queue network bot (Some rest) s).
  destruct (pop_run _ _ _ _ _ s1 HI Hq eq_refl) as (s2 & Hrun & Hq2 & Hdl2).
  assert (xdccProgress dbpack "canceled" s = Ok tt s2) as ->.
  { pose proof Hq as (nw & Hnw & Hb)%queue_Some.
    unfold xdccProgress, mbind at 1 2 3 4, M_bind at 1 2 3 4, get. simpl.
    fold network bot. rewrite Hnw. simpl. rewrite Hb. simpl.
    exact Hrun. }
  by eapply (pop_keeps_mirror _ _ _ _ s s1).
Qed.

Lemma addDownload_keeps_mirror t s doc :
  let network := doc_network doc in
  let bot := doc_bot doc in
  db s (task_id t) = DbItem (Some doc) ->
  is_Some (networks s !! network) ->
  queued (doc_id doc) (default [] (queue network bot s)) = false ->
  task_dontPersist t = false ->
  mirrors network bot s ->
  mirrors network bot (state_of (addDownload_continue t s)).
Proof.
  intros network bot Hdb Hn Hq Hdp [Hm _].
  destruct (addDownload_continue_run t s doc _ Hdb Hn eq_refl Hq)
    as (p & s' & -> & Hid & _ & _ & Hname & _ & _ & Hq' & _ & _ & Hdl).
  simpl. rewrite Hdp in Hdl.
  assert (pendingList network bot s' =
          pendingList network bot s ++ [mkDlEntry (doc_id doc) (doc_name doc)]) as Hp.
  { unfold pendingList at 1, Config.get. rewrite Hdl. simpl.
    by rewrite lookup_insert_eq. }
  split.
  - fold network bot in Hq'. rewrite Hp, Hq', Hm. simpl. rewrite map_app. simpl.
    unfold entry at 3. by rewrite Hid, Hname.
  - rewrite Hp, Hdl. simpl. by rewrite lookup_insert_eq.
Qed.

(** ** Size normalisation *)







(** ** Serialising and rebuilding a session *)

(** What [fromJSON] makes of the snapshot [toJSON] produces.  The hostname,
    the command sequence and the settings of the protocol client come back,
    the status is reset, the channels come back in reverse order; the
    nickname does not come back: [toJSON] files it under [opts.nick] and
    [fromJSON] looks for it in [json.nick], so the constructor asks the name
    generator for a new one. *)
Lemma fromJSON_toJSON (channelFromJSON : SlingChannel -> SlingChannel)
    (generated : string) (p : SlingIrc) :
  exists p',
    Session.fromJSON channelFromJSON generated (Some (Session.toJSON p)) = inr p' /\
    irc_hostname p' = irc_hostname p /\
    irc_commands p' = irc_commands p /\
    irc_status p' = "connecting" /\
    irc_nick p' = generated /\
    irc_chans p' =
      foldl (fun chans channel => Session.map_set (chan_name channel) channel chans) []
            (foldl (fun channels jChan => channelFromJSON jChan :: channels) []
                   (map snd (irc_chans p))).
Proof. eexists. split; [reflexivity|]. simpl. done. Qed.

Lemma foldl_unshift {A B} (f : A -> B) (l : list A) (acc : list B) :
  foldl (fun channels j => f j :: channels) acc l = rev (map f l) ++ acc.
Proof.
  revert acc. induction l as [|a l IH]; intros acc; simpl; [done|].
  by rewrite IH, <- app_assoc.
Qed.

Lemma map_set_new {V} k (v : V) m :
  k ∉ map fst m -> Session.map_set k v m = m ++ [(k, v)].
Proof.
  induction m as [|[k' v'] m IH]; simpl; [done|].
  rewrite not_elem_of_cons. intros [Hk Hm].
  destruct (String.eqb_spec k' k); [congruence|]. by rewrite IH.
Qed.

Lemma foldl_map_set (l : list SlingChannel) m :
  NoDup (map fst m ++ map chan_name l) ->
  foldl (fun chans channel => Session.map_set (chan_name channel) channel chans) m l =
  m ++ map (fun c => (chan_name c, c)) l.
Proof.
  revert m. induction l as [|c l IH]; intros m Hnd; simpl.
  - by rewrite app_nil_r.
  - simpl in Hnd. apply NoDup_app in Hnd as (Hm & Hdisj & Hl).
    inversion Hl as [|? ? Hc Hl']; subst.
    rewrite map_set_new by (intros Hin; apply (Hdisj _ Hin); by left).
    rewrite IH, <- app_assoc; [done|].
    rewrite map_app. simpl. rewrite <- app_assoc. simpl.
    apply NoDup_app. split; [done|]. split; [|by constructor].
    intros x Hx Hx'. by apply (Hdisj x).
Qed.

(** With a [SlingChannel.fromJSON] that keeps the name of a channel, the
    rebuilt session has the channels of the original, under the same
    names, in reverse order. *)
Lemma fromJSON_toJSON_channels (channelFromJSON : SlingChannel -> SlingChannel)
    (generated : string) (p p' : SlingIrc) :
  (forall c, chan_name (channelFromJSON c) = chan_name c) ->
  chans_wf p ->
  Session.fromJSON channelFromJSON generated (Some (Session.toJSON p)) = inr p' ->
  irc_chans p' =
    rev (map (fun kc => (fst kc, channelFromJSON (snd kc))) (irc_chans p)) /\
  map fst (irc_chans p') ≡ₚ map fst (irc_chans p).
Proof.
  intros Hname [Hnd Hkeys] Hrun.
  destruct (fromJSON_toJSON channelFromJSON generated p)
    as (p0 & Hrun0 & _ & _ & _ & _ & Hch).
  rewrite Hrun in Hrun0. injection Hrun0 as <-.
  assert (map chan_name (map channelFromJSON (map snd (irc_chans p))) =
          map fst (irc_chans p)) as Hnames.
  { rewrite !map_map. apply map_ext_Forall.
    eapply Forall_impl; [exact Hkeys|]. simpl. intros kc ->. apply Hname. }
  assert (irc_chans p' =
          rev (map (fun kc => (fst kc, channelFromJSON (snd kc))) (irc_chans p))) as Heq.
  { rewrite Hch, foldl_unshift, app_nil_r, foldl_map_set.
    - simpl. rewrite map_rev. f_equal. rewrite !map_map. apply map_ext_Forall.
      eapply Forall_impl; [exact Hkeys|]. simpl. intros kc ->. by rewrite Hname.
    - simpl. rewrite map_rev, Hnames. by rewrite <- Permutation_rev. }
  split; [done|].
  rewrite Heq, map_rev, map_map. simpl. symmetry. apply Permutation_rev.
Qed.

(** ** The theorems at concrete inputs *)

Lemma perform_reachable s l : reachable s -> reachable (Scenario.perform s l).
Proof.
  revert s. induction l as [|a l IH]; intros s Hs; simpl; [done|].
  apply IH. by apply reachable_step.
Qed.

Lemma empty_reachable db : reachable (Scenario.empty db).
Proof.
  apply reachable_initial. split; [done|]. intros n nw H.
  simpl in H. by rewrite lookup_empty in H.
Qed.

Lemma loaded_reachable : reachable Scenario.loaded.
Proof. apply perform_reachable, empty_reachable. Qed.

Lemma single_reachable : reachable Scenario.single.
Proof. apply perform_reachable, empty_reachable. Qed.


Lemma loaded_queue :
  queue "net" "bot" Scenario.loaded = Some [Scenario.pack_a; Scenario.pack_b].
Proof. vm_compute. reflexivity. Qed.

Lemma single_queue : queue "net" "bot" Scenario.single = Some [Scenario.pack_a].
Proof. vm_compute. reflexivity. Qed.


Lemma one_active_at_head_witness :
  length (List.filter active [Scenario.pack_a; Scenario.pack_b]) <= 1 /\
  forall i p, [Scenario.pack_a; Scenario.pack_b] !! i = Some p -> active p = true -> i = 0.
Proof.
  apply (one_active_at_head Scenario.loaded "net" "bot").
  - apply loaded_reachable.
  - vm_compute. reflexivity.
Defined.

Lemma complete_moves_head_to_finished_witness :
  reachable Scenario.loaded /\
  queue "net" "bot" Scenario.loaded = Some [Scenario.pack_a; Scenario.pack_b] /\
  exists fin s',
    xdccComplete Scenario.pack_a Scenario.loaded = Ok tt s' /\
    finished s' = finished Scenario.loaded ++ [fin] /\
    pack_id fin = "a" /\ pack_notices fin = Some [] /\ pack_xdcc fin = None /\
    Config.get "net:bot" (sc_dl s') = Some (tail (pendingList "net" "bot" Scenario.loaded)).
Proof.
  assert (reachable Scenario.loaded) as Hr by apply loaded_reachable.
  assert (queue "net" "bot" Scenario.loaded = Some [Scenario.pack_a; Scenario.pack_b])
    as Hq by (vm_compute; reflexivity).
  split; [exact Hr|]. split; [exact Hq|].
  destruct (complete_moves_head_to_finished Scenario.loaded Scenario.pack_a
              Scenario.pack_a [Scenario.pack_b] Hr Hq)
    as (x & fin & s' & Hx & Hrun & Hf & _ & Hid & Hn & Hh & _ & _ & Hdl & _).
  exists fin, s'. injection Hx as <-. repeat split; assumption.
Defined.



(** C4 at a concrete input: in the queue [a, b] of bot [bot], whose
    persisted pending-list is [a, b], [cancelDownload] removes the waiting
    request [b] from the queue and sends its handle the kill signal, while
    the pending-list, in memory and on disk, still lists [b]: it no longer
    lists the queued requests. *)
Theorem cancelDownload_leaves_pending_list :
  queue "net" "bot" Scenario.loaded = Some [Scenario.pack_a; Scenario.pack_b] /\
  mirrors "net" "bot" Scenario.loaded /\
  let s' := state_of (cancelDownload "net" "bot" "b" CbFunction Scenario.loaded) in
  queue "net" "bot" s' = Some [Scenario.pack_a] /\
  pendingList "net" "bot" s' = [mkDlEntry "a" "a.bin"; mkDlEntry "b" "b.bin"] /\
  disk (sc_dl s') !! "net:bot" = Some [mkDlEntry "a" "a.bin"; mkDlEntry "b" "b.bin"] /\
  emitted s' = emitted Scenario.loaded ++ [(1, Kill)] /\
  ~ mirrors "net" "bot" s'.
Proof.
  split; [vm_compute; reflexivity|]. split; [split; vm_compute; reflexivity|].
  repeat split; try (vm_compute; reflexivity).
  intros [H _]. vm_compute in H. discriminate H.
Qed.

Lemma removeNetwork_refused_witness :
  queue "net" "bot" Scenario.loaded = Some [Scenario.pack_a; Scenario.pack_b] /\
  removeNetwork "net" ArgUndefined CbFunction Scenario.loaded =
    Throw "downloads pending" Scenario.loaded.
Proof.
  assert (queue "net" "bot" Scenario.loaded = Some [Scenario.pack_a; Scenario.pack_b])
    as Hq by (vm_compute; reflexivity).
  split; [exact Hq|].
  apply (proj2 (removeNetwork_refused Scenario.loaded "net" ArgUndefined CbFunction)
           "bot" Scenario.pack_a [Scenario.pack_b] Hq).
Defined.

(** The claim C6 as written fails: the empty string is accepted as a name
    and a network is registered under it. *)
Lemma addNetwork_accepts_empty_name :
  exists irc s',
    addNetwork "nomi" (JStr "") (JStr "irc.example.org") (Some Scenario.options)
      (Scenario.empty Scenario.store) = Ok irc s' /\
    is_Some (networks s' !! "").
Proof. do 2 eexists. split; [vm_compute; reflexivity | vm_compute; eauto]. Qed.

Lemma addNetwork_registers_witness :
  networks (Scenario.empty Scenario.store) !! "net" = None /\
  exists irc s',
    addNetwork "nomi" (JStr "net") (JStr "irc.example.org") (Some Scenario.options)
      (Scenario.empty Scenario.store) = Ok irc s' /\
    networks s' = <["net" := mkNetwork irc "net" ∅]> ∅ /\
    irc_nick irc = "me".
Proof.
  assert (networks (Scenario.empty Scenario.store) !! "net" = None) as Hn
    by reflexivity.
  split; [exact Hn|].
  destruct (proj2 (proj2 (addNetwork_registers (Scenario.empty Scenario.store) "nomi"
              (JStr "net") (JStr "irc.example.org") (Some Scenario.options)))
              "net" "irc.example.org" Scenario.options eq_refl Hn eq_refl eq_refl)
    as (irc & s' & Hrun & Hnw & _ & Hnick & _).
  exists irc, s'. repeat split; assumption.
Defined.

Lemma cancelDownload_removes_and_signals_witness :
  reachable Scenario.loaded /\
  queue "net" "bot" Scenario.loaded = Some [Scenario.pack_a; Scenario.pack_b] /\
  exists x s',
    cancelDownload "net" "bot" "b" CbFunction Scenario.loaded =
      Ok (inr (receive Kill x)) s' /\
    queue "net" "bot" s' = Some [Scenario.pack_a] /\
    emitted s' = emitted Scenario.loaded ++ [(ax_id x, Kill)].
Proof.
  assert (reachable Scenario.loaded) as Hr by apply loaded_reachable.
  assert (queue "net" "bot" Scenario.loaded = Some [Scenario.pack_a; Scenario.pack_b])
    as Hq by (vm_compute; reflexivity).
  split; [exact Hr|]. split; [exact Hq|].
  destruct (proj2 (proj2 (proj2
              (cancelDownload_removes_and_signals Scenario.loaded "net" "bot" "b" Hr)))
              [Scenario.pack_a; Scenario.pack_b] 1 Scenario.pack_b Hq eq_refl eq_refl)
    as (x & s' & Hx & Hrun & Hq' & He & _).
  exists x, s'. repeat split; assumption.
Defined.

Lemma cancel_last_blocks_removeNetwork_witness :
  reachable Scenario.single /\
  queue "net" "bot" Scenario.single = Some [Scenario.pack_a] /\
  exists x s',
    cancelDownload "net" "bot" "a" CbFunction Scenario.single = Ok (inr x) s' /\
    queue "net" "bot" s' = Some [] /\
    removeNetwork "net" ArgUndefined CbFunction s' = Throw "downloads pending" s'.
Proof.
  assert (reachable Scenario.single) as Hr by apply single_reachable.
  assert (queue "net" "bot" Scenario.single = Some [Scenario.pack_a])
    as Hq by (vm_compute; reflexivity).
  split; [exact Hr|]. split; [exact Hq|].
  destruct (cancel_last_blocks_removeNetwork Scenario.single "net" "bot" "a"
              Scenario.pack_a Hr Hq eq_refl)
    as (x & s' & Hrun & Hq' & Hrm).
  exists x, s'. repeat split; try assumption. apply Hrm.
Defined.


Example scaleSize_100_K :
  Parser.scaleSize {["size" := JStr "100"; "sizeUnit" := JStr "K"]} =
  {["size" := JNumber (Num 102400)]}.
Proof. vm_compute. reflexivity. Qed.

Example scaleSize_1_M :
  Parser.scaleSize {["size" := JStr "1"; "sizeUnit" := JStr "M"]} =
  {["size" := JNumber (Num 1048576)]}.
Proof. vm_compute. reflexivity. Qed.

Example scaleSize_unknown_unit :
  Parser.scaleSize {["size" := JStr "100"; "sizeUnit" := JStr "X"]} =
  {["size" := JNumber (Num 100); "sizeUnit" := JStr "X"]}.
Proof. vm_compute. reflexivity. Qed.

(** C9 at a concrete input: the session [alice], serialised and rebuilt,
    comes back with its hostname, its commands and its channel, in the
    connecting state, but under whatever nickname the name generator hands
    out instead of [alice]. *)
Theorem fromJSON_toJSON_loses_nick
    (channelFromJSON : SlingChannel -> SlingChannel) (generated : string) :
  exists p',
    Session.fromJSON channelFromJSON generated (Some (Session.toJSON Scenario.alice))
      = inr p' /\
    irc_hostname p' = "irc.example.org" /\
    irc_commands p' = ["/msg nickserv identify secret"] /\
    map snd (irc_chans p') = [channelFromJSON Scenario.channel] /\
    irc_status Scenario.alice = "connected" /\
    irc_status p' = "connecting" /\
    irc_nick Scenario.alice = "alice" /\
    irc_nick p' = generated.
Proof. eexists. split; [reflexivity|]. simpl. repeat split; reflexivity. Qed.

(** * Further properties *)

(** ** The registry of networks from registration to removal *)

Lemma put_queue_id n b q s : queue n b s = Some q -> put_queue n b (Some q) s = s.
Proof.
  intros (nw & Hn & Hb)%queue_Some. destruct s as [nws fin cnw cdl cf d pe em fr fl].
  unfold put_queue, set_networks. simpl in *. f_equal.
  apply alter_id. intros nw' Hnw'. rewrite Hn in Hnw'. injection Hnw' as <-.
  destruct nw as [irc lg x]. unfold set_xdcc. simpl in *. f_equal.
  rewrite <- Hb. apply partial_alter_self.
Qed.

Lemma getNetwork_registered s network nw :
  networks s !! network = Some nw -> getNetwork network s = Ok nw s.
Proof. intros H. unfold getNetwork, mbind, M_bind, get. simpl. by rewrite H. Qed.

Lemma getNetwork_unknown s network :
  networks s !! network = None -> getNetwork network s = Throw "unknown network" s.
Proof. intros H. unfold getNetwork, mbind, M_bind, get. simpl. by rewrite H. Qed.

Lemma addNetwork_run s generated name host o :
  networks s !! name = None ->
  exists irc,
    Session.new generated (JStr host)
      (mkOpts (opts_nick o) (opts_channels o) (opts_ircOpts o) (opts_commands o)
              CbFunction) = inr irc /\
    addNetwork generated (JStr name) (JStr host) (Some o) s =
      Ok irc
         (set_sc_nw (fun nw =>
            Config.save (Config.set name
              (mkNwConfig (JStr host) (persisted_opts generated o)) nw))
            (set_networks (insert name (mkNetwork irc name ∅)) s)).
Proof.
  intros Hfree. eexists. split; [reflexivity|].
  unfold addNetwork, mbind, M_bind, get. simpl.
  rewrite bool_decide_eq_false_2 by (rewrite Hfree; by intros [? ?]).
  reflexivity.
Qed.

(** X1: a network that is registered, looked up, removed and looked up again:
    [addNetwork] under a free name hands out the session under which
    [getNetwork] then finds the network, with no queue; [removeNetwork]
    tells the client of that session to disconnect and leaves the network
    registered until both parallel tasks are through; after that
    [getNetwork] throws "unknown network", the registry is the one from
    before the registration, and the persisted configuration of the name is
    cleared and saved. *)
Theorem network_lifecycle (s : State) (generated name host : string) (o : Opts)
    (flush : optarg) :
  networks s !! name = None ->
  exists irc s1 s2 s3,
    addNetwork generated (JStr name) (JStr host) (Some o) s = Ok irc s1 /\
    getNetwork name s1 = Ok (mkNetwork irc name ∅) s1 /\
    removeNetwork name flush CbFunction s1 = Ok tt s2 /\
    getNetwork name s2 = Ok (mkNetwork (disconnect irc) name ∅) s2 /\
    removeNetwork_done name false CbFunction s2 = Ok tt s3 /\
    getNetwork name s3 = Throw "unknown network" s3 /\
    networks s3 = networks s /\
    Config.get name (sc_nw s3) = None /\
    disk (sc_nw s3) = mem (sc_nw s3).
Proof.
  intros Hfree.
  destruct (addNetwork_run s generated name host o Hfree) as (irc & _ & Hadd).
  set (s1 := set_sc_nw _ _) in Hadd.
  assert (networks s1 !! name = Some (mkNetwork irc name ∅)) as Hn1
    by (simpl; apply lookup_insert_eq).
  destruct (removeNetwork_accepted s1 name _ flush CbFunction Hn1 eq_refl)
    as (s2 & Hrm & Hn2 & Hc2).
  exists irc, s1, s2. eexists.
  split; [exact Hadd|]. split; [by apply getNetwork_registered|].
  split; [exact Hrm|]. split; [by apply getNetwork_registered|].
  split; [reflexivity|]. simpl.
  assert (networks s2 = alter (set_irc disconnect) name (networks s1)) as Hnw2.
  { revert Hrm. unfold removeNetwork, mbind, M_bind, get. simpl.
    rewrite lookup_insert_eq. simpl. rewrite map_size_empty. simpl.
    by destruct flush as [|[]|]; simpl; intros [= <-]. }
  split; [apply getNetwork_unknown; simpl; apply lookup_delete_eq|].
  split.
  - rewrite Hnw2. simpl. apply map_eq. intros k.
    destruct (decide (k = name)) as [->|Hne].
    + by rewrite lookup_delete_eq.
    + by rewrite lookup_delete_ne, lookup_alter_ne, lookup_insert_ne.
  - split; [|done]. unfold Config.get. simpl. apply lookup_delete_eq.
Qed.

(** ** When a removal fails, and when no callback is given *)

(** X2: when one of the two parallel tasks of [removeNetwork] reports an error,
    the network stays registered and its persisted configuration is kept,
    although the client of its session has been told to disconnect. *)
Theorem removeNetwork_error_keeps_network (s : State) (network : string)
    (nw : Network) (flush : optarg) :
  networks s !! network = Some nw ->
  nw_xdcc nw = ∅ ->
  exists s1,
    removeNetwork network flush CbFunction s = Ok tt s1 /\
    removeNetwork_done network true CbFunction s1 = Ok tt s1 /\
    getNetwork network s1 = Ok (set_irc disconnect nw) s1 /\
    client_disconnected (irc_client (nw_irc (set_irc disconnect nw))) = true /\
    sc_nw s1 = sc_nw s.
Proof.
  intros Hn He.
  destruct (removeNetwork_accepted s network nw flush CbFunction Hn He)
    as (s1 & Hrm & Hn1 & Hc1).
  exists s1. split; [exact Hrm|]. split; [reflexivity|].
  split; [by apply getNetwork_registered|]. done.
Qed.

(** X3: the callback of [removeNetwork] is called without a test: when none is
    given, the network is unregistered and its persisted configuration
    cleared and saved, and then the call of the missing callback raises a
    [TypeError]. *)
Theorem removeNetwork_without_callback (s : State) (network : string)
    (nw : Network) (flush : optarg) :
  networks s !! network = Some nw ->
  nw_xdcc nw = ∅ ->
  exists s1 s2,
    removeNetwork network flush CbUndefined s = Ok tt s1 /\
    removeNetwork_done network false CbUndefined s1 = Throw TypeError s2 /\
    networks s2 !! network = None /\
    Config.get network (sc_nw s2) = None /\
    disk (sc_nw s2) = mem (sc_nw s2).
Proof.
  intros Hn He.
  destruct (removeNetwork_accepted s network nw flush CbUndefined Hn He)
    as (s1 & Hrm & _).
  exists s1. eexists. split; [exact Hrm|]. split; [reflexivity|]. simpl.
  split; [apply lookup_delete_eq|]. split; [|done].
  unfold Config.get. simpl. apply lookup_delete_eq.
Qed.

Lemma emitAt_throws n b i sig s e s' :
  emitAt n b i sig s = Throw e s' -> e = TypeError.
Proof.
  unfold emitAt, mbind, M_bind, get. simpl.
  destruct (queue n b s) as [q|]; simpl; [|by intros [= <- _]].
  destruct (q !! i) as [p|]; simpl; [|by intros [= <- _]].
  destruct (pack_xdcc p) as [x|]; simpl; [done|by intros [= <- _]].
Qed.

(** X4: the callback of [cancelDownload] is called without a test as well:
    called with anything but a function, [cancelDownload] does to the queue
    and to the transfer handle what it does when called with a callback,
    and then raises a [TypeError]. *)
Theorem cancelDownload_without_callback (s : State) (network bot id : string)
    (cb : callback) :
  isFunction cb = false ->
  cancelDownload network bot id cb s =
    Throw TypeError (state_of (cancelDownload network bot id CbFunction s)).
Proof.
  intros Hcb. unfold cancelDownload, mbind, M_bind, get, hand. simpl. rewrite Hcb.
  destruct (networks s !! network) as [nw|]; [|done].
  destruct (nw_xdcc nw !! bot) as [[|p0 xdccs]|]; [done| |done].
  destruct (findIndex id (p0 :: xdccs)) as [i|]; [|done].
  destruct ((p0 :: xdccs) !! i) as [p|]; [|done]. simpl.
  destruct (pack_xdcc p) as [x|]; [|done]. simpl.
  destruct (negb (String.eqb (ax_status x) "created"));
    match goal with |- context [emitAt ?n ?b ?i ?sg ?s] =>
      destruct (emitAt n b i sg s) as [x' s'|e s'] eqn:Hemit
    end; simpl; try done; by rewrite (emitAt_throws _ _ _ _ _ _ _ Hemit).
Qed.

(** ** The connect and progress events *)

(** X5: a connect event for a pack whose bot has a queue.  With the setting
    [xdcc:checkFilename] on and a file name that differs from the one
    requested, the handle of the request at the head of the queue is sent
    the cancel signal; the request stays where it is, and nothing else
    changes.  With the setting off, or with the file name requested, the
    event changes nothing. *)
Theorem xdccConnect_checks_filename (s : State) (dbpack request : Pack)
    (rest : list Pack) (fileName : string) :
  let network := pack_network dbpack in
  let bot := pack_bot dbpack in
  reachable s ->
  queue network bot s = Some (request :: rest) ->
  if checkFilename s && negb (String.eqb fileName (pack_name dbpack))
  then
    exists x s',
      pack_xdcc request = Some x /\
      xdccConnect dbpack fileName s = Ok tt s' /\
      queue network bot s' =
        Some (with_xdcc (Some (receive Cancel x)) request :: rest) /\
      emitted s' = emitted s ++ [(ax_id x, Cancel)] /\
      finished s' = finished s /\ sc_dl s' = sc_dl s /\ pending s' = pending s /\
      (forall n' b', (network, bot) ≠ (n', b') -> queue n' b' s' = queue n' b' s)
  else xdccConnect dbpack fileName s = Ok tt s.
Proof.
  intros network bot Hr Hq. apply reachable_Inv in Hr.
  pose proof Hq as (nw & Hn & Hb)%queue_Some.
  assert (xdccConnect dbpack fileName s =
          (if checkFilename s && negb (String.eqb fileName (pack_name dbpack))
           then emitAt network bot 0 Cancel;; mret tt
           else mret tt) s) as Hrun.
  { unfold xdccConnect, mbind at 1 2, M_bind at 1 2, get. simpl.
    fold network. by rewrite Hn. }
  destruct (checkFilename s && negb (String.eqb fileName (pack_name dbpack)));
    [|exact Hrun].
  destruct (Inv_head_handle _ _ _ _ _ Hr Hq) as [x Hx].
  exists x. eexists. split; [done|].
  rewrite Hrun. unfold mbind, M_bind.
  rewrite (emitAt_run network bot 0 Cancel s (request :: rest) request x) by done.
  simpl. split; [reflexivity|]. simpl.
  split; [queue_frame; by erewrite queue_put_queue_eq|].
  do 4 (split; [done|]).
  intros n' b' Hne. queue_frame. by apply queue_put_queue_ne.
Qed.

Lemma xdccProgress_run s dbpack request rest :
  let network := pack_network dbpack in
  let bot := pack_bot dbpack in
  Inv s ->
  queue network bot s = Some (request :: rest) ->
  exists s',
    xdccProgress dbpack "canceled" s = Ok tt s' /\
    finished s' = finished s /\ pending s' = pending s /\
    (match rest with
     | [] => queue network bot s' = None /\ emitted s' = emitted s
     | next :: rest' =>
         exists y, pack_xdcc next = Some y /\
           queue network bot s' =
             Some (with_xdcc (Some (receive Start y)) next :: rest') /\
           emitted s' = emitted s ++ [(ax_id y, Start)]
     end) /\
    sc_dl s' =
      Config.save (Config.set (dlKey network bot)
                     (tail (pendingList network bot s)) (sc_dl s)) /\
    (forall n' b', (network, bot) ≠ (n', b') -> queue n' b' s' = queue n' b' s).
Proof.
  intros network bot HI Hq.
  pose proof Hq as (nw & Hn & Hb)%queue_Some.
  set (s1 := put_queue network bot (Some rest) s).
  destruct (advance_run _ _ _ _ _ HI Hq s1 eq_refl)
    as (s2 & Hadv & Hf & Hdl & Hp & Hrest & _ & _ & _ & Hother).
  eexists. split; [|split; [|split; [|split; [|split]]]].
  - unfold xdccProgress, mbind at 1 2 3 4, M_bind at 1 2 3 4, get. simpl.
    fold network bot. rewrite Hn. simpl. rewrite Hb. simpl. fold s1.
    unfold mbind, M_bind. rewrite Hadv. apply persistShift_run.
  - simpl. by rewrite Hf.
  - simpl. by rewrite Hp.
  - destruct rest as [|next rest'].
    + destruct Hrest as [Hq2 He]. split; [by queue_frame|]. simpl. by rewrite He.
    + destruct Hrest as (y & Hy & Hq2 & He). exists y. split; [done|].
      split; [by queue_frame|]. simpl. by rewrite He.
  - simpl. by rewrite Hdl.
  - intros n' b' Hne. queue_frame. rewrite Hother by done.
    by apply queue_put_queue_ne.
Qed.

(** X6: a progress event with the status [canceled], delivered for the head
    request of a (network, bot) queue, pops that request: it is neither put
    into the finished set nor re-submitted, the new head, if there is one,
    is sent the start signal, otherwise the entry of the bot is deleted, and
    the head of the persisted pending-list is removed and the list saved.
    A progress event with any other status changes nothing. *)
Theorem canceled_progress_pops_head (s : State) (dbpack request : Pack)
    (rest : list Pack) :
  let network := pack_network dbpack in
  let bot := pack_bot dbpack in
  reachable s ->
  queue network bot s = Some (request :: rest) ->
  (exists s',
     xdccProgress dbpack "canceled" s = Ok tt s' /\
     finished s' = finished s /\ pending s' = pending s /\
     (match rest with
      | [] => queue network bot s' = None /\ emitted s' = emitted s
      | next :: rest' =>
          exists y, pack_xdcc next = Some y /\
            queue network bot s' =
              Some (with_xdcc (Some (receive Start y)) next :: rest') /\
            emitted s' = emitted s ++ [(ax_id y, Start)]
      end) /\
     Config.get (dlKey network bot) (sc_dl s') =
       Some (tail (pendingList network bot s)) /\
     disk (sc_dl s') = mem (sc_dl s')) /\
  (forall status, status ≠ "canceled" -> xdccProgress dbpack status s = Ok tt s).
Proof.
  intros network bot Hr Hq. apply reachable_Inv in Hr. split.
  - destruct (xdccProgress_run s dbpack request rest Hr Hq)
      as (s' & Hrun & Hf & Hp & Hrest & Hdl & _).
    exists s'. do 4 (split; [done|]). rewrite Hdl. split; [|done].
    unfold Config.get. simpl. apply lookup_insert_eq.
  - intros status Hne. pose proof Hq as (nw & Hn & Hb)%queue_Some.
    unfold xdccProgress, mbind, M_bind, get. simpl. fold network. rewrite Hn. simpl.
    by destruct (String.eqb_spec status "canceled").
Qed.

(** X7: [cancelDownload] takes the request out of the queue itself, and the
    handler of the canceled progress event pops the head of the queue
    without looking at it.  So when the active head of a queue is cancelled
    and the transfer engine then reports the cancellation, the request that
    waited behind the cancelled one is popped in its place: it leaves the
    queue without having been sent any signal, and is neither finished nor
    re-submitted.  The request after it, if there is one, is started. *)
Theorem cancel_then_canceled_progress_skips_next (s : State) (dbpack request next : Pack)
    (rest : list Pack) :
  let network := pack_network dbpack in
  let bot := pack_bot dbpack in
  let s1 := run (CancelDownload network bot (pack_id request) CbFunction) s in
  let s2 := run (XdccProgress dbpack "canceled") s1 in
  reachable s ->
  queue network bot s = Some (request :: next :: rest) ->
  exists x,
    pack_xdcc request = Some x /\
    queue network bot s1 = Some (next :: rest) /\
    emitted s1 = emitted s ++ [(ax_id x, cancelSignal x)] /\
    (match rest with
     | [] => queue network bot s2 = None /\ emitted s2 = emitted s1
     | after :: rest' =>
         exists y, pack_xdcc after = Some y /\
           queue network bot s2 =
             Some (with_xdcc (Some (receive Start y)) after :: rest') /\
           emitted s2 = emitted s1 ++ [(ax_id y, Start)]
     end) /\
    finished s2 = finished s /\ pending s2 = pending s.
Proof.
  intros network bot s1 s2 Hr Hq.
  assert (reachable s1) as Hr1 by by apply reachable_step.
  apply reachable_Inv in Hr, Hr1.
  destruct (cancelDownload_run s network bot (pack_id request) _ 0 request Hr Hq
              eq_refl eq_refl)
    as (x & s1' & Hx & Hrun1 & Hq1 & He1 & Hf1 & _ & _ & Hp1 & _).
  assert (s1 = s1') as Hs1 by (unfold s1; simpl; by rewrite Hrun1).
  rewrite <- Hs1 in *. simpl in Hq1.
  destruct (xdccProgress_run s1 dbpack next rest Hr1 Hq1)
    as (s2' & Hrun2 & Hf2 & Hp2 & Hrest & _).
  assert (s2 = s2') as Hs2 by (unfold s2; simpl; by rewrite Hrun2).
  rewrite <- Hs2 in *.
  exists x. do 4 (split; [done|]). split; congruence.
Qed.

(** ** Events that find no queue *)

(** X8: a complete, an error or a canceled progress event for a pack whose bot
    has no entry in the queue map of its network, or whose network is not
    registered, raises a [TypeError] and changes nothing.  So do a complete
    and an error event that find the entry of the bot empty. *)
Theorem event_without_request_raises (s : State) (dbpack : Pack) :
  let network := pack_network dbpack in
  let bot := pack_bot dbpack in
  (queue network bot s = None ->
   xdccComplete dbpack s = Throw TypeError s /\
   xdccError dbpack s = Throw TypeError s /\
   xdccProgress dbpack "canceled" s = Throw TypeError s) /\
  (queue network bot s = Some [] ->
   xdccComplete dbpack s = Throw TypeError s /\
   xdccError dbpack s = Throw TypeError s).
Proof.
  intros network bot. split.
  - intros Hq. unfold queue in Hq.
    unfold xdccComplete, xdccError, xdccProgress, mbind, M_bind, get. simpl.
    fold network bot.
    destruct (networks s !! network) as [nw|]; simpl; [|done].
    by rewrite Hq.
  - intros Hq. pose proof Hq as (nw & Hn & Hb)%queue_Some.
    unfold xdccComplete, xdccError, mbind, M_bind, get. simpl.
    fold network bot. rewrite Hn. simpl. rewrite Hb. simpl.
    by rewrite (put_queue_id _ _ _ _ Hq).
Qed.

(** ** What the queues and the finished set always hold *)

(** X9: in every state the orchestrator can be observed in, a queue holds no id
    twice and no object twice, every queued request owns a transfer handle,
    no queued request is in the finished set, no request is in two queues,
    and the finished set holds no object twice. *)
Theorem queues_hold_distinct_requests (s : State) :
  reachable s ->
  NoDup (map pack_oid (finished s)) /\
  (forall network bot q,
     queue network bot s = Some q ->
     NoDup (map pack_id q) /\ NoDup (map pack_oid q) /\
     Forall (fun p => is_Some (pack_xdcc p) /\
                      pack_oid p ∉ map pack_oid (finished s)) q) /\
  (forall network bot q network' bot' q' p p',
     queue network bot s = Some q -> queue network' bot' s = Some q' ->
     (network, bot) ≠ (network', bot') ->
     p ∈ q -> p' ∈ q' -> pack_oid p ≠ pack_oid p').
Proof.
  intros Hr. pose proof (reachable_Inv _ Hr) as [Hfin HI].
  pose proof (reachable_Ident _ Hr) as [_ Hqd Hnd Hdis].
  split; [done|]. split.
  - intros network bot q Hq. destruct (HI _ _ _ Hq) as [Hids Hh _ _].
    split; [done|]. split; [by eapply Hnd|].
    specialize (Hqd _ _ _ Hq). rewrite Forall_forall in *.
    intros p Hp. split; [by apply Hh | by apply Hqd].
  - intros network bot q network' bot' q' p p' Hq Hq' Hne Hp Hp'.
    exact (Hdis _ _ _ _ _ _ Hq Hq' Hne p p' Hp Hp').
Qed.

Section Frame.

Variable I : State -> Prop.

Lemma pres_get_all {A} (f : State -> M A) :
  (forall s0, pres I (f s0)) -> pres I (get ≫= f).
Proof. intros H s HI. by apply H. Qed.

End Frame.

(** One step of a proof that a computation keeps a property of the state
    that its updates leave alone. *)
Ltac frame_step :=
  lazymatch goal with
  | |- pres _ (mret _) => apply pres_ret
  | |- pres _ (throw _) => apply pres_throw
  | |- pres _ (deref _) => apply pres_deref
  | |- pres _ (finish _ _) => apply pres_finish
  | |- pres _ (hand _ _) => apply pres_hand
  | |- pres _ (modify _) => apply pres_modify; intros ? ?; assumption
  | |- pres _ (get ≫= _) => apply pres_get_all; intros ?
  | |- pres _ (_ ≫= _) => apply pres_bind; [|intros ?]
  | |- pres _ (match ?x with _ => _ end) => destruct x
  end.

Lemma finished_kept_emitAt F n b i sig :
  pres (fun s => finished s = F) (emitAt n b i sig).
Proof. unfold emitAt, emit. repeat frame_step. Qed.

Lemma finished_kept_advance F n b xdcc :
  pres (fun s => finished s = F) (advance n b xdcc).
Proof.
  destruct xdcc; simpl; [repeat frame_step|].
  apply pres_bind; [apply finished_kept_emitAt | intros ?; apply pres_ret].
Qed.

Lemma finished_kept_addDownload_continue F t :
  pres (fun s => finished s = F) (addDownload_continue t).
Proof.
  unfold addDownload_continue. apply pres_get_all. intros s0.
  destruct (db s0 (task_id t)) as [|[pack|]]; try apply pres_finish.
  destruct (networks s0 !! doc_network pack); [|apply pres_finish].
  cbv zeta. apply pres_bind; [repeat frame_step | intros ?].
  destruct (queued _ _); [apply pres_finish|].
  apply pres_bind; [repeat frame_step | intros ?].
  apply pres_bind; [repeat frame_step | intros ?].
  apply pres_bind.
  { destruct (Nat.eqb _ _); [apply finished_kept_emitAt | apply pres_ret]. }
  intros ?. apply pres_bind; [|intros ?; apply pres_ret].
  destruct (task_dontPersist t); [apply pres_ret|].
  unfold persistPush. repeat frame_step.
Qed.

(** X10: only a complete event changes the finished set: no method and no other
    event adds a request to it, takes one out of it, or changes one in
    it. *)
Theorem only_complete_changes_finished (a : action) (s : State) :
  (forall dbpack, a ≠ XdccComplete dbpack) ->
  finished (run a s) = finished s.
Proof.
  intros Hne.
  assert (forall A (m : M A), pres (fun s' => finished s' = finished s) m ->
            finished (state_of (m s)) = finished s) as Hpres
    by (intros A m Hm; by apply Hm).
  destruct a; simpl; try (by destruct (Hne dbpack)); try done.
  - apply Hpres. unfold addNetwork. repeat frame_step.
  - apply Hpres. unfold removeNetwork. repeat frame_step.
  - apply Hpres. unfold removeNetwork_done. repeat frame_step.
  - apply Hpres. unfold dbCallback. apply pres_get_all. intros s0.
    destruct (pending s0); [apply pres_ret|].
    apply pres_bind; [repeat frame_step | intros ?].
    apply finished_kept_addDownload_continue.
  - apply Hpres. unfold cancelDownload. apply pres_get_all. intros s0.
    destruct (networks s0 !! network) as [nw|]; [|apply pres_hand].
    destruct (nw_xdcc nw !! bot) as [[|p0 l]|]; try apply pres_hand.
    destruct (findIndex id (p0 :: l)); [|apply pres_hand].
    do 2 (apply pres_bind; [apply pres_deref | intros ?]).
    apply pres_bind; [destruct (negb _); apply finished_kept_emitAt | intros ?].
    repeat frame_step.
  - apply Hpres. unfold xdccConnect. apply pres_get_all. intros s0.
    apply pres_bind; [apply pres_deref | intros ?].
    destruct (_ && _); [|apply pres_ret].
    apply pres_bind; [apply finished_kept_emitAt | intros ?; apply pres_ret].
  - apply Hpres. unfold xdccProgress. apply pres_get_all. intros s0.
    apply pres_bind; [apply pres_deref | intros ?].
    destruct (String.eqb _ _); [|apply pres_ret].
    apply pres_bind; [apply pres_deref | intros ?].
    apply pres_bind; [repeat frame_step | intros ?].
    apply pres_bind; [apply finished_kept_advance | intros ?].
    unfold persistShift. repeat frame_step.
  - apply Hpres. unfold xdccError. apply pres_get_all. intros s0.
    do 2 (apply pres_bind; [apply pres_deref | intros ?]).
    apply pres_bind; [repeat frame_step | intros ?].
    do 2 (apply pres_bind; [apply pres_deref | intros ?]).
    apply pres_bind; [unfold emit; repeat frame_step | intros ?].
    apply pres_bind; [unfold addDownload; repeat frame_step | intros ?].
    apply pres_bind; [apply finished_kept_advance | intros ?].
    unfold persistShift. repeat frame_step.
  - unfold engineReport. destruct (queue network bot s) as [q|]; [|done].
    by destruct (q !! i).
Qed.

(** ** The answers of the document store *)

(** X11: the four ways in which [addDownload] turns a request down, once the
    document store has answered: the lookup failed, it found nothing, the
    pack found belongs to a network that is not registered, or a request
    with the id of the pack found is in the queue of its bot already.  The
    final callback is handed [true], "Pack not found", "Pack not found" and
    [true], in this order, and nothing changes; in particular no empty
    entry is left in a queue map. *)
Theorem addDownload_rejected_changes_nothing (s : State) (t : Task) :
  (db s (task_id t) = DbError ->
   addDownload_continue t s = finish (task_cb t) (JBool true) s) /\
  (db s (task_id t) = DbItem None ->
   addDownload_continue t s = finish (task_cb t) (JStr "Pack not found") s) /\
  (forall doc,
     db s (task_id t) = DbItem (Some doc) ->
     networks s !! doc_network doc = None ->
     addDownload_continue t s = finish (task_cb t) (JStr "Pack not found") s) /\
  (forall doc q,
     db s (task_id t) = DbItem (Some doc) ->
     queue (doc_network doc) (doc_bot doc) s = Some q ->
     doc_id doc ∈ map pack_id q ->
     addDownload_continue t s = finish (task_cb t) (JBool true) s).
Proof.
  unfold addDownload_continue, mbind, M_bind, get. simpl.
  split; [by intros ->|]. split; [by intros ->|]. split.
  - intros doc -> Hn. by rewrite Hn.
  - intros doc q -> Hq Hin. pose proof Hq as (nw & Hn & Hb)%queue_Some.
    rewrite Hn, Hb. simpl.
    destruct (queued (doc_id doc) q) eqn:Hqd.
    + by rewrite (put_queue_id _ _ _ _ Hq).
    + by apply queued_false in Hqd.
Qed.


(** ** The pending-list along the queue *)

(** X13: where the code persists, the pending-list follows the queue.  If the
    persisted pending-list of a (network, bot) pair lists the queued
    requests of that pair, in their order, and is saved, then it still does
    after a complete, an error or a canceled progress event for the head of
    the queue, and after [addDownload] has put a request at the back of the
    queue without persistence suppressed. *)
Theorem pending_list_follows_queue (s : State) (network bot : string) :
  reachable s ->
  mirrors network bot s ->
  (forall dbpack request rest,
     pack_network dbpack = network -> pack_bot dbpack = bot ->
     queue network bot s = Some (request :: rest) ->
     mirrors network bot (run (XdccComplete dbpack) s) /\
     mirrors network bot (run (XdccError dbpack) s) /\
     mirrors network bot (run (XdccProgress dbpack "canceled") s)) /\
  (forall t doc,
     db s (task_id t) = DbItem (Some doc) ->
     doc_network doc = network -> doc_bot doc = bot ->
     is_Some (networks s !! network) ->
     doc_id doc ∉ map pack_id (default [] (queue network bot s)) ->
     task_dontPersist t = false ->
     mirrors network bot (state_of (addDownload_continue t s))).
Proof.
  intros Hr Hm. apply reachable_Inv in Hr. split.
  - intros dbpack request rest <- <- Hq. simpl. split; [|split].
    + by eapply xdccComplete_keeps_mirror.
    + by eapply xdccError_keeps_mirror.
    + by eapply xdccProgress_keeps_mirror.
  - intros t doc Hdb <- <- Hn Hq Hdp.
    apply addDownload_keeps_mirror; try done. by apply queued_false.
Qed.

(** ** Running [boot] *)

Lemma forEach_app {A} (l1 l2 : list A) (body : A -> M unit) s :
  forEach (l1 ++ l2) body s = (forEach l1 body;; forEach l2 body) s.
Proof.
  revert s. induction l1 as [|a l1 IH]; intros s; simpl; [done|].
  unfold mbind, M_bind in *. destruct (body a s) as [[] s'|e s']; [apply IH | done].
Qed.

Lemma bootFrame_refl s : bootFrame s s.
Proof. by repeat split. Qed.

Lemma bootFrame_trans s1 s2 s3 : bootFrame s1 s2 -> bootFrame s2 s3 -> bootFrame s1 s3.
Proof. unfold bootFrame. intuition congruence. Qed.

Lemma forEach_cons {A} (a : A) l (body : A -> M unit) s :
  forEach (a :: l) body s =
  match body a s with
  | Ok _ s' => forEach l body s'
  | Throw e s' => Throw e s'
  end.
Proof. reflexivity. Qed.

Section BootProperties.

Variable channelFromJSON : SlingChannel -> SlingChannel.
Variable generate : string -> string.
Variable jDownloads : string -> option (list (string * option (list DlEntry))).

Lemma resubmit_run key bot (dls : list DlEntry) s :
  exists s',
    forEach dls (fun dl => addDownload (bootId key bot dl) (ArgBool true) CbUndefined) s
      = Ok tt s' /\
    networks s' = networks s /\
    pending s' =
      pending s ++ map (fun dl => mkTask (bootId key bot dl) true CbUndefined) dls /\
    bootFrame s s'.
Proof.
  revert s. induction dls as [|dl dls IH]; intros s; simpl.
  - exists s. rewrite app_nil_r. split; [done|]. split; [done|]. split; [done|].
    apply bootFrame_refl.
  - unfold mbind, M_bind, addDownload, modify. simpl.
    destruct (IH (set_pending
                    (fun l => l ++ [mkTask (bootId key bot dl) true CbUndefined]) s))
      as (s' & Hrun & Hn & Hp & Hf).
    exists s'. split; [exact Hrun|]. split; [done|]. split; [|done].
    rewrite Hp. simpl. by rewrite <- app_assoc.
Qed.

Lemma bootDownloads_run key s :
  exists s',
    bootDownloads jDownloads key s = Ok tt s' /\
    networks s' = networks s /\
    pending s' = pending s ++ bootTasks key (jDownloads key) /\
    bootFrame s s'.
Proof.
  unfold bootDownloads, bootTasks. destruct (jDownloads key) as [bots|]; cbn [default].
  2:{ exists s. simpl. rewrite app_nil_r. split; [done|]. split; [done|]. split; [done|].
      apply bootFrame_refl. }
  revert s. induction bots as [|[bot dls] bots IH]; intros s.
  - exists s. simpl. rewrite app_nil_r. split; [done|]. split; [done|]. split; [done|].
    apply bootFrame_refl.
  - rewrite forEach_cons. cbn [fst snd flat_map].
    assert (exists s1,
              match dls with
              | Some (dl :: dls0) =>
                  forEach (dl :: dls0) (fun dl =>
                    addDownload (bootId key bot dl) (ArgBool true) CbUndefined)
              | _ => mret tt
              end s = Ok tt s1 /\
              networks s1 = networks s /\
              pending s1 =
                pending s ++ map (fun dl => mkTask (bootId key bot dl) true CbUndefined)
                                 (default [] dls) /\
              bootFrame s s1) as (s1 & Hrun1 & Hn1 & Hp1 & Hf1).
    { destruct dls as [[|dl dls0]|].
      - exists s. simpl. rewrite app_nil_r. split; [done|]. split; [done|].
        split; [done|]. apply bootFrame_refl.
      - apply (resubmit_run key bot (dl :: dls0)).
      - exists s. simpl. rewrite app_nil_r. split; [done|]. split; [done|].
        split; [done|]. apply bootFrame_refl. }
    rewrite Hrun1.
    destruct (IH s1) as (s' & Hrun & Hn & Hp & Hf).
    exists s'. split; [done|]. split; [congruence|]. split.
    + rewrite Hp, Hp1. by rewrite <- app_assoc.
    + by eapply bootFrame_trans.
Qed.

(** The session [boot] rebuilds from a persisted configuration whose
    hostname is a string. *)
Lemma fromJSON_bootJson key nw host :
  cfg_hostname nw = JStr host ->
  exists irc,
    Session.fromJSON channelFromJSON (generate key) (Some (bootJson nw)) = inr irc /\
    irc_hostname irc = host /\
    irc_nick irc = generate key /\
    client_nick (irc_client irc) = generate key /\
    irc_commands irc = default [] (opts_commands (cfg_opts nw)) /\
    irc_status irc = "connecting" /\
    irc_packCb irc = CbFunction /\
    client_opt (irc_client irc) =
      Session.clientOptions (default ∅ (opts_ircOpts (cfg_opts nw))) (generate key) /\
    irc_chans irc =
      foldl (fun chans channel => Session.map_set (chan_name channel) channel chans) []
            (default [] (option_map
               (foldl (fun channels jChan => channelFromJSON jChan :: channels) [])
               (opts_channels (cfg_opts nw)))).
Proof.
  intros Hh. unfold Session.fromJSON, bootJson. simpl. rewrite Hh. simpl.
  eexists. split; [reflexivity|]. simpl. repeat split; try done.
Qed.

Lemma bootNetwork_run key nw host s :
  cfg_hostname nw = JStr host ->
  exists irc s',
    Session.fromJSON channelFromJSON (generate key) (Some (bootJson nw)) = inr irc /\
    bootNetwork channelFromJSON generate jDownloads (key, nw) s = Ok tt s' /\
    networks s' = <[key := mkNetwork irc key ∅]> (networks s) /\
    pending s' = pending s ++ bootTasks key (jDownloads key) /\
    bootFrame s s'.
Proof.
  intros Hh. destruct (fromJSON_bootJson key nw host Hh) as (irc & Hirc & _).
  destruct (bootDownloads_run key (set_networks (insert key (mkNetwork irc key ∅)) s))
    as (s' & Hrun & Hn & Hp & Hf).
  exists irc, s'. split; [done|]. split; [|split; [done|split; [done|]]].
  - unfold bootNetwork. cbn [fst snd]. rewrite Hirc. unfold mbind, M_bind.
    exact Hrun.
  - destruct Hf as (? & ? & ? & ? & ? & ? & ? & ?). by repeat split.
Qed.

Lemma boot_run (jNetwork : list (string * NwConfig)) s :
  Forall (fun entry => isString (cfg_hostname (snd entry)) = true) jNetwork ->
  NoDup (map fst jNetwork) ->
  exists s',
    boot channelFromJSON generate jDownloads jNetwork s = Ok tt s' /\
    (forall key nw,
       (key, nw) ∈ jNetwork ->
       exists irc,
         Session.fromJSON channelFromJSON (generate key) (Some (bootJson nw)) = inr irc /\
         networks s' !! key = Some (mkNetwork irc key ∅)) /\
    (forall key, key ∉ map fst jNetwork -> networks s' !! key = networks s !! key) /\
    pending s' =
      pending s ++
      flat_map (fun entry => bootTasks (fst entry) (jDownloads (fst entry))) jNetwork /\
    bootFrame s s'.
Proof.
  revert s. induction jNetwork as [|[key nw] l IH]; intros s Hstr Hnd.
  - exists s. simpl. rewrite app_nil_r. split; [done|].
    split; [by intros ? ? ?%elem_of_nil|]. split; [done|]. split; [done|].
    apply bootFrame_refl.
  - inversion Hstr as [|? ? Hh Hstr']; subst. simpl in Hnd.
    inversion Hnd as [|? ? Hkey Hnd']; subst. simpl in Hh.
    destruct (cfg_hostname nw) as [| | | |host] eqn:Hhost; try done.
    destruct (bootNetwork_run key nw host s Hhost) as (irc & s1 & Hirc & Hrun1 & Hn1 & Hp1 & Hf1).
    destruct (IH s1 Hstr' Hnd') as (s' & Hrun & Hin & Hout & Hp & Hf).
    exists s'. split; [|split; [|split; [|split]]].
    + unfold boot in *. rewrite forEach_cons. by rewrite Hrun1.
    + intros key' nw' [[= -> ->]|Hin']%elem_of_cons.
      * exists irc. split; [done|]. rewrite Hout by done. rewrite Hn1.
        apply lookup_insert_eq.
      * by apply Hin.
    + intros key' Hnot. simpl in Hnot. apply not_elem_of_cons in Hnot as [Hne Hnot].
      rewrite Hout by done. rewrite Hn1. by apply lookup_insert_ne.
    + rewrite Hp, Hp1. simpl. by rewrite <- app_assoc.
    + by eapply bootFrame_trans.
Qed.

End BootProperties.

(** ** The settings of the protocol client *)

Lemma assignDefault_lookup k v (o : gmap string jsval) k' :
  Session.assignDefault k v o !! k' =
  if decide (k = k')
  then Some (match o !! k with
             | None | Some JUndefined => v
             | Some w => w
             end)
  else o !! k'.
Proof.
  unfold Session.assignDefault.
  destruct (o !! k) as [[]|] eqn:E; case_decide; subst;
    rewrite ?lookup_insert_eq, ?lookup_insert_ne by done; done.
Qed.

Lemma assignDefault_lookup_eq k v (o : gmap string jsval) :
  Session.assignDefault k v o !! k =
  Some (match o !! k with
        | None | Some JUndefined => v
        | Some w => w
        end).
Proof. rewrite assignDefault_lookup. by rewrite decide_True. Qed.

Lemma assignDefault_lookup_ne k v (o : gmap string jsval) k' :
  k ≠ k' -> Session.assignDefault k v o !! k' = o !! k'.
Proof. intros H. rewrite assignDefault_lookup. by rewrite decide_False. Qed.

(** The lookup of one of the six settings with a default. *)
Ltac default_setting :=
  rewrite ?assignDefault_lookup_ne by discriminate;
  rewrite assignDefault_lookup_eq;
  rewrite ?assignDefault_lookup_ne by discriminate;
  reflexivity.

Lemma clientOptions_lookup (options : gmap string jsval) (nick k : string) :
  Session.clientOptions options nick !! k =
  if String.eqb k "channels" then None
  else if String.eqb k "stripColors" then Some (JBool true)
  else match defaultOption nick k with
       | Some d =>
           Some (match options !! k with
                 | None | Some JUndefined => d
                 | Some v => v
                 end)
       | None => options !! k
       end.
Proof.
  unfold Session.clientOptions, defaultOption.
  destruct (String.eqb_spec k "channels") as [->|?]; [apply lookup_delete_eq|].
  rewrite lookup_delete_ne by done.
  destruct (String.eqb_spec k "stripColors") as [->|?]; [apply lookup_insert_eq|].
  rewrite lookup_insert_ne by done.
  destruct (String.eqb_spec k "realName") as [->|?]; [default_setting|].
  destruct (String.eqb_spec k "userName") as [->|?]; [default_setting|].
  destruct (String.eqb_spec k "autoRejoin") as [->|?]; [default_setting|].
  destruct (String.eqb_spec k "retryCount") as [->|?]; [default_setting|].
  destruct (String.eqb_spec k "debug") as [->|?]; [default_setting|].
  destruct (String.eqb_spec k "retryDelay") as [->|?]; [default_setting|].
  by rewrite !assignDefault_lookup_ne by done.
Qed.

(** The settings of a client come through the constructor a second time as
    they are, whatever the nickname is then. *)
Lemma clientOptions_idem (options : gmap string jsval) (nick nick' : string) :
  Session.clientOptions (Session.clientOptions options nick) nick' =
  Session.clientOptions options nick.
Proof.
  apply map_eq. intros k. rewrite (clientOptions_lookup _ nick' k).
  rewrite !clientOptions_lookup. unfold defaultOption.
  destruct (String.eqb k "channels"); [done|].
  destruct (String.eqb k "stripColors"); [done|].
  destruct (String.eqb k "realName"); [by destruct (options !! k) as [[]|]|].
  destruct (String.eqb k "userName"); [by destruct (options !! k) as [[]|]|].
  destruct (String.eqb k "autoRejoin"); [by destruct (options !! k) as [[]|]|].
  destruct (String.eqb k "retryCount"); [by destruct (options !! k) as [[]|]|].
  destruct (String.eqb k "debug"); [by destruct (options !! k) as [[]|]|].
  destruct (String.eqb k "retryDelay"); [by destruct (options !! k) as [[]|]|].
  done.
Qed.

(** X14: the settings the constructor hands to the protocol client: colours are
    always stripped and the list of channels is always dropped; for each
    of the six settings with a default, the value of the caller is kept
    unless it is missing or [undefined]; every other setting of the caller
    is passed on as it is.  Settings that have been through the
    constructor once come through it again unchanged. *)
Theorem clientOptions_keeps_caller_settings (options : gmap string jsval)
    (nick : string) :
  let settings := Session.clientOptions options nick in
  settings !! "stripColors" = Some (JBool true) /\
  settings !! "channels" = None /\
  (forall k d,
     defaultOption nick k = Some d ->
     settings !! k = Some (match options !! k with
                           | None | Some JUndefined => d
                           | Some v => v
                           end)) /\
  (forall k,
     defaultOption nick k = None -> k ≠ "stripColors" -> k ≠ "channels" ->
     settings !! k = options !! k) /\
  (forall nick', Session.clientOptions settings nick' = settings).
Proof.
  intros settings. unfold settings.
  split; [by rewrite clientOptions_lookup|]. split; [by rewrite clientOptions_lookup|].
  split; [|split].
  - intros k d Hd. rewrite clientOptions_lookup, Hd.
    destruct (String.eqb_spec k "channels") as [->|_]; [done|].
    by destruct (String.eqb_spec k "stripColors") as [->|_].
  - intros k Hd H1 H2. rewrite clientOptions_lookup, Hd.
    destruct (String.eqb_spec k "channels"); [done|].
    by destruct (String.eqb_spec k "stripColors").
  - intros nick'. apply clientOptions_idem.
Qed.

(** ** What [boot] restores *)

Lemma pres_forEach {A} (I : State -> Prop) (l : list A) (body : A -> M unit) :
  (forall a, pres I (body a)) -> pres I (forEach l body).
Proof.
  intros Hbody. induction l as [|a l IH]; simpl; [apply pres_ret|].
  apply pres_bind; [apply Hbody | intros _; apply IH].
Qed.

Lemma initial_insert_network key irc s :
  initial s -> initial (set_networks (insert key (mkNetwork irc key ∅)) s).
Proof.
  intros [Hf Hq]. split; [done|]. intros n nw. simpl.
  destruct (decide (key = n)) as [->|Hne].
  - rewrite lookup_insert_eq. by intros [= <-].
  - rewrite lookup_insert_ne by done. apply Hq.
Qed.

Lemma initial_pending f s : initial s -> initial (set_pending f s).
Proof. by intros [Hf Hq]. Qed.

Lemma pres_boot channelFromJSON generate jDownloads jNetwork :
  pres initial (boot channelFromJSON generate jDownloads jNetwork).
Proof.
  apply pres_forEach. intros [key nw]. unfold bootNetwork. cbn [fst snd].
  destruct (Session.fromJSON _ _ _) as [e|irc]; [apply pres_throw|].
  apply pres_bind.
  { apply pres_modify. intros s. apply initial_insert_network. }
  intros _. unfold bootDownloads. destruct (jDownloads key) as [bots|]; [|apply pres_ret].
  apply pres_forEach. intros [bot [[|dl dls]|]]; cbn [fst snd]; try apply pres_ret.
  apply pres_forEach. intros dl'. apply pres_modify. intros s. apply initial_pending.
Qed.

(** X15: [boot] over persisted configurations whose hostnames are strings: the
    loop runs to its end; every persisted network is registered under its
    key, with no queue, and with a new session for the persisted hostname
    and commands that is connecting and files pack offers; the nickname of
    that session is the one the name generator hands out, whatever
    nickname was persisted; networks [boot] does not name, the finished
    set, the persisted pending-lists and the signals sent are left alone. *)
Theorem boot_restores_networks (channelFromJSON : SlingChannel -> SlingChannel)
    (generate : string -> string)
    (jDownloads : string -> option (list (string * option (list DlEntry))))
    (jNetwork : list (string * NwConfig)) (s : State) :
  Forall (fun entry => isString (cfg_hostname (snd entry)) = true) jNetwork ->
  NoDup (map fst jNetwork) ->
  exists s',
    boot channelFromJSON generate jDownloads jNetwork s = Ok tt s' /\
    (forall key nw,
       (key, nw) ∈ jNetwork ->
       exists irc,
         networks s' !! key = Some (mkNetwork irc key ∅) /\
         cfg_hostname nw = JStr (irc_hostname irc) /\
         irc_nick irc = generate key /\
         irc_commands irc = default [] (opts_commands (cfg_opts nw)) /\
         irc_status irc = "connecting" /\
         irc_packCb irc = CbFunction) /\
    (forall key, key ∉ map fst jNetwork -> networks s' !! key = networks s !! key) /\
    finished s' = finished s /\ sc_dl s' = sc_dl s /\ emitted s' = emitted s.
Proof.
  intros Hstr Hnd.
  destruct (boot_run channelFromJSON generate jDownloads jNetwork s Hstr Hnd)
    as (s' & Hrun & Hin & Hout & _ & Hf & Hnw & Hdl & _ & _ & He & _).
  exists s'. split; [done|]. split; [|done].
  intros key nw Hkey. destruct (Hin key nw Hkey) as (irc & Hirc & Hlook).
  rewrite Forall_forall in Hstr. specialize (Hstr _ Hkey). simpl in Hstr.
  destruct (cfg_hostname nw) as [| | | |host] eqn:Hhost; try done.
  destruct (fromJSON_bootJson channelFromJSON generate key nw host Hhost)
    as (irc0 & Hirc0 & Hh & Hn & _ & Hc & Hst & Hcb & _).
  rewrite Hirc in Hirc0. injection Hirc0 as <-.
  exists irc. by rewrite Hh.
Qed.

(** X16: the downloads [boot] submits again: for every persisted network, in
    the order of the configuration, for every bot and every entry of its
    persisted pending-list, in their order, one call of [addDownload] with
    the id [<network>:<bot>:<pack>], with persistence suppressed and
    without a callback.  The calls wait for the document store: [boot]
    itself queues nothing. *)
Theorem boot_resubmits_downloads (channelFromJSON : SlingChannel -> SlingChannel)
    (generate : string -> string)
    (jDownloads : string -> option (list (string * option (list DlEntry))))
    (jNetwork : list (string * NwConfig)) (s : State) :
  Forall (fun entry => isString (cfg_hostname (snd entry)) = true) jNetwork ->
  NoDup (map fst jNetwork) ->
  let s' := state_of (boot channelFromJSON generate jDownloads jNetwork s) in
  pending s' =
    pending s ++
    flat_map (fun entry =>
                flat_map (fun bot =>
                            map (fun dl => mkTask (fst entry +:+ ":" +:+ fst bot +:+ ":"
                                                   +:+ dl_pack dl) true CbUndefined)
                                (default [] (snd bot)))
                         (default [] (jDownloads (fst entry))))
             jNetwork /\
  forall key bot, key ∈ map fst jNetwork -> queue key bot s' = None.
Proof.
  intros Hstr Hnd s'.
  destruct (boot_run channelFromJSON generate jDownloads jNetwork s Hstr Hnd)
    as (s1 & Hrun & Hin & _ & Hp & _).
  unfold s'. rewrite Hrun. simpl. split; [exact Hp|].
  intros key bot ((k & nw) & -> & Hkey)%list_elem_of_fmap. simpl.
  destruct (Hin k nw Hkey) as (irc & _ & Hlook).
  unfold queue. by rewrite Hlook.
Qed.

(** X17: however [boot] ends, it leaves the module in a state in which nothing
    is queued or finished: started from the empty registry of a module
    that has just been loaded, it ends in an initial state. *)
Theorem boot_reaches_initial (channelFromJSON : SlingChannel -> SlingChannel)
    (generate : string -> string)
    (jDownloads : string -> option (list (string * option (list DlEntry))))
    (jNetwork : list (string * NwConfig)) (s : State) :
  networks s = ∅ ->
  finished s = [] ->
  let s' := state_of (boot channelFromJSON generate jDownloads jNetwork s) in
  initial s' /\ reachable s'.
Proof.
  intros Hn Hf s'.
  assert (initial s') as Hi.
  { apply pres_boot. split; [done|]. intros n nw. by rewrite Hn. }
  split; [done|]. by apply reachable_initial.
Qed.

(** X18: a persisted configuration whose hostname is not a string stops [boot]:
    [SlingIrc.fromJSON] throws, the networks that come before it in the
    configuration have been registered and their downloads submitted, and
    neither that network nor any that comes after it is looked at. *)
Theorem boot_stops_at_bad_hostname (channelFromJSON : SlingChannel -> SlingChannel)
    (generate : string -> string)
    (jDownloads : string -> option (list (string * option (list DlEntry))))
    (before after : list (string * NwConfig)) (key : string) (nw : NwConfig)
    (s : State) :
  Forall (fun entry => isString (cfg_hostname (snd entry)) = true) before ->
  NoDup (map fst before) ->
  isString (cfg_hostname nw) = false ->
  exists s1,
    boot channelFromJSON generate jDownloads before s = Ok tt s1 /\
    boot channelFromJSON generate jDownloads (before ++ (key, nw) :: after) s =
      Throw "parameter json.hostname ist not a string" s1.
Proof.
  intros Hstr Hnd Hbad.
  destruct (boot_run channelFromJSON generate jDownloads before s Hstr Hnd)
    as (s1 & Hrun & _).
  exists s1. split; [done|]. unfold boot in *.
  rewrite forEach_app. unfold mbind, M_bind. rewrite Hrun.
  rewrite forEach_cons. unfold bootNetwork. cbn [fst snd].
  unfold Session.fromJSON, bootJson. simpl. by rewrite Hbad.
Qed.

(** X19: a network registered with [addNetwork] and restored by [boot] from
    the configuration [addNetwork] has saved: the restored session has the
    hostname and the commands of the one registered and is connecting, but
    its nickname is a newly generated one, also when a nickname was given
    at the registration. *)
Theorem boot_after_addNetwork (channelFromJSON : SlingChannel -> SlingChannel)
    (generate : string -> string)
    (jDownloads : string -> option (list (string * option (list DlEntry))))
    (s s0 : State) (generated name host : string) (o : Opts) :
  networks s !! name = None ->
  exists irc s1 cfg irc' s2,
    addNetwork generated (JStr name) (JStr host) (Some o) s = Ok irc s1 /\
    disk (sc_nw s1) !! name = Some cfg /\
    boot channelFromJSON generate jDownloads [(name, cfg)] s0 = Ok tt s2 /\
    networks s2 !! name = Some (mkNetwork irc' name ∅) /\
    irc_hostname irc' = irc_hostname irc /\
    irc_commands irc' = irc_commands irc /\
    irc_status irc' = "connecting" /\
    irc_nick irc = nickname generated o /\
    irc_nick irc' = generate name.
Proof.
  intros Hfree.
  destruct (addNetwork_run s generated name host o Hfree) as (irc & Hnew & Hadd).
  set (cfg := mkNwConfig (JStr host) (persisted_opts generated o)).
  destruct (bootNetwork_run channelFromJSON generate jDownloads name cfg host s0 eq_refl)
    as (irc' & s2 & Hirc' & Hrun & Hn2 & _).
  destruct (fromJSON_bootJson channelFromJSON generate name cfg host eq_refl)
    as (irc0 & Hirc0 & Hh & Hn & _ & Hc & Hst & _).
  rewrite Hirc' in Hirc0. injection Hirc0 as <-.
  assert (irc_hostname irc = host /\
          irc_commands irc = default [] (opts_commands o) /\
          irc_nick irc = nickname generated o)
    as (Hh0 & Hc0 & Hn0) by (by injection Hnew as <-).
  eexists irc, _, cfg, irc', s2. split; [exact Hadd|].
  split; [simpl; apply lookup_insert_eq|]. split.
  { unfold boot. rewrite forEach_cons, Hrun. done. }
  split; [rewrite Hn2; apply lookup_insert_eq|].
  split; [congruence|]. split; [by rewrite Hc, Hc0|]. split; [done|].
  split; [exact Hn0|exact Hn].
Qed.

(** ** The snapshot of the orchestrator *)

Lemma length_append s t : String.length (s +:+ t) = String.length s + String.length t.
Proof. induction s as [|c s IH]; simpl; [done|]. by rewrite IH. Qed.

Lemma append_cancel_r s1 s2 t : s1 +:+ t = s2 +:+ t -> s1 = s2.
Proof.
  revert s2. induction s1 as [|a s1 IH]; intros [|b s2] H; simpl in *.
  - done.
  - apply (f_equal String.length) in H. rewrite ?length_append in H. simpl in H.
    rewrite ?length_append in H. lia.
  - apply (f_equal String.length) in H. rewrite ?length_append in H. simpl in H.
    rewrite ?length_append in H. lia.
  - injection H as -> H. f_equal. by apply IH.
Qed.

Lemma baseZipObject_lookup (props : list string) index
    (result : gmap string (option Network)) k :
  baseZipObject props [] index result !! k =
  if bool_decide (k ∈ props) then Some None else result !! k.
Proof.
  revert index result. induction props as [|key props IH]; intros index result.
  - done.
  - cbn [baseZipObject]. rewrite IH, lookup_nil.
    repeat case_bool_decide; try done.
    + exfalso. match goal with H : k ∉ key :: props |- _ => apply H end. by right.
    + match goal with H : k ∈ key :: props |- _ => apply elem_of_cons in H as [->|?] end;
        [by rewrite lookup_insert_eq | done].
    + rewrite lookup_insert_ne; [done|]. intros Heq. subst.
      match goal with H : ?x ∉ ?x :: props |- _ => apply H end. by left.
Qed.

(** X20: [toJSON] of the orchestrator lists the finished requests, but it holds
    no network: [_.zipObject] takes the [[key, value]] pairs it is handed
    for the names of properties and has no values for them, so the object
    under [networks] has, for every registered network, a property called
    [<name>,[object Object]] whose value is [undefined], and nothing
    else. *)
Theorem toJSON_holds_no_network (s : State) :
  snap_finished (toJSON s) = finished s /\
  (forall k v, snap_networks (toJSON s) !! k = Some v -> v = None) /\
  (forall name,
     is_Some (networks s !! name) <->
     is_Some (snap_networks (toJSON s) !! (name +:+ ",[object Object]"))) /\
  (forall k,
     is_Some (snap_networks (toJSON s) !! k) ->
     exists name, k = name +:+ ",[object Object]" /\ is_Some (networks s !! name)).
Proof.
  split; [done|]. unfold toJSON, zipObject. simpl.
  assert (forall k, k ∈ map pairToString (map_to_list (networks s)) <->
                    exists name, k = name +:+ ",[object Object]" /\
                                 is_Some (networks s !! name)) as Hkeys.
  { intros k. split.
    - intros ([name nw] & -> & Hin)%list_elem_of_fmap. exists name. split; [done|].
      apply elem_of_map_to_list in Hin. eauto.
    - intros (name & -> & [nw Hnw]). apply list_elem_of_fmap. exists (name, nw).
      split; [done|]. by apply elem_of_map_to_list. }
  split; [|split].
  - intros k v. rewrite baseZipObject_lookup. case_bool_decide; [congruence|].
    by rewrite lookup_empty.
  - intros name. rewrite baseZipObject_lookup. split.
    + intros Hn. rewrite bool_decide_eq_true_2; [eauto|]. apply Hkeys. eauto.
    + case_bool_decide as Hin; [|rewrite lookup_empty; by intros [? ?]].
      intros _. apply Hkeys in Hin as (name' & Heq & Hn).
      by apply append_cancel_r in Heq as ->.
  - intros k. rewrite baseZipObject_lookup.
    case_bool_decide as Hin; [|rewrite lookup_empty; by intros [? ?]].
    intros _. by apply Hkeys.
Qed.

(** ** Building a session *)

Lemma map_set_old {V} k (v : V) m :
  k ∈ map fst m -> map fst (Session.map_set k v m) = map fst m.
Proof.
  induction m as [|[k' v'] m IH]; simpl; [by intros ?%elem_of_nil|].
  destruct (String.eqb_spec k' k) as [->|Hne]; [done|].
  intros [?|Hin]%elem_of_cons; [congruence|]. simpl. by rewrite IH.
Qed.

Lemma map_set_keys {V} k (v : V) m k' :
  k' ∈ map fst (Session.map_set k v m) <-> k' = k \/ k' ∈ map fst m.
Proof.
  destruct (decide (k ∈ map fst m)) as [Hin|Hnot].
  - rewrite map_set_old by done. split; [by right|]. by intros [->|?].
  - rewrite map_set_new by done. rewrite map_app, elem_of_app. simpl.
    rewrite list_elem_of_singleton. tauto.
Qed.

Lemma map_set_NoDup {V} k (v : V) m :
  NoDup (map fst m) -> NoDup (map fst (Session.map_set k v m)).
Proof.
  intros Hnd. destruct (decide (k ∈ map fst m)) as [Hin|Hnot].
  - by rewrite map_set_old.
  - rewrite map_set_new by done. rewrite map_app. simpl.
    apply NoDup_app. split; [done|]. split; [|apply NoDup_singleton].
    intros x Hx ->%list_elem_of_singleton. done.
Qed.

Lemma map_set_elem {V} k (v : V) m kv :
  kv ∈ Session.map_set k v m -> kv = (k, v) \/ kv ∈ m.
Proof.
  induction m as [|[k' v'] m IH]; simpl.
  - intros ->%list_elem_of_singleton. by left.
  - destruct (String.eqb_spec k' k) as [->|Hne].
    + intros [->|Hin]%elem_of_cons; [by left|]. right. by right.
    + intros [->|Hin]%elem_of_cons; [right; by left|].
      destruct (IH Hin) as [->|?]; [by left|]. right. by right.
Qed.

Lemma foldl_map_set_wf (l : list SlingChannel) m :
  NoDup (map fst m) ->
  Forall (fun kc => fst kc = chan_name (snd kc)) m ->
  let r := foldl (fun chans channel => Session.map_set (chan_name channel) channel chans)
                 m l in
  NoDup (map fst r) /\
  Forall (fun kc => fst kc = chan_name (snd kc)) r /\
  (forall kc, kc ∈ r -> kc ∈ m \/ snd kc ∈ l) /\
  (forall k, k ∈ map fst r <-> k ∈ map fst m \/ k ∈ map chan_name l).
Proof.
  revert m. induction l as [|c l IH]; intros m Hnd Hwf; simpl.
  - split; [done|]. split; [done|]. split; [by left|].
    intros k. split; [by left|]. by intros [?|?%elem_of_nil].
  - destruct (IH (Session.map_set (chan_name c) c m)) as (H1 & H2 & H3 & H4).
    + by apply map_set_NoDup.
    + rewrite Forall_forall in *. intros kc [->|Hin]%map_set_elem; [done|]. by apply Hwf.
    + split; [done|]. split; [done|]. split.
      * intros kc Hkc. destruct (H3 kc Hkc) as [[->|?]%map_set_elem|?].
        -- right. by left.
        -- by left.
        -- right. by right.
      * intros k. rewrite H4, map_set_keys, elem_of_cons. tauto.
Qed.

(** X21: what the constructor accepts and what it builds.  It throws for a
    hostname that is not a string and, after that, for an [onPackinfo] that
    is neither a function nor [undefined]; these are its only errors.  The
    session it builds is connecting, has no errors, notices or message of
    the day, uses the nickname given, or a generated one if none is given,
    also for its client, and keeps the commands given.  Its channels are
    the ones given, each filed under its name, no name twice. *)
Theorem new_builds_session (generated : string) (hostname : jsval) (opts : Opts) :
  match Session.new generated hostname opts with
  | inr p =>
      hostname = JStr (irc_hostname p) /\
      opts_onPackinfo opts ≠ CbOther /\
      irc_packCb p = opts_onPackinfo opts /\
      irc_nick p = (match opts_nick opts with JStr n => n | _ => generated end) /\
      client_nick (irc_client p) = irc_nick p /\
      client_server (irc_client p) = irc_hostname p /\
      irc_commands p = default [] (opts_commands opts) /\
      irc_status p = "connecting" /\
      irc_errors p = [] /\ irc_notices p = [] /\ irc_motd p = "" /\
      chans_wf p /\
      (forall k channel,
         (k, channel) ∈ irc_chans p -> channel ∈ default [] (opts_channels opts)) /\
      (forall k,
         k ∈ map fst (irc_chans p) <->
         k ∈ map chan_name (default [] (opts_channels opts)))
  | inl e =>
      (isString hostname = false /\ e = "hostname must be a string") \/
      (isString hostname = true /\ opts_onPackinfo opts = CbOther /\
       e = "onPackinfo must be a function")
  end.
Proof.
  unfold Session.new.
  destruct hostname as [| | | |host]; try (left; by split).
  destruct (foldl_map_set_wf (default [] (opts_channels opts)) [])
    as (H1 & H2 & H3 & H4); [apply NoDup_nil_2 | apply Forall_nil_2 |].
  destruct (opts_onPackinfo opts) eqn:Hcb; [| |right; by repeat split].
  all: simpl; do 11 (split; [done|]); (split; [by split|]); split.
  all: try (intros k channel Hin; by destruct (H3 _ Hin) as [?%elem_of_nil|?]).
  all: intros k; rewrite H4; split; [by intros [?%elem_of_nil|?] | by right].
Qed.

(** X22: what [fromJSON] accepts and what it builds.  It throws for an argument
    that is no object and for a snapshot whose hostname is not a string,
    and for nothing else.  The session it builds is connecting and has no
    errors, notices or message of the day, whatever the snapshot holds;
    its nickname is the property [nick] of the snapshot itself if that is
    a string, and a generated one otherwise. *)
Theorem fromJSON_accepts (channelFromJSON : SlingChannel -> SlingChannel)
    (generated : string) (json : option Json) :
  match Session.fromJSON channelFromJSON generated json with
  | inr p =>
      exists j,
        json = Some j /\
        json_hostname j = JStr (irc_hostname p) /\
        irc_nick p = (match json_nick j with JStr n => n | _ => generated end) /\
        irc_commands p = default [] (json_opts j ≫= jo_commands) /\
        irc_status p = "connecting" /\
        irc_errors p = [] /\ irc_notices p = [] /\ irc_motd p = ""
  | inl e =>
      (json = None /\ e = "parameter is not type object") \/
      (exists j, json = Some j /\ isString (json_hostname j) = false /\
                 e = "parameter json.hostname ist not a string")
  end.
Proof.
  destruct json as [j|]; simpl; [|left; by split].
  destruct (json_hostname j) as [| | | |host] eqn:Hh; simpl;
    try (right; exists j; rewrite Hh; by repeat split).
  unfold Session.new, Session.fromJSON_opts.
  destruct (json_opts j) as [o|] eqn:Ho; simpl.
  - destruct (jo_onPackinfo o); simpl; exists j; rewrite Hh, Ho;
      repeat split; try done; by destruct (json_nick j).
  - exists j. rewrite Hh, Ho. repeat split; try done. by destruct (json_nick j).
Qed.

(** X23: a snapshot taken of a session and built into a session again.  The
    rebuilt session has the hostname, the commands and the settings of the
    protocol client of the original (the latter as long as these are
    settings that came out of the constructor), and, if
    [SlingChannel.fromJSON] keeps the name of a channel, the channels of
    the original under the same names, in reverse order.  It does not have
    the errors, the notices and the message of the day of the original,
    and it is connecting whatever the status of the original was. *)
Theorem snapshot_round_trip (channelFromJSON : SlingChannel -> SlingChannel)
    (generated : string) (p : SlingIrc) (options : gmap string jsval) (nick : string) :
  client_opt (irc_client p) = Session.clientOptions options nick ->
  (forall c, chan_name (channelFromJSON c) = chan_name c) ->
  chans_wf p ->
  exists p',
    Session.fromJSON channelFromJSON generated (Some (Session.toJSON p)) = inr p' /\
    irc_hostname p' = irc_hostname p /\
    irc_commands p' = irc_commands p /\
    client_opt (irc_client p') = client_opt (irc_client p) /\
    irc_chans p' =
      rev (map (fun kc => (fst kc, channelFromJSON (snd kc))) (irc_chans p)) /\
    irc_status p' = "connecting" /\
    irc_errors p' = [] /\ irc_notices p' = [] /\ irc_motd p' = "".
Proof.
  intros Hopt Hname Hwf.
  destruct (fromJSON_toJSON channelFromJSON generated p)
    as (p' & Hrun & Hh & Hc & Hst & _ & _).
  destruct (fromJSON_toJSON_channels channelFromJSON generated p p' Hname Hwf Hrun)
    as [Hch _].
  exists p'. do 3 (split; [done|]). split; [|split; [done|split; [done|]]].
  - revert Hrun. unfold Session.fromJSON, Session.new. simpl. intros [= <-]. simpl.
    rewrite Hopt. apply clientOptions_idem.
  - revert Hrun. unfold Session.fromJSON, Session.new. simpl. by intros [= <-].
Qed.

(** ** The channels of a session *)

Lemma get_None {V} k (m : list (string * V)) : JsMap.get k m = None <-> k ∉ map fst m.
Proof.
  unfold JsMap.get. induction m as [|[k' v] m IH]; simpl.
  - split; [intros _; apply not_elem_of_nil | done].
  - destruct (String.eqb_spec k' k) as [->|Hne]; simpl.
    + split; [done|]. intros H. destruct H. by left.
    + rewrite IH, not_elem_of_cons. split; [by split|tauto].
Qed.

Lemma get_Some_elem {V} k (m : list (string * V)) v :
  JsMap.get k m = Some v -> (k, v) ∈ m.
Proof.
  unfold JsMap.get. induction m as [|[k' v'] m IH]; simpl; [done|].
  destruct (String.eqb_spec k' k) as [->|Hne]; simpl.
  - intros [= ->]. by left.
  - intros H. right. by apply IH.
Qed.

Lemma get_map_set_eq {V} k (v : V) m : JsMap.get k (Session.map_set k v m) = Some v.
Proof.
  unfold JsMap.get. induction m as [|[k' v'] m IH]; simpl.
  - by rewrite String.eqb_refl.
  - destruct (String.eqb_spec k' k) as [->|Hne]; simpl.
    + by rewrite String.eqb_refl.
    + destruct (String.eqb_spec k' k); [done|]. apply IH.
Qed.


Lemma get_update {V} k k' (f : V -> V) m :
  JsMap.get k' (JsMap.update k f m) =
  if String.eqb k' k then f <$> JsMap.get k' m else JsMap.get k' m.
Proof.
  unfold JsMap.get, JsMap.update. induction m as [|[k0 v0] m IH]; simpl.
  - by destruct (String.eqb k' k).
  - destruct (String.eqb_spec k0 k) as [->|Hne0]; simpl.
    + destruct (String.eqb_spec k k') as [->|Hne]; simpl.
      * by rewrite String.eqb_refl.
      * rewrite IH. destruct (String.eqb_spec k' k); [congruence|done].
    + destruct (String.eqb_spec k0 k') as [->|Hne]; simpl.
      * by destruct (String.eqb_spec k' k).
      * apply IH.
Qed.

Lemma get_delete {V} k k' (m : list (string * V)) :
  JsMap.get k' (JsMap.delete k m) = if String.eqb k' k then None else JsMap.get k' m.
Proof.
  unfold JsMap.get, JsMap.delete. induction m as [|[k0 v0] m IH]; simpl.
  - by destruct (String.eqb k' k).
  - destruct (String.eqb_spec k0 k) as [->|Hne0]; simpl.
    + rewrite IH. destruct (String.eqb_spec k' k) as [->|Hne]; [done|].
      by destruct (String.eqb_spec k k'); [congruence|].
    + destruct (String.eqb_spec k0 k') as [->|Hne]; simpl.
      * by destruct (String.eqb_spec k' k).
      * apply IH.
Qed.

Lemma listeners_app event l1 l2 held :
  listeners event (l1 ++ l2) held = listeners event l2 (listeners event l1 held).
Proof.
  revert held. induction l1 as [|c l1 IH]; intros held; simpl; [done|].
  destruct c; apply IH.
Qed.

Lemma wf_get_name (p : SlingIrc) k chan :
  chans_wf p -> JsMap.get k (irc_chans p) = Some chan -> chan_name chan = k.
Proof.
  intros [_ Hwf] Hget. apply get_Some_elem in Hget.
  rewrite Forall_forall in Hwf. by specialize (Hwf _ Hget).
Qed.

Lemma resume_new name channel waiting :
  Irc.resume name waiting = None ->
  Irc.resume name (waiting ++ [(name, channel)]) = Some (channel, waiting).
Proof.
  induction waiting as [|[n c] l IH]; simpl.
  - by rewrite String.eqb_refl.
  - destruct (String.eqb n name); [done|].
    destruct (Irc.resume name l) as [[c' r]|]; [done|]. intros _. by rewrite IH.
Qed.

(** ** The events of the channels *)


Lemma chans_set_chans f w : chans (set_chans f w) = f (chans w).
Proof. reflexivity. Qed.

Lemma chans_call_client c w : chans (call_client c w) = chans w.
Proof. reflexivity. Qed.

Lemma observers_set_chans name f w : observers name (set_chans f w) = observers name w.
Proof. reflexivity. Qed.

Lemma observers_removed name w :
  observers name (call_client (ClientRemoveAllListeners ("message" +:+ name)) w) = [].
Proof.
  unfold observers. simpl. rewrite listeners_app. simpl. by rewrite String.eqb_refl.
Qed.

Lemma observers_added name channel w :
  observers name (call_client (ClientOn ("message" +:+ name) channel) w) =
  observers name w ++ [channel].
Proof.
  unfold observers. simpl. rewrite listeners_app. simpl. by rewrite String.eqb_refl.
Qed.

(** X25: [removeChannel] throws for a channel the session does not have.  For
    one it has, it only asks the client to part; the channel is dropped
    when the part event of the own nickname arrives: then the listeners
    for the messages of the channel are removed, the channel is no longer
    among the channels of the session, the other channels are as before,
    and a second [removeChannel] throws.  The part event of another
    nickname changes nothing. *)
Theorem removeChannel_then_part_event (w : Wire) (channel chan : SlingChannel)
    (event nick : string) :
  let name := chan_name channel in
  Handle.own nick w = true ->
  chans_wf (wire_privates w) ->
  JsMap.get name (chans w) = Some chan ->
  JsString.toLowerCase event = name ->
  exists w1 w2,
    Irc.removeChannel channel w = inr w1 /\
    chans w1 = chans w /\
    wire_calls w1 = wire_calls w ++ [ClientPart name] /\
    Handle.part event nick w1 = inr w2 /\
    JsMap.get name (chans w2) = None /\
    (forall k, k ≠ name -> JsMap.get k (chans w2) = JsMap.get k (chans w)) /\
    observers name w2 = [] /\
    Irc.removeChannel channel w2 = inl "channel don't exists" /\
    (forall other, Handle.own other w = false -> Handle.part event other w1 = inr w1).
Proof.
  intros name Hown Hwf Hget Hev.
  pose proof (wf_get_name _ _ _ Hwf Hget) as Hname.
  unfold Irc.removeChannel. fold name. rewrite Hget.
  eexists. eexists. split; [reflexivity|]. split; [reflexivity|].
  split; [unfold Irc.part; simpl; by rewrite Hname|].
  unfold Handle.part.
  assert (Handle.own nick (Irc.part chan w) = true) as -> by exact Hown.
  rewrite Hev. assert (chans (Irc.part chan w) = chans w) as -> by reflexivity.
  rewrite Hget. split; [reflexivity|]. rewrite Hname.
  split; [|split; [|split; [|split]]].
  - unfold chans. simpl. by rewrite get_delete, String.eqb_refl.
  - intros k Hne. unfold chans. simpl. rewrite get_delete, get_update.
    by destruct (String.eqb_spec k name).
  - apply observers_removed.
  - unfold chans. simpl. by rewrite get_delete, String.eqb_refl.
  - intros other Hother.
    by assert (Handle.own other (Irc.part chan w) = false) as -> by exact Hother.
Qed.

(** X26: a kick of the own nickname leaves the channel among the channels of
    the session, marked as kicked, and removes the listeners for its
    messages; the join event that follows when the client joins again
    marks the channel as joined and, if the channel is to be observed,
    binds the announcement parser to its messages once.  Unlike the
    handlers of the join and the part event, the handler of the kick event
    looks the channel up under the name as the event spells it: spelled
    with an upper-case letter, the name of a channel filed in lower case
    is not found, and the handler raises a [TypeError]. *)
Theorem kick_then_rejoin (w : Wire) (name nick : string) (chan : SlingChannel) :
  Handle.own nick w = true ->
  chans_wf (wire_privates w) ->
  JsMap.get name (chans w) = Some chan ->
  name = JsString.toLowerCase name ->
  (exists w1 w2,
     Handle.kick name nick w = inr w1 /\
     JsMap.get name (chans w1) = Some (with_status "kicked" chan) /\
     observers name w1 = [] /\
     Handle.join name nick w1 = inr w2 /\
     JsMap.get name (chans w2) = Some (with_status "joined" chan) /\
     observers name w2 =
       (if chan_observed chan then [with_status "joined" chan] else [])) /\
  (forall event,
     JsString.toLowerCase event = name ->
     JsMap.get event (chans w) = None ->
     Handle.kick event nick w = inl TypeError /\
     exists w', Handle.join event nick w = inr w').
Proof.
  intros Hown Hwf Hget Hlow.
  pose proof (wf_get_name _ _ _ Hwf Hget) as Hname. split.
  - unfold Handle.kick. rewrite Hown, Hget, Hname.
    set (w0 := set_chans (JsMap.update name (with_status "kicked")) w).
    set (w1 := call_client (ClientRemoveAllListeners ("message" +:+ name)) w0).
    assert (JsMap.get name (chans w1) = Some (with_status "kicked" chan)) as Hget1.
    { unfold chans. simpl. fold (chans w).
      by rewrite get_update, String.eqb_refl, Hget. }
    assert (observers name w1 = []) as Hobs1 by apply observers_removed.
    eexists. eexists. split; [reflexivity|]. split; [exact Hget1|].
    split; [exact Hobs1|].
    unfold Handle.join.
    assert (Handle.own nick w1 = true) as -> by exact Hown.
    rewrite <- Hlow, Hget1. split; [reflexivity|].
    cbn [chan_observed with_status].
    assert (JsMap.get name
              (chans (set_chans (JsMap.update name (with_status "joined")) w1)) =
            Some (with_status "joined" chan)) as Hget2.
    { by rewrite chans_set_chans, get_update, String.eqb_refl, Hget1. }
    destruct (chan_observed chan) eqn:Hobs.
    + split; [exact Hget2|].
      unfold Irc.observe. cbn [chan_name with_status]. rewrite Hname.
      by rewrite observers_added, observers_set_chans, Hobs1.
    + split; [exact Hget2|]. by rewrite observers_set_chans.
  - intros event Hev Hnone. split.
    + unfold Handle.kick. by rewrite Hown, Hnone.
    + unfold Handle.join. rewrite Hown, Hev, Hget. eauto.
Qed.

(** X27: the announcement parser is bound anew by every join event of the own
    nickname, and nothing but a part or a kick removes it.  After [n] such
    events in a row for an observed channel, the parser is bound to
    the messages of the channel [n] times, and a line that matches the
    pattern of the channel is reported to the callback of the session [n]
    times. *)
Theorem join_events_accumulate_observers
    (regexMatch : string -> string -> option (list (option string)))
    (w : Wire) (name nick sender text : string) (chan : SlingChannel)
    (packinfo : list (option string)) (n : nat) :
  let event w := match Handle.join name nick w with inr w' => w' | inl _ => w end in
  let w' := Nat.iter n event w in
  let joined := with_status "joined" chan in
  Handle.own nick w = true ->
  chans_wf (wire_privates w) ->
  JsMap.get name (chans w) = Some chan ->
  name = JsString.toLowerCase name ->
  chan_observed chan = true ->
  observers name w = [] ->
  irc_packCb (wire_privates w) = CbFunction ->
  regexMatch text (chan_regex chan) = Some packinfo ->
  observers name w' = replicate n joined /\
  message regexMatch name sender text w' =
    replicate n
      (Parser.scaleSize (Parser.mapGroups (chan_groupOrder chan) packinfo 0 ∅),
       joined, sender).
Proof.
  intros event w' joined Hown Hwf Hget Hlow Hobserved Hobs Hcb Hmatch.
  pose proof (wf_get_name _ _ _ Hwf Hget) as Hname.
  assert (Handle.own nick w' = true /\
          irc_packCb (wire_privates w') = CbFunction /\
          (exists c, JsMap.get name (chans w') = Some c /\
                     with_status "joined" c = joined) /\
          observers name w' = replicate n joined) as (_ & Hcb' & _ & Hobs').
  { unfold w'. clear w'. induction n as [|n (Hown' & Hcb' & (c & Hget' & Hc) & Hobs')].
    - simpl. split; [done|]. split; [done|]. split; [by exists chan|done].
    - change (Nat.iter (S n) event w) with (event (Nat.iter n event w)).
      set (wn := Nat.iter n event w) in *.
      assert (event wn =
              Irc.observe (with_status "joined" c)
                (set_chans (JsMap.update name (with_status "joined")) wn)) as ->.
      { unfold event, Handle.join. rewrite Hown', <- Hlow, Hget'.
        cbn [chan_observed with_status].
        assert (chan_observed c = true) as ->; [|done].
        pose proof (f_equal chan_observed Hc) as Hc'. simpl in Hc'.
        by rewrite Hc'. }
      split; [exact Hown'|]. split; [exact Hcb'|]. split.
      + exists (with_status "joined" c). split; [|by rewrite Hc].
        unfold Irc.observe. rewrite chans_call_client, chans_set_chans.
        by rewrite get_update, String.eqb_refl, Hget'.
      + unfold Irc.observe. rewrite Hc. cbn [chan_name joined with_status].
        rewrite Hname, observers_added, observers_set_chans, Hobs'.
        change [joined] with (replicate 1 joined).
        rewrite <- replicate_add. f_equal. lia. }
  split; [exact Hobs'|].
  unfold message. rewrite Hobs', Hcb'.
  assert (forall m,
            omap (fun channel =>
                    Parser.packParse regexMatch CbFunction channel sender text)
                 (replicate m joined) =
            replicate m
              (Parser.scaleSize (Parser.mapGroups (chan_groupOrder chan) packinfo 0 ∅),
               joined, sender)) as Hall; [|apply Hall].
  induction m as [|m IH]; simpl; [done|].
  unfold Parser.packParse at 1. cbn [chan_regex joined with_status].
  rewrite Hmatch. simpl. f_equal. apply IH.
Qed.

(** X28: [addChannel] with a channel whose name is taken: the series first asks
    the client to part the old channel, and neither the channels of the
    session nor anything else changes yet.  When the part event of the own
    nickname has dropped the old channel and the client then calls the
    series back, the new channel is joined and filed under the name.  If
    the client calls the series back before the part event is handled, the
    part event finds the new channel under the name and drops it: the
    session has then asked to join a channel it does not keep. *)
Theorem addChannel_replaces_after_part (w : Wire) (old new : SlingChannel)
    (nick : string) :
  let name := chan_name new in
  let c := Irc.joinTarget new in
  let w1 := Irc.addChannel new w in
  Handle.own nick w = true ->
  chans_wf (wire_privates w) ->
  JsMap.get name (chans w) = Some old ->
  name = JsString.toLowerCase name ->
  Irc.resume name (wire_parting w) = None ->
  chans w1 = chans w /\
  wire_calls w1 = wire_calls w ++ [ClientPart name] /\
  (exists w2,
     Handle.part name nick w1 = inr w2 /\
     let w3 := Irc.partCallback name w2 in
     JsMap.get name (chans w3) = Some new /\
     wire_calls w3 =
       wire_calls w ++ [ClientPart name;
                        ClientRemoveAllListeners ("message" +:+ name);
                        ClientJoin c] /\
     wire_parting w3 = wire_parting w) /\
  (let w2 := Irc.partCallback name w1 in
   exists w3,
     Handle.part name nick w2 = inr w3 /\
     JsMap.get name (chans w3) = None /\
     wire_calls w3 =
       wire_calls w ++ [ClientPart name; ClientJoin c;
                        ClientRemoveAllListeners ("message" +:+ name)]).
Proof.
  intros name c w1 Hown Hwf Hget Hlow Hwait.
  pose proof (wf_get_name _ _ _ Hwf Hget) as Hname.
  assert (w1 = set_parting (fun l => l ++ [(name, new)]) (Irc.part old w)) as Hw1.
  { unfold w1, Irc.addChannel. fold name. by rewrite Hget, Hname. }
  assert (Irc.resume name (wire_parting w1) = Some (new, wire_parting w)) as Hres.
  { rewrite Hw1. simpl. by apply resume_new. }
  split; [by rewrite Hw1|]. split; [rewrite Hw1; simpl; by rewrite Hname|].
  split.
  - unfold Handle.part.
    assert (Handle.own nick w1 = true) as -> by (rewrite Hw1; exact Hown).
    rewrite <- Hlow. assert (chans w1 = chans w) as -> by by rewrite Hw1.
    rewrite Hget, Hname. eexists. split; [reflexivity|].
    unfold Irc.partCallback. cbn [wire_parting set_chans set_privates call_client].
    rewrite Hres. split; [|split].
    + unfold Irc.join. rewrite chans_call_client, chans_set_chans.
      apply get_map_set_eq.
    + rewrite Hw1. simpl. rewrite Hname. by rewrite <- !app_assoc.
    + done.
  - unfold Irc.partCallback. rewrite Hres.
    unfold Handle.part.
    assert (forall v, Handle.own nick (Irc.join new v) = Handle.own nick v) as ->
      by done.
    assert (Handle.own nick (set_parting (fun _ => wire_parting w) w1) = true) as ->
      by (rewrite Hw1; exact Hown).
    rewrite <- Hlow. unfold Irc.join at 1. fold name.
    rewrite chans_call_client, chans_set_chans, get_map_set_eq.
    eexists. split; [reflexivity|]. split.
    + rewrite chans_set_chans, get_delete. cbn [chan_name]. fold name.
      by rewrite String.eqb_refl.
    + rewrite Hw1. simpl. rewrite Hname. by rewrite <- !app_assoc.
Qed.

(** ** The fields of an announcement *)




(** ** The registered event *)

Lemma map_set_same {V} k (v : V) m :
  NoDup (map fst m) -> (k, v) ∈ m -> Session.map_set k v m = m.
Proof.
  induction m as [|[k' v'] m IH]; simpl; [by intros _ ?%elem_of_nil|].
  intros Hnd Hin. inversion Hnd as [|? ? Hk' Hnd']; subst.
  destruct (String.eqb_spec k' k) as [->|Hne].
  - apply elem_of_cons in Hin as [[= ->]|Hin]; [done|].
    destruct Hk'. apply list_elem_of_fmap. by exists (k, v).
  - apply elem_of_cons in Hin as [[= -> ->]|Hin]; [done|]. by rewrite IH.
Qed.

Lemma join_tracked (w : Wire) entry :
  chans_wf (wire_privates w) -> entry ∈ chans w ->
  Irc.join (snd entry) w = call_client (ClientJoin (Irc.joinTarget (snd entry))) w.
Proof.
  intros [Hnd Hwf] Hin. unfold Irc.join. f_equal.
  rewrite Forall_forall in Hwf. rewrite <- (Hwf _ Hin).
  destruct w as [[c n h e m nt cm st ch cb] calls parting timers].
  unfold set_chans, set_privates. simpl in *. do 2 f_equal.
  apply map_set_same; [done|]. by destruct entry.
Qed.

Lemma forEachJoin_tracked (w : Wire) visits i :
  chans_wf (wire_privates w) ->
  length (chans w) <= i + visits ->
  Handle.forEachJoin visits i w =
  mkWire (wire_privates w)
         (wire_calls w ++
          map (fun entry => ClientJoin (Irc.joinTarget (snd entry))) (drop i (chans w)))
         (wire_parting w) (wire_timers w).
Proof.
  revert i w. induction visits as [|visits IH]; intros i w Hwf Hlen; simpl.
  - rewrite drop_ge by lia. simpl. rewrite app_nil_r. by destruct w.
  - destruct (chans w !! i) as [entry|] eqn:Hi.
    + rewrite join_tracked by (done || by eapply list_elem_of_lookup_2).
      rewrite IH; [|done|change (length (chans w) <= S i + visits); lia].
      simpl. fold (chans w). rewrite (drop_S _ _ _ Hi). simpl.
      by rewrite <- app_assoc.
    + apply lookup_ge_None in Hi. rewrite drop_ge by done. simpl.
      rewrite app_nil_r. by destruct w.
Qed.

Lemma timer_run (w : Wire) i command rest :
  wire_timers w !! i = Some (command :: rest) ->
  Handle.timer i w =
  mkWire (wire_privates w) (wire_calls w ++ [ClientSend command]) (wire_parting w)
         (<[i := rest]> (wire_timers w)).
Proof. intros H. unfold Handle.timer. by rewrite H. Qed.

(** X30: the registered event.  The session is connected and takes the nickname
    of its client, on which the handlers of the join, part and kick events
    then go.  The first of its commands is sent at once and the others are
    left to the timers; the client is then asked to join every channel of
    the session, in the order in which they were filed, with the password
    where there is one; the channels themselves are as before.  Every timer
    that fires sends the next command: when all have fired, the commands
    have been sent once each and in their order, the first before the
    joins and the others after them. *)
Theorem registered_sends_commands_and_joins (w : Wire) :
  let w' := Handle.registered w in
  let commands := irc_commands (wire_privates w) in
  let joins := map (fun entry => ClientJoin (Irc.joinTarget (snd entry))) (chans w) in
  let series := length (wire_timers w) in
  chans_wf (wire_privates w) ->
  irc_status (wire_privates w') = "connected" /\
  irc_nick (wire_privates w') = client_nick (irc_client (wire_privates w)) /\
  (forall nick, Handle.own nick w' =
                String.eqb nick (client_nick (irc_client (wire_privates w)))) /\
  chans w' = chans w /\
  wire_calls w' = wire_calls w ++ map ClientSend (take 1 commands) ++ joins /\
  wire_calls (Nat.iter (length commands - 1) (Handle.timer series) w') =
    wire_calls w ++ map ClientSend (take 1 commands) ++ joins ++
    map ClientSend (drop 1 commands).
Proof.
  intros w' commands joins series Hwf.
  assert (forall w0,
            chans w0 = chans w ->
            Handle.forEachJoin (2 * length (chans w0)) 0 w0 =
            mkWire (wire_privates w0) (wire_calls w0 ++ joins) (wire_parting w0)
                   (wire_timers w0)) as Hjoins.
  { intros w0 Hch.
    assert (chans_wf (wire_privates w0)) as Hwf0.
    { unfold chans_wf. fold (chans w0). rewrite Hch. exact Hwf. }
    rewrite forEachJoin_tracked; [|exact Hwf0 | lia].
    by rewrite drop_0, Hch. }
  unfold w', commands, Handle.registered. clear w' commands. cbv zeta.
  cbn [irc_commands wire_privates set_privates].
  destruct (irc_commands (wire_privates w)) as [|command rest] eqn:Hcmd.
  - cbn [Handle.eachSeries]. rewrite Hjoins by reflexivity. simpl.
    rewrite !app_nil_r. by repeat split.
  - cbn [Handle.eachSeries]. rewrite Hjoins by reflexivity. simpl.
    rewrite <- app_assoc. simpl. do 4 (split; [done|]). split; [done|].
    rewrite Nat.sub_0_r.
    match goal with
    | |- wire_calls (Nat.iter _ _ (mkWire ?p _ _ _)) = _ => set (p1 := p)
    end.
    set (calls0 := wire_calls w ++ ClientSend command :: joins).
    assert (forall todo sent,
              wire_calls
                (Nat.iter (length todo) (Handle.timer series)
                   (mkWire p1 (calls0 ++ map ClientSend sent) (wire_parting w)
                           (wire_timers w ++ [todo]))) =
              calls0 ++ map ClientSend (sent ++ todo)) as Hiter.
    { induction todo as [|c todo IH]; intros sent.
      - simpl. by rewrite app_nil_r.
      - change (length (c :: todo)) with (S (length todo)).
        rewrite Nat.iter_succ_r.
        rewrite (timer_run _ series c todo)
          by (simpl; by rewrite lookup_app_r, Nat.sub_diag by done).
        simpl. rewrite insert_app_r_alt, Nat.sub_diag by done. simpl.
        replace ((calls0 ++ map ClientSend sent) ++ [ClientSend c])
          with (calls0 ++ map ClientSend (sent ++ [c]))
          by (by rewrite map_app, app_assoc).
        rewrite IH. by rewrite <- app_assoc. }
    specialize (Hiter rest []). simpl in Hiter. rewrite app_nil_r in Hiter.
    rewrite Hiter. unfold calls0. by rewrite <- app_assoc.
Qed.

(** ** More theorems at concrete inputs *)

Lemma idle_reachable : reachable Sample.idle.
Proof. apply perform_reachable, empty_reachable. Qed.

Lemma checked_reachable : reachable Sample.checked.
Proof. apply perform_reachable, loaded_reachable. Qed.

Lemma network_lifecycle_witness :
  networks (Scenario.empty Scenario.store) !! "net" = None /\
  exists irc s1 s2 s3,
    addNetwork "nomi" (JStr "net") (JStr "irc.example.org") (Some Scenario.options)
      (Scenario.empty Scenario.store) = Ok irc s1 /\
    removeNetwork "net" ArgUndefined CbFunction s1 = Ok tt s2 /\
    removeNetwork_done "net" false CbFunction s2 = Ok tt s3 /\
    networks s3 = ∅.
Proof.
  split; [reflexivity|].
  destruct (network_lifecycle (Scenario.empty Scenario.store) "nomi" "net"
              "irc.example.org" Scenario.options ArgUndefined eq_refl)
    as (irc & s1 & s2 & s3 & H1 & _ & H2 & _ & H3 & _ & H4 & _).
  exists irc, s1, s2, s3. repeat split; assumption.
Defined.

Lemma idle_network :
  exists nw, networks Sample.idle !! "net" = Some nw /\ nw_xdcc nw = ∅.
Proof. eexists. split; vm_compute; reflexivity. Qed.

Lemma removeNetwork_error_keeps_network_witness :
  exists nw s1,
    networks Sample.idle !! "net" = Some nw /\ nw_xdcc nw = ∅ /\
    removeNetwork "net" (ArgBool true) CbFunction Sample.idle = Ok tt s1 /\
    removeNetwork_done "net" true CbFunction s1 = Ok tt s1 /\
    getNetwork "net" s1 = Ok (set_irc disconnect nw) s1.
Proof.
  destruct idle_network as (nw & Hn & He).
  destruct (removeNetwork_error_keeps_network Sample.idle "net" nw (ArgBool true) Hn He)
    as (s1 & H1 & H2 & H3 & _).
  exists nw, s1. repeat split; assumption.
Defined.

Lemma removeNetwork_without_callback_witness :
  exists nw s1 s2,
    networks Sample.idle !! "net" = Some nw /\ nw_xdcc nw = ∅ /\
    removeNetwork "net" ArgUndefined CbUndefined Sample.idle = Ok tt s1 /\
    removeNetwork_done "net" false CbUndefined s1 = Throw TypeError s2 /\
    networks s2 !! "net" = None.
Proof.
  destruct idle_network as (nw & Hn & He).
  destruct (removeNetwork_without_callback Sample.idle "net" nw ArgUndefined Hn He)
    as (s1 & s2 & H1 & H2 & H3 & _).
  exists nw, s1, s2. repeat split; assumption.
Defined.

Lemma cancelDownload_without_callback_witness :
  isFunction CbUndefined = false /\
  cancelDownload "net" "bot" "b" CbUndefined Scenario.loaded =
    Throw TypeError
      (state_of (cancelDownload "net" "bot" "b" CbFunction Scenario.loaded)).
Proof.
  split; [reflexivity|].
  apply (cancelDownload_without_callback Scenario.loaded "net" "bot" "b" CbUndefined).
  reflexivity.
Defined.

Lemma checked_queue :
  queue "net" "bot" Sample.checked = Some [Scenario.pack_a; Scenario.pack_b].
Proof. vm_compute. reflexivity. Qed.

Lemma xdccConnect_checks_filename_witness :
  reachable Sample.checked /\
  queue "net" "bot" Sample.checked = Some [Scenario.pack_a; Scenario.pack_b] /\
  exists x s',
    pack_xdcc Scenario.pack_a = Some x /\
    xdccConnect Scenario.pack_a "other.bin" Sample.checked = Ok tt s' /\
    emitted s' = emitted Sample.checked ++ [(ax_id x, Cancel)].
Proof.
  split; [apply checked_reachable|]. split; [apply checked_queue|].
  pose proof (xdccConnect_checks_filename Sample.checked Scenario.pack_a Scenario.pack_a
                [Scenario.pack_b] "other.bin" checked_reachable checked_queue) as H.
  assert (checkFilename Sample.checked &&
          negb (String.eqb "other.bin" (pack_name Scenario.pack_a)) = true) as Hc
    by (vm_compute; reflexivity).
  rewrite Hc in H. destruct H as (x & s' & Hx & Hrun & _ & He & _).
  exists x, s'. repeat split; assumption.
Defined.

Lemma canceled_progress_pops_head_witness :
  reachable Scenario.loaded /\
  queue "net" "bot" Scenario.loaded = Some [Scenario.pack_a; Scenario.pack_b] /\
  exists s',
    xdccProgress Scenario.pack_a "canceled" Scenario.loaded = Ok tt s' /\
    finished s' = finished Scenario.loaded /\
    pending s' = pending Scenario.loaded /\
    Config.get "net:bot" (sc_dl s') = Some (tail (pendingList "net" "bot" Scenario.loaded)).
Proof.
  split; [apply loaded_reachable|]. split; [apply loaded_queue|].
  destruct (proj1 (canceled_progress_pops_head Scenario.loaded Scenario.pack_a
                     Scenario.pack_a [Scenario.pack_b] loaded_reachable loaded_queue))
    as (s' & Hrun & Hf & Hp & _ & Hdl & _).
  exists s'. repeat split; assumption.
Defined.

Lemma cancel_then_canceled_progress_skips_next_witness :
  reachable Scenario.loaded /\
  queue "net" "bot" Scenario.loaded = Some [Scenario.pack_a; Scenario.pack_b] /\
  let s1 := run (CancelDownload "net" "bot" "a" CbFunction) Scenario.loaded in
  let s2 := run (XdccProgress Scenario.pack_a "canceled") s1 in
  queue "net" "bot" s1 = Some [Scenario.pack_b] /\
  queue "net" "bot" s2 = None /\
  emitted s2 = emitted s1 /\
  finished s2 = finished Scenario.loaded /\
  pending s2 = pending Scenario.loaded.
Proof.
  split; [apply loaded_reachable|]. split; [apply loaded_queue|].
  destruct (cancel_then_canceled_progress_skips_next Scenario.loaded Scenario.pack_a
              Scenario.pack_a Scenario.pack_b [] loaded_reachable loaded_queue)
    as (x & _ & H1 & _ & (H2 & H3) & H4 & H5).
  intros s1 s2. exact (conj H1 (conj H2 (conj H3 (conj H4 H5)))).
Defined.

Lemma event_without_request_raises_witness :
  queue "net" "bot" Sample.idle = None /\
  xdccComplete Scenario.pack_a Sample.idle = Throw TypeError Sample.idle /\
  xdccError Scenario.pack_a Sample.idle = Throw TypeError Sample.idle /\
  xdccProgress Scenario.pack_a "canceled" Sample.idle = Throw TypeError Sample.idle.
Proof.
  assert (queue "net" "bot" Sample.idle = None) as Hq by (vm_compute; reflexivity).
  split; [exact Hq|].
  exact (proj1 (event_without_request_raises Sample.idle Scenario.pack_a) Hq).
Defined.

Lemma queues_hold_distinct_requests_witness :
  reachable Scenario.loaded /\
  NoDup (map pack_oid (finished Scenario.loaded)) /\
  forall network bot q,
    queue network bot Scenario.loaded = Some q ->
    NoDup (map pack_id q) /\ NoDup (map pack_oid q).
Proof.
  split; [apply loaded_reachable|].
  destruct (queues_hold_distinct_requests Scenario.loaded loaded_reachable)
    as (H1 & H2 & _).
  split; [exact H1|]. intros network bot q Hq.
  destruct (H2 network bot q Hq) as (Ha & Hb & _). by split.
Defined.

Lemma only_complete_changes_finished_witness :
  (forall dbpack, XdccError Scenario.pack_a ≠ XdccComplete dbpack) /\
  finished (run (XdccError Scenario.pack_a) Scenario.loaded) = finished Scenario.loaded.
Proof.
  assert (forall dbpack, XdccError Scenario.pack_a ≠ XdccComplete dbpack) as Hne
    by (intros dbpack H; discriminate H).
  split; [exact Hne|].
  exact (only_complete_changes_finished (XdccError Scenario.pack_a) Scenario.loaded Hne).
Defined.

Lemma addDownload_rejected_changes_nothing_witness :
  db Scenario.loaded "a" = DbItem (Some (mkDoc "a" "net" "bot" "a.bin")) /\
  queue "net" "bot" Scenario.loaded = Some [Scenario.pack_a; Scenario.pack_b] /\
  addDownload_continue (mkTask "a" false CbFunction) Scenario.loaded =
    Ok (CallError (JBool true)) Scenario.loaded.
Proof.
  assert (db Scenario.loaded "a" = DbItem (Some (mkDoc "a" "net" "bot" "a.bin"))) as Hdb
    by reflexivity.
  split; [exact Hdb|]. split; [apply loaded_queue|].
  refine (proj2 (proj2 (proj2 (addDownload_rejected_changes_nothing Scenario.loaded
                                 (mkTask "a" false CbFunction))))
                (mkDoc "a" "net" "bot" "a.bin") [Scenario.pack_a; Scenario.pack_b]
                Hdb loaded_queue _).
  simpl. by left.
Defined.


Lemma loaded_mirrors : mirrors "net" "bot" Scenario.loaded.
Proof. split; vm_compute; reflexivity. Qed.

Lemma pending_list_follows_queue_witness :
  reachable Scenario.loaded /\
  mirrors "net" "bot" Scenario.loaded /\
  queue "net" "bot" Scenario.loaded = Some [Scenario.pack_a; Scenario.pack_b] /\
  mirrors "net" "bot" (run (XdccComplete Scenario.pack_a) Scenario.loaded) /\
  mirrors "net" "bot" (run (XdccError Scenario.pack_a) Scenario.loaded) /\
  mirrors "net" "bot" (run (XdccProgress Scenario.pack_a "canceled") Scenario.loaded).
Proof.
  split; [apply loaded_reachable|]. split; [apply loaded_mirrors|].
  split; [apply loaded_queue|].
  exact (proj1 (pending_list_follows_queue Scenario.loaded "net" "bot"
                  loaded_reachable loaded_mirrors)
               Scenario.pack_a Scenario.pack_a [Scenario.pack_b]
               eq_refl eq_refl loaded_queue).
Defined.

Lemma config_bootable :
  Forall (fun entry => isString (cfg_hostname (snd entry)) = true) Sample.config /\
  NoDup (map fst Sample.config).
Proof.
  split; [by repeat constructor|].
  simpl. apply NoDup_cons. split; [|apply NoDup_singleton].
  intros [=]%list_elem_of_singleton.
Qed.

Lemma boot_restores_networks_witness :
  Forall (fun entry => isString (cfg_hostname (snd entry)) = true) Sample.config /\
  NoDup (map fst Sample.config) /\
  exists s' irc,
    boot Sample.channelFromJSON Sample.generate Sample.downloads Sample.config
         (Scenario.empty Scenario.store) = Ok tt s' /\
    networks s' !! "net" = Some (mkNetwork irc "net" ∅) /\
    irc_nick irc = "guest-net" /\
    irc_status irc = "connecting".
Proof.
  destruct config_bootable as [Hstr Hnd]. split; [exact Hstr|]. split; [exact Hnd|].
  destruct (boot_restores_networks Sample.channelFromJSON Sample.generate
              Sample.downloads Sample.config (Scenario.empty Scenario.store) Hstr Hnd)
    as (s' & Hrun & Hin & _).
  destruct (Hin "net" (mkNwConfig (JStr "irc.example.org") Scenario.options))
    as (irc & Hlook & _ & Hnick & _ & Hst & _); [by left|].
  exists s', irc. exact (conj Hrun (conj Hlook (conj Hnick Hst))).
Defined.

Lemma boot_resubmits_downloads_witness :
  Forall (fun entry => isString (cfg_hostname (snd entry)) = true) Sample.config /\
  NoDup (map fst Sample.config) /\
  pending (state_of (boot Sample.channelFromJSON Sample.generate Sample.downloads
                          Sample.config (Scenario.empty Scenario.store))) =
    [mkTask "net:bot:a" true CbUndefined; mkTask "net:bot:b" true CbUndefined].
Proof.
  destruct config_bootable as [Hstr Hnd]. split; [exact Hstr|]. split; [exact Hnd|].
  exact (proj1 (boot_resubmits_downloads Sample.channelFromJSON Sample.generate
                  Sample.downloads Sample.config (Scenario.empty Scenario.store)
                  Hstr Hnd)).
Defined.

Lemma boot_reaches_initial_witness :
  networks (Scenario.empty Scenario.store) = ∅ /\
  finished (Scenario.empty Scenario.store) = [] /\
  reachable (state_of (boot Sample.channelFromJSON Sample.generate Sample.downloads
                            Sample.config (Scenario.empty Scenario.store))).
Proof.
  split; [reflexivity|]. split; [reflexivity|].
  exact (proj2 (boot_reaches_initial Sample.channelFromJSON Sample.generate
                  Sample.downloads Sample.config (Scenario.empty Scenario.store)
                  eq_refl eq_refl)).
Defined.

Lemma boot_stops_at_bad_hostname_witness :
  isString (cfg_hostname Sample.broken) = false /\
  exists s1,
    boot Sample.channelFromJSON Sample.generate Sample.downloads Sample.config
         (Scenario.empty Scenario.store) = Ok tt s1 /\
    boot Sample.channelFromJSON Sample.generate Sample.downloads
         (Sample.config ++ [("bad", Sample.broken)]) (Scenario.empty Scenario.store) =
      Throw "parameter json.hostname ist not a string" s1.
Proof.
  split; [reflexivity|]. destruct config_bootable as [Hstr Hnd].
  exact (boot_stops_at_bad_hostname Sample.channelFromJSON Sample.generate
           Sample.downloads Sample.config [] "bad" Sample.broken
           (Scenario.empty Scenario.store) Hstr Hnd eq_refl).
Defined.

Lemma boot_after_addNetwork_witness :
  networks (Scenario.empty Scenario.store) !! "net" = None /\
  exists irc s1 cfg irc' s2,
    addNetwork "nomi" (JStr "net") (JStr "irc.example.org") (Some Scenario.options)
      (Scenario.empty Scenario.store) = Ok irc s1 /\
    disk (sc_nw s1) !! "net" = Some cfg /\
    boot Sample.channelFromJSON Sample.generate Sample.downloads [("net", cfg)]
         (Scenario.empty Scenario.store) = Ok tt s2 /\
    networks s2 !! "net" = Some (mkNetwork irc' "net" ∅) /\
    irc_nick irc = "me" /\
    irc_nick irc' = "guest-net".
Proof.
  split; [reflexivity|].
  destruct (boot_after_addNetwork Sample.channelFromJSON Sample.generate
              Sample.downloads (Scenario.empty Scenario.store)
              (Scenario.empty Scenario.store) "nomi" "net" "irc.example.org"
              Scenario.options eq_refl)
    as (irc & s1 & cfg & irc' & s2 & H1 & H2 & H3 & H4 & _ & _ & _ & H5 & H6).
  exists irc, s1, cfg, irc', s2.
  exact (conj H1 (conj H2 (conj H3 (conj H4 (conj H5 H6))))).
Defined.

Lemma toJSON_holds_no_network_witness :
  is_Some (networks Sample.idle !! "net") /\
  is_Some (snap_networks (toJSON Sample.idle) !! "net,[object Object]") /\
  forall k v, snap_networks (toJSON Sample.idle) !! k = Some v -> v = None.
Proof.
  assert (is_Some (networks Sample.idle !! "net")) as Hn
    by (destruct idle_network as (nw & Hn & _); eauto).
  destruct (toJSON_holds_no_network Sample.idle) as (_ & Hnone & Hkeys & _).
  split; [exact Hn|]. split; [exact (proj1 (Hkeys "net") Hn) | exact Hnone].
Defined.

Lemma clientOptions_keeps_caller_settings_witness :
  defaultOption "alice" "userName" = Some (JStr "alice") /\
  Session.clientOptions {["userName" := JStr "bob"]} "alice" !! "userName" =
    Some (JStr "bob") /\
  Session.clientOptions {["userName" := JStr "bob"]} "alice" !! "realName" =
    Some (JStr "alice").
Proof.
  split; [reflexivity|].
  destruct (clientOptions_keeps_caller_settings {["userName" := JStr "bob"]} "alice")
    as (_ & _ & Hd & _).
  split.
  - exact (Hd "userName" (JStr "alice") eq_refl).
  - exact (Hd "realName" (JStr "alice") eq_refl).
Defined.

Lemma built_wf : chans_wf Sample.built.
Proof.
  split; simpl.
  - apply NoDup_singleton.
  - by repeat constructor.
Qed.

Lemma snapshot_round_trip_witness :
  client_opt (irc_client Sample.built) = Session.clientOptions ∅ "alice" /\
  (forall c, chan_name (Sample.channelFromJSON c) = chan_name c) /\
  chans_wf Sample.built /\
  exists p',
    Session.fromJSON Sample.channelFromJSON "nomi" (Some (Session.toJSON Sample.built))
      = inr p' /\
    irc_hostname p' = irc_hostname Sample.built /\
    client_opt (irc_client p') = client_opt (irc_client Sample.built).
Proof.
  assert (client_opt (irc_client Sample.built) = Session.clientOptions ∅ "alice") as Ho
    by reflexivity.
  assert (forall c, chan_name (Sample.channelFromJSON c) = chan_name c) as Hc
    by reflexivity.
  split; [exact Ho|]. split; [exact Hc|]. split; [exact built_wf|].
  destruct (snapshot_round_trip Sample.channelFromJSON "nomi" Sample.built ∅ "alice"
              Ho Hc built_wf)
    as (p' & H1 & H2 & _ & H3 & _).
  exists p'. exact (conj H1 (conj H2 H3)).
Defined.

Lemma wire_wf : chans_wf (wire_privates Sample.wire).
Proof.
  split; simpl.
  - apply NoDup_singleton.
  - by repeat constructor.
Qed.


Lemma removeChannel_then_part_event_witness :
  Handle.own "alice" Sample.wire = true /\
  chans_wf (wire_privates Sample.wire) /\
  JsMap.get "#packs" (chans Sample.wire) = Some Scenario.channel /\
  exists w1 w2,
    Irc.removeChannel Scenario.channel Sample.wire = inr w1 /\
    wire_calls w1 = [ClientPart "#packs"] /\
    Handle.part "#Packs" "alice" w1 = inr w2 /\
    JsMap.get "#packs" (chans w2) = None /\
    Irc.removeChannel Scenario.channel w2 = inl "channel don't exists".
Proof.
  split; [reflexivity|]. split; [exact wire_wf|]. split; [reflexivity|].
  destruct (removeChannel_then_part_event Sample.wire Scenario.channel Scenario.channel
              "#Packs" "alice" eq_refl wire_wf eq_refl eq_refl)
    as (w1 & w2 & H1 & _ & H2 & H3 & H4 & _ & _ & H5 & _).
  exists w1, w2. exact (conj H1 (conj H2 (conj H3 (conj H4 H5)))).
Defined.

Lemma kick_then_rejoin_witness :
  Handle.own "alice" Sample.wire = true /\
  chans_wf (wire_privates Sample.wire) /\
  JsMap.get "#packs" (chans Sample.wire) = Some Scenario.channel /\
  Handle.kick "#Packs" "alice" Sample.wire = inl TypeError /\
  exists w1 w2,
    Handle.kick "#packs" "alice" Sample.wire = inr w1 /\
    observers "#packs" w1 = [] /\
    Handle.join "#packs" "alice" w1 = inr w2 /\
    observers "#packs" w2 = [with_status "joined" Scenario.channel].
Proof.
  split; [reflexivity|]. split; [exact wire_wf|]. split; [reflexivity|].
  destruct (kick_then_rejoin Sample.wire "#packs" "alice" Scenario.channel
              eq_refl wire_wf eq_refl eq_refl)
    as ((w1 & w2 & H1 & _ & H2 & H3 & _ & H4) & Hcase).
  split; [exact (proj1 (Hcase "#Packs" eq_refl eq_refl))|].
  exists w1, w2. exact (conj H1 (conj H2 (conj H3 H4))).
Defined.

Lemma join_events_accumulate_observers_witness :
  Handle.own "alice" Sample.wire = true /\
  chans_wf (wire_privates Sample.wire) /\
  observers "#packs" Sample.wire = [] /\
  let event w := match Handle.join "#packs" "alice" w with inr w' => w' | inl _ => w end in
  length (message Scenario.announced "#packs" "bot" "#7 100K file.bin"
            (event (event Sample.wire))) = 2.
Proof.
  split; [reflexivity|]. split; [exact wire_wf|]. split; [reflexivity|].
  intros event.
  pose proof (proj2 (join_events_accumulate_observers Scenario.announced Sample.wire
                       "#packs" "alice" "bot" "#7 100K file.bin" Scenario.channel
                       [Some "#7 100K file.bin"; Some "7"; Some "100"; Some "K";
                        Some "file.bin"] 2
                       eq_refl wire_wf eq_refl eq_refl eq_refl eq_refl eq_refl eq_refl))
    as H.
  exact (f_equal (@length _) H).
Defined.

Lemma addChannel_replaces_after_part_witness :
  Handle.own "alice" Sample.wire = true /\
  chans_wf (wire_privates Sample.wire) /\
  JsMap.get "#packs" (chans Sample.wire) = Some Scenario.channel /\
  let w1 := Irc.addChannel Sample.replacement Sample.wire in
  chans w1 = chans Sample.wire /\
  wire_calls w1 = [ClientPart "#packs"] /\
  (exists w2,
     Handle.part "#packs" "alice" w1 = inr w2 /\
     JsMap.get "#packs" (chans (Irc.partCallback "#packs" w2)) =
       Some Sample.replacement) /\
  (exists w3,
     Handle.part "#packs" "alice" (Irc.partCallback "#packs" w1) = inr w3 /\
     JsMap.get "#packs" (chans w3) = None).
Proof.
  split; [reflexivity|]. split; [exact wire_wf|]. split; [reflexivity|].
  destruct (addChannel_replaces_after_part Sample.wire Scenario.channel
              Sample.replacement "alice" eq_refl wire_wf eq_refl eq_refl eq_refl)
    as (H1 & H2 & (w2 & H3 & H4 & _) & (w3 & H5 & H6 & _)).
  intros w1. split; [exact H1|]. split; [exact H2|]. split.
  - exists w2. exact (conj H3 H4).
  - exists w3. exact (conj H5 H6).
Defined.


Lemma registered_sends_commands_and_joins_witness :
  chans_wf (wire_privates Sample.wire) /\
  irc_status (wire_privates (Handle.registered Sample.wire)) = "connected" /\
  wire_calls (Handle.registered Sample.wire) =
    [ClientSend "/msg nickserv identify secret"; ClientJoin "#packs"].
Proof.
  split; [exact wire_wf|].
  destruct (registered_sends_commands_and_joins Sample.wire wire_wf)
    as (H1 & _ & _ & _ & H2 & _).
  exact (conj H1 H2).
Defined.
